(** * Whisper STT service: a shallow embedding of [python_backend]

    The development follows the two Python modules of the backend:

    - [language_detector.py]: the class [LanguageDetector];
    - [whisper_server.py]: the class [WhisperSTT], [safe_delete_file] and
      the [/transcribe] request handler.

    Conventions.

    - A Python [str] is a [string], one [ascii] per character (code points
      0..255); the UTF-8 bytes of the longer prompts stand for their text,
      which the program only passes on.
    - A Python [float] is a rational [Q].  The program compares floats with
      decimal literals and adds and divides them; no claim below depends on
      rounding.  Division is partial, as Python's is ([ZeroDivisionError]).
    - Everything the program imports (whisper, torch, librosa, pydub, os,
      tempfile, time) is a field of the record [Lib]: a library call may
      raise, and its outcome may depend on everything that happened before
      (the trace of earlier calls).
    - State is threaded explicitly: the global [whisper_stt] object and
      the trace of library calls make up a [World].  Calls of [logger]
      have no effect on either and are left out. *)

From Stdlib Require Import Ascii QArith Lqa Sorted.
From stdpp Require Import gmap strings list fin_maps pretty.

Set Warnings "-register-all".

Local Open Scope string_scope.
Local Open Scope list_scope.
Local Open Scope Z_scope.

(** ** Python values and exceptions *)

Module Py.

(** Values that occur as keyword arguments and dictionary entries. *)
Inductive PyVal : Type :=
| VNone
| VBool (b : bool)
| VInt (z : Z)
| VFloat (q : Q)
| VStr (s : string)
| VList (l : list PyVal).

(** An exception: its class and [str(e)]. *)
Record PyExn : Type := MkExn { exn_class : string; exn_msg : string }.

Inductive Outcome (A : Type) : Type :=
| Ret (a : A)
| Raise (e : PyExn).
Arguments Ret {A} a.
Arguments Raise {A} e.

Definition ZeroDivisionError : PyExn := MkExn "ZeroDivisionError" "float division by zero".
Definition ValueError (msg : string) : PyExn := MkExn "ValueError" msg.
Definition KeyError (key : string) : PyExn := MkExn "KeyError" key.
Definition AttributeError (msg : string) : PyExn := MkExn "AttributeError" msg.

(** Sequencing of outcomes: the first exception wins. *)
Definition and_then {A B} (o : Outcome A) (k : A -> Outcome B) : Outcome B :=
  match o with
  | Ret a => k a
  | Raise e => Raise e
  end.

(** [x / y] on floats. *)
Definition truediv (x y : Q) : Outcome Q :=
  if Qeq_bool y 0 then Raise ZeroDivisionError else Ret (x / y)%Q.

(** [x >= y] on floats. *)
Definition ge (x y : Q) : bool := Qle_bool y x.

(** [x > y] on floats. *)
Definition gt (x y : Q) : bool := negb (Qle_bool x y).

(** *** Strings *)

Definition code (c : ascii) : N := N_of_ascii c.

(** [c.isspace()] for a character below 256. *)
Definition isspace (c : ascii) : bool :=
  let n := code c in
  ((9 <=? n) && (n <=? 13) || (28 <=? n) && (n <=? 32) || (n =? 133) || (n =? 160))%N.

(** [c.lower()] for a character below 256. *)
Definition lower_char (c : ascii) : ascii :=
  let n := code c in
  if ((65 <=? n) && (n <=? 90) || (192 <=? n) && (n <=? 222) && negb (n =? 215))%N
  then ascii_of_N (n + 32) else c.

(** [s.lower()] *)
Fixpoint lower (s : string) : string :=
  match s with
  | EmptyString => EmptyString
  | String c t => String (lower_char c) (lower t)
  end.

(** [sub in s] on strings. *)
Fixpoint contains (sub s : string) : bool :=
  String.prefix sub s ||
  match s with
  | EmptyString => false
  | String _ t => contains sub t
  end.

(** [s.lstrip()] *)
Fixpoint lstrip (s : string) : string :=
  match s with
  | EmptyString => EmptyString
  | String c t => if isspace c then lstrip t else s
  end.

(** [s.rstrip()]: the result is empty exactly when nothing but
    whitespace follows. *)
Fixpoint rstrip (s : string) : string :=
  match s with
  | EmptyString => EmptyString
  | String c t =>
      match rstrip t with
      | EmptyString => if isspace c then EmptyString else String c EmptyString
      | t' => String c t'
      end
  end.

(** [s.strip()] *)
Definition strip (s : string) : string := rstrip (lstrip s).

(** [s.split()]: the maximal runs of non-whitespace characters.  [cur]
    holds the run being read, latest character first. *)
Fixpoint split_from (cur : list ascii) (s : string) : list string :=
  let flush := match cur with [] => [] | _ => [String.string_of_list_ascii (rev cur)] end in
  match s with
  | EmptyString => flush
  | String c t => if isspace c then (flush ++ split_from [] t)%list else split_from (c :: cur) t
  end.

Definition split (s : string) : list string := split_from [] s.

(** Truth value of a string: [if s:] *)
Definition truthy (s : string) : bool :=
  match s with EmptyString => false | _ => true end.

(** [len(s)] *)
Definition len (s : string) : Z := Z.of_nat (String.length s).

End Py.
Export Py.

(** ** State and exceptions

    [Eff S A] is a computation over a state [S] that returns an [A] or
    raises.  The state a computation leaves behind survives an exception,
    as it does in Python. *)

Module Eff.

Definition t (S A : Type) : Type := S -> Outcome A * S.

Definition ret {S A} (a : A) : t S A := fun s => (Ret a, s).

Definition raise {S A} (e : PyExn) : t S A := fun s => (Raise e, s).

Definition bind {S A B} (m : t S A) (k : A -> t S B) : t S B :=
  fun s =>
    match m s with
    | (Ret a, s') => k a s'
    | (Raise e, s') => (Raise e, s')
    end.

Definition gets {S A} (f : S -> A) : t S A := fun s => (Ret (f s), s).

Definition modify {S} (f : S -> S) : t S unit := fun s => (Ret tt, f s).

(** An outcome computed without touching the state. *)
Definition lift {S A} (o : Outcome A) : t S A := fun s => (o, s).

(** [try: m except Exception as e: h e] *)
Definition try_except {S A} (m : t S A) (h : PyExn -> t S A) : t S A :=
  fun s =>
    match m s with
    | (Ret a, s') => (Ret a, s')
    | (Raise e, s') => h e s'
    end.

(** The outcome of [m] as a value: the body of a [try] whose handlers
    are told apart afterwards. *)
Definition attempt {S A} (m : t S A) : t S (Outcome A) :=
  fun s => let '(o, s') := m s in (Ret o, s').

(** [try: m finally: fin].  [fin] runs on every way out of [m]; when
    [fin] raises, its exception is the one that leaves. *)
Definition try_finally {S A} (m : t S A) (fin : t S unit) : t S A :=
  fun s =>
    let '(o, s') := m s in
    match fin s' with
    | (Ret _, s'') => (o, s'')
    | (Raise e, s'') => (Raise e, s'')
    end.

(** A computation on a part [S1] of the state [S2]. *)
Definition zoom {S1 S2 A} (proj : S2 -> S1) (upd : S1 -> S2 -> S2) (m : t S1 A) : t S2 A :=
  fun s => let '(o, s1) := m (proj s) in (o, upd s1 s).

(** [for x in xs: body x] *)
Fixpoint for_each {S A} (xs : list A) (body : A -> t S unit) : t S unit :=
  match xs with
  | [] => ret tt
  | x :: rest => bind (body x) (fun _ => for_each rest body)
  end.

End Eff.

Notation "'let!' x ':=' m 'in' k" := (Eff.bind m (fun x => k))
  (at level 10, x pattern, m at level 99, k at level 200).
Notation "m ';;' k" := (Eff.bind m (fun _ => k))
  (at level 100, k at level 200, right associativity).

(** ** Data of the service *)

(** A waveform: the samples [librosa.load] returns. *)
Definition Audio : Type := list Q.

(** A log-mel spectrogram and the device it is on. *)
Record Mel : Type := MkMel { mel_frames : list Q; mel_device : string }.

(** A loaded whisper model. *)
Record Model : Type := MkModel { model_name : string; model_device : string }.

(** A [pydub.AudioSegment]. *)
Record AudioSegment : Type :=
  MkAudioSegment { frame_rate : Z; channels : Z; segment_source : string }.

(** A segment of the dictionary [model.transcribe] returns.  The keys read
    with [segment.get(key, default)] may be missing. *)
Record RawSegment : Type := MkRawSegment {
  raw_start : Q;
  raw_end : Q;
  raw_text : string;
  raw_avg_logprob : option Q;
  raw_no_speech_prob : option Q
}.

(** The dictionary [model.transcribe] returns. *)
Record RawResult : Type := MkRawResult {
  raw_result_text : string;
  raw_result_segments : option (list RawSegment);
  raw_result_language : option string
}.

(** The calls the program makes to its libraries, and the entry into
    [safe_delete_file], in the order they happen. *)
Inductive Event : Type :=
| EvLoadModel (name device : string)
| EvLibrosaLoad (path : string) (sr : Z) (mono : bool)
| EvNormalize
| EvPreemphasis (coef : option Q)
| EvTrim (top_db : Z)
| EvPadOrTrim
| EvLogMel
| EvToDevice (device : string)
| EvDetectLanguage (m : Model)
| EvTranscribe (m : Model) (audio : Audio) (options : gmap string PyVal)
| EvTime
| EvRead (filename : string)
| EvMkstemp (suffix prefix : string) (created : option string)
| EvWrite (fd : Z) (size : Z)
| EvClose (fd : Z)
| EvFromFile (path format : string)
| EvExport (path : string)
| EvGcCollect
| EvSleep (seconds : Q)
| EvSafeDelete (path : string)
| EvExists (path : string)
| EvChmod (path : string) (mode : Z)
| EvUnlink (path : string).

(** An uploaded file. *)
Record UploadFile : Type := MkUploadFile {
  filename : string;
  upload_content : list Byte.byte
}.

(** ** The libraries *)

Record Lib : Type := MkLib {
  (** [torch.cuda.is_available()] *)
  torch_cuda_is_available : bool;
  (** [whisper.load_model(name, device=device)] *)
  whisper_load_model : list Event -> string -> string -> Outcome Model;
  (** [librosa.load(path, sr=16000, mono=True)], the waveform of the pair *)
  librosa_load : list Event -> string -> Outcome Audio;
  (** [librosa.util.normalize(audio)] *)
  librosa_normalize : Audio -> Outcome Audio;
  (** [librosa.effects.preemphasis(audio, coef=coef)]; [None] is the call
      that leaves the coefficient to the library's default *)
  librosa_preemphasis : option Q -> Audio -> Outcome Audio;
  (** [librosa.effects.trim(audio, top_db=top_db)], the waveform of the pair *)
  librosa_trim : Z -> Audio -> Outcome Audio;
  (** [whisper.pad_or_trim(audio)] *)
  whisper_pad_or_trim : Audio -> Outcome Audio;
  (** [whisper.log_mel_spectrogram(audio)] *)
whisper_log_mel_spectrogram : Audio -> Outcome Mel;
(** [mel.to(device)] *)
tensor_to : Mel -> string -> Outcome Mel;
  (** [model.detect_language(mel)], the probabilities of the pair: a
      dictionary, in the order of its keys *)
  model_detect_language : list Event -> Model -> Mel -> Outcome (list (string * Q));
  (** [model.transcribe(audio, **options)] *)
  model_transcribe : list Event -> Model -> Audio -> gmap string PyVal -> Outcome RawResult;
  (** [time.time()] *)
  time_time : list Event -> Q;
  (** [await audio_file.read()] *)
  upload_read : list Event -> UploadFile -> Outcome (list Byte.byte);
  (** [os.path.splitext(name)] *)
  os_path_splitext : string -> string * string;
  (** [tempfile.mkstemp(suffix=suffix, prefix=prefix)] *)
  tempfile_mkstemp : list Event -> string -> string -> Outcome (Z * string);
  (** [with os.fdopen(fd, 'wb') as f: f.write(content)] *)
  os_fdopen_write : list Event -> Z -> list Byte.byte -> Outcome unit;
  (** [AudioSegment.from_file(path, format=format)] *)
  pydub_from_file : list Event -> string -> string -> Outcome AudioSegment;
  (** [segment.export(path, format='wav', parameters=...)] *)
  pydub_export : list Event -> AudioSegment -> string -> Outcome unit;
  (** [os.path.exists(path)] *)
  os_path_exists : list Event -> string -> bool;
  (** [os.chmod(path, mode)] *)
  os_chmod : list Event -> string -> Z -> Outcome unit;
  (** [os.unlink(path)] *)
  os_unlink : list Event -> string -> Outcome unit;
  (** [f'{x:.2f}'] *)
  format_2f : Q -> string
}.

(** ** The state of the server *)

(** The object [whisper_stt]: the attributes of [WhisperSTT] that change.
    [self_models] keeps every key of the dictionary; a model that is not
    loaded is the value [None]. *)
Record WhisperSTT : Type := MkWhisperSTT {
  self_models : gmap string (option Model);
  self_current_model : option Model;
  self_model_size : string
}.

Record World : Type := MkWorld {
  whisper_stt : WhisperSTT;
  trace : list Event
}.

(** A library call: its outcome is decided by the calls so far, and the
    call is recorded. *)
Definition call {A} (ev : Event) (f : list Event -> Outcome A) : Eff.t World A :=
  fun w => (f (trace w), MkWorld (whisper_stt w) (trace w ++ [ev])%list).

Definition get_stt : Eff.t World WhisperSTT := Eff.gets whisper_stt.

Definition set_stt (f : WhisperSTT -> WhisperSTT) : Eff.t World unit :=
  Eff.modify (fun w => MkWorld (f (whisper_stt w)) (trace w)).

(** ** [language_detector.py] *)

Module LanguageDetector.

(** [self.confidence_thresholds] *)
Definition confidence_thresholds : gmap string Q :=
  <["low" := 0.4%Q]> (<["medium" := 0.6%Q]> (<["high" := 0.8%Q]> ∅)).

(** [self.confidence_thresholds[key]] *)
Definition threshold (key : string) : Outcome Q :=
  match confidence_thresholds !! key with
  | Some q => Ret q
  | None => Raise (KeyError key)
  end.

Definition _get_confidence_level (confidence : Q) : Outcome string :=
  match threshold "high" with
  | Raise e => Raise e
  | Ret high =>
      if Py.ge confidence high then Ret "high"
      else
        match threshold "medium" with
        | Raise e => Raise e
        | Ret medium =>
            if Py.ge confidence medium then Ret "medium"
            else
              match threshold "low" with
              | Raise e => Raise e
              | Ret low =>
                  if Py.ge confidence low then Ret "low" else Ret "very_low"
              end
        end
  end.

(** The levels from lowest to highest, for comparing them. *)
Definition level_rank (level : string) : Z :=
  if String.eqb level "high" then 3
  else if String.eqb level "medium" then 2
  else if String.eqb level "low" then 1
  else 0.

End LanguageDetector.

(** ** [whisper_server.py]: the class [WhisperSTT] *)

(** The keys of [self.models], in the order [__init__] writes them. *)
Definition model_names : list string :=
  ["tiny"; "tiny.en"; "base"; "base.en"; "small"; "small.en";
   "medium"; "medium.en"; "large"; "large-v1"; "large-v2"; "large-v3"].

(** The keys of [self.supported_languages]. *)
Definition supported_languages : list string :=
  ["en"; "id"; "ar"; "ms"; "zh"; "ja"; "ko"; "auto"].

(** [x in xs] for a list of strings. *)
Definition in_list (x : string) (xs : list string) : bool :=
  existsb (String.eqb x) xs.

(** [key in d] for a dictionary. *)
Definition in_dict {V} (key : string) (d : gmap string V) : bool :=
  match d !! key with Some _ => true | None => false end.

(** The object before [__init__] calls [_load_model]. *)
Definition fresh_stt : WhisperSTT :=
  MkWhisperSTT (list_to_map (map (fun name => (name, None)) model_names)) None "base".

Definition device_of (L : Lib) : string :=
  if torch_cuda_is_available L then "cuda" else "cpu".

(** [self.models[name] = whisper.load_model(name, device=device)] *)
Definition load_into (L : Lib) (name device : string) : Eff.t World unit :=
  let! m := call (EvLoadModel name device) (fun h => whisper_load_model L h name device) in
  set_stt (fun st => MkWhisperSTT (<[name := Some m]> (self_models st))
                                  (self_current_model st) (self_model_size st)).

(** The loop over [fallback_models]; it returns the value [model_size]
    has when the loop ends. *)
Fixpoint load_fallback (L : Lib) (device model_size : string) (fallback_models : list string)
  : Eff.t World string :=
  match fallback_models with
  | [] => Eff.ret model_size
  | fallback :: rest =>
      if negb (String.eqb fallback model_size) then
        let! r := Eff.attempt (load_into L fallback device) in
        match r with
        | Ret _ => Eff.ret fallback
        | Raise _ => load_fallback L device model_size rest
        end
      else load_fallback L device model_size rest
  end.

Definition _load_model (L : Lib) (model_size : string) : Eff.t World bool :=
  Eff.try_except
    (let! st := get_stt in
     let model_size := if negb (in_dict model_size (self_models st)) then "base" else model_size in
     let! model_size :=
       match self_models st !! model_size with
       | None => Eff.raise (KeyError model_size)
       | Some (Some _) => Eff.ret model_size
       | Some None =>
           let device := device_of L in
           let! r := Eff.attempt (load_into L model_size device) in
           match r with
           | Ret _ => Eff.ret model_size
           | Raise _ => load_fallback L device model_size ["base"; "tiny"; "small"]
           end
       end in
     let! st := get_stt in
     match self_models st !! model_size with
     | None => Eff.raise (KeyError model_size)
     | Some m =>
         set_stt (fun st => MkWhisperSTT (self_models st) m model_size) ;;
         Eff.ret true
     end)
    (fun _ => Eff.ret false).

(** [WhisperSTT()]: the attributes are set and ['base'] is loaded; the
    constructor drops the value [_load_model] returns. *)
Definition init_stt (L : Lib) : Eff.t World bool :=
  set_stt (fun _ => fresh_stt) ;; _load_model L "base".

Definition preprocess_audio (L : Lib) (audio_file_path : string) (preserve_full_audio : bool)
  : Eff.t World (option Audio) :=
  Eff.try_except
    (let! audio := call (EvLibrosaLoad audio_file_path 16000 true)
                        (fun h => librosa_load L h audio_file_path) in
     let! audio :=
       if preserve_full_audio then
         let! audio := call EvNormalize (fun _ => librosa_normalize L audio) in
         let! audio := call (EvPreemphasis (Some 0.95%Q))
                            (fun _ => librosa_preemphasis L (Some 0.95%Q) audio) in
         call (EvTrim 10) (fun _ => librosa_trim L 10 audio)
       else
         let! audio := call EvNormalize (fun _ => librosa_normalize L audio) in
         let! audio := call (EvTrim 20) (fun _ => librosa_trim L 20 audio) in
         call (EvPreemphasis None) (fun _ => librosa_preemphasis L None audio) in
     Eff.ret (Some audio))
    (fun _ => Eff.ret None).

(** [probs.get(key)] and [probs[key]] for a dictionary given by its
    items. *)
Fixpoint dict_get (probs : list (string * Q)) (key : string) : option Q :=
  match probs with
  | [] => None
  | (k, v) :: rest => if String.eqb k key then Some v else dict_get rest key
  end.

Definition dict_item (probs : list (string * Q)) (key : string) : Outcome Q :=
  match dict_get probs key with
  | Some v => Ret v
  | None => Raise (KeyError key)
  end.

(** [a > b] on the values of [probs.get]: [None] is not ordered. *)
Definition gt_value (a b : option Q) : Outcome bool :=
  match a, b with
  | Some x, Some y => Ret (Py.gt x y)
  | _, _ => Raise (MkExn "TypeError" "'>' not supported between instances")
  end.

(** The loop of [max(keys, key=f)]: [best] is replaced by a later key only
    when that key's value is greater. *)
Fixpoint max_from (f : string -> option Q) (best : string) (keys : list string) : Outcome string :=
  match keys with
  | [] => Ret best
  | k :: rest =>
      match gt_value (f k) (f best) with
      | Raise e => Raise e
      | Ret true => max_from f k rest
      | Ret false => max_from f best rest
      end
  end.

(** [max(probs, key=probs.get)] *)
Definition max_key (probs : list (string * Q)) : Outcome string :=
  match map fst probs with
  | [] => Raise (ValueError "max() arg is an empty sequence")
  | first :: rest => max_from (dict_get probs) first rest
  end.

(** [self.current_model], for a method call or an attribute: [None] has
    neither. *)
Definition the_current_model : Eff.t World Model :=
  let! st := get_stt in
  match self_current_model st with
  | Some m => Eff.ret m
  | None => Eff.raise (AttributeError "'NoneType' object has no attribute")
  end.

Definition detect_language (L : Lib) (audio : Audio) : Eff.t World (string * Q) :=
  Eff.try_except
    (let! audio_tensor := call EvPadOrTrim (fun _ => whisper_pad_or_trim L audio) in
     let! mel := call EvLogMel (fun _ => whisper_log_mel_spectrogram L audio_tensor) in
     let! m := the_current_model in
     let! mel := call (EvToDevice (model_device m)) (fun _ => tensor_to L mel (model_device m)) in
     let! m := the_current_model in
     let! probs := call (EvDetectLanguage m) (fun h => model_detect_language L h m mel) in
     let! detected_lang := Eff.lift (max_key probs) in
     let! confidence := Eff.lift (dict_item probs detected_lang) in
     Eff.ret (detected_lang, confidence))
    (fun _ => Eff.ret ("en", 0.5%Q)).

Definition _get_language_prompt (language : string) : string :=
  let prompts : gmap string string :=
    list_to_map
      [("en", "The following is a clear English speech with proper pronunciation and grammar.");
       ("id", "Berikut adalah percakapan dalam bahasa Indonesia yang jelas dengan pengucapan dan tata bahasa yang benar.");
       ("ar", "التالي هو خطاب واضح باللغة العربية مع النطق والقواعد الصحيحة. قرآن كريم، آيات، سورة.");
       ("ms", "Berikut adalah perbualan dalam bahasa Melayu yang jelas dengan sebutan dan tatabahasa yang betul.");
       ("zh", "以下是清晰的中文语音，具有正确的发音和语法。");
       ("ja", "以下は明確な日本語の音声で、正しい発音と文法を持っています。");
       ("ko", "다음은 올바른 발음과 문법을 가진 명확한 한국어 음성입니다.")] in
  default "The following is clear speech with proper pronunciation." (prompts !! language).

(** The dictionary [base_options]. *)
Definition base_options (L : Lib) (language : string) (high_accuracy : bool) : gmap string PyVal :=
  list_to_map
    [("language", VStr language);
     ("task", VStr "transcribe");
     ("temperature",
       if high_accuracy then VFloat 0.0%Q
       else VList [VFloat 0.0%Q; VFloat 0.2%Q; VFloat 0.4%Q; VFloat 0.6%Q; VFloat 0.8%Q]);
     ("fp16", VBool (torch_cuda_is_available L));
     ("condition_on_previous_text", VBool true);
     ("initial_prompt", VStr (_get_language_prompt language));
     ("suppress_tokens", VList [VInt (-1)])].

(** [{**base, key1: v1, ...}]: the entries are written from left to right
    over a copy of [base]. *)
Definition dict_extend (base : gmap string PyVal) (entries : list (string * PyVal))
  : gmap string PyVal :=
  fold_left (fun d kv => <[fst kv := snd kv]> d) entries base.

Definition large_models : list string := ["large"; "large-v1"; "large-v2"; "large-v3"].
Definition medium_models : list string := ["medium"; "medium.en"].

(** The dictionary [options] as the branch on [model_size] builds it. *)
Definition tier_options (base : gmap string PyVal) (model_size : string) : gmap string PyVal :=
  if in_list model_size large_models then
    dict_extend base
      [("beam_size", VInt 5);
       ("best_of", VInt 5);
       ("patience", VFloat 2.0%Q);
       ("compression_ratio_threshold", VFloat 2.4%Q);
       ("logprob_threshold", VFloat (-1.0)%Q);
       ("no_speech_threshold", VFloat 0.3%Q)]
  else if in_list model_size medium_models then
    dict_extend base
      [("beam_size", VInt 3);
       ("best_of", VInt 3);
       ("patience", VFloat 1.5%Q);
       ("compression_ratio_threshold", VFloat 2.4%Q);
       ("logprob_threshold", VFloat (-1.0)%Q);
       ("no_speech_threshold", VFloat 0.4%Q)]
  else
    dict_extend base
      [("beam_size", VInt 1);
       ("best_of", VInt 1);
       ("patience", VFloat 1.0%Q);
       ("compression_ratio_threshold", VFloat 2.4%Q);
       ("logprob_threshold", VFloat (-1.0)%Q);
       ("no_speech_threshold", VFloat 0.5%Q)].

(** The assignments to [options] under "Language-specific adjustments". *)
Definition language_adjust (language : string) (options : gmap string PyVal) : gmap string PyVal :=
  if String.eqb language "ar" then
    <["logprob_threshold" := VFloat (-1.2)%Q]>
      (<["compression_ratio_threshold" := VFloat 3.0%Q]>
         (<["no_speech_threshold" := VFloat 0.2%Q]> options))
  else if String.eqb language "id" then
    <["compression_ratio_threshold" := VFloat 2.8%Q]>
      (<["no_speech_threshold" := VFloat 0.3%Q]> options)
  else options.

(** The options [transcribe_audio] passes to [model.transcribe]. *)
Definition decode_options (L : Lib) (language model_size : string) (high_accuracy : bool)
  : gmap string PyVal :=
  language_adjust language (tier_options (base_options L language high_accuracy) model_size).

(** A segment of the result the service returns. *)
Record Segment : Type := MkSegment {
  seg_start : Q;
  seg_end : Q;
  seg_text : string;
  seg_confidence : Q;
  seg_no_speech_prob : Q
}.

Record QualityMetrics : Type := MkQualityMetrics {
  avg_confidence : Q;
  metrics_segment_count : Z;
  text_length : Z;
  words_per_segment : Q
}.

(** The dictionary [enhanced_result]. *)
Record EnhancedResult : Type := MkEnhancedResult {
  result_text : string;
  result_language : string;
  detected_language : option string;
  language_confidence : Q;
  segments : list Segment;
  result_model_size : string;
  overall_confidence : Q;
  segment_count : Z;
  audio_duration : Q;
  quality_metrics : QualityMetrics
}.

(** The body of the loop over [result.get('segments', [])]; the state is
    [(segments, total_confidence, segment_count)]. *)
Definition segment_step (acc : list Segment * Q * Z) (segment : RawSegment)
  : list Segment * Q * Z :=
  let '(segments, total_confidence, segment_count) := acc in
  if Py.truthy (Py.strip (raw_text segment)) then
    let confidence := default 0.0%Q (raw_avg_logprob segment) in
    ((segments ++ [MkSegment (raw_start segment) (raw_end segment) (Py.strip (raw_text segment))
                            confidence (default 0.0%Q (raw_no_speech_prob segment))])%list,
     (total_confidence + confidence)%Q,
     segment_count + 1)
  else acc.

Definition collect_segments (raw : list RawSegment) : list Segment * Q * Z :=
  fold_left segment_step raw ([], 0.0%Q, 0).

(** [transcribe_audio] from "Enhanced segment processing" to the
    dictionary it returns. *)
Definition enhance_result (result : RawResult) (audio : Audio) (language : string)
    (detected_language : option string) (language_confidence : Q) (model_size : string)
  : Outcome EnhancedResult :=
  let '(segments, total_confidence, segment_count) :=
    collect_segments (default [] (raw_result_segments result)) in
  Py.and_then
    (if 0 <? segment_count
     then Py.truediv total_confidence (inject_Z segment_count)
     else Ret 0.0%Q)
    (fun overall_confidence =>
  Py.and_then (Py.truediv (inject_Z (Z.of_nat (length audio))) 16000%Q)
    (fun audio_duration =>
  Py.and_then
    (Py.truediv (inject_Z (Z.of_nat (length (Py.split (raw_result_text result)))))
                (inject_Z (Z.max segment_count 1)))
    (fun words_per_segment =>
  Ret
    (MkEnhancedResult
       (Py.strip (raw_result_text result))
       (default language (raw_result_language result))
       detected_language
       language_confidence
       segments
       model_size
       overall_confidence
       segment_count
       audio_duration
       (MkQualityMetrics overall_confidence segment_count
          (Py.len (Py.strip (raw_result_text result))) words_per_segment))))).

(** The value of [preserve_full]. *)
Definition preserve_full (audio_file_path : string) (language : option string) : bool :=
  match language with Some l => String.eqb l "ar" | None => false end
  || Py.contains "quran" (Py.lower audio_file_path)
  || Py.contains "surah" (Py.lower audio_file_path).

(** [transcribe_audio] once the requested model is in place: from
    "Enhanced preprocessing" to the end of the [try] block. *)
Definition transcribe_loaded (L : Lib) (audio_file_path : string) (language : option string)
    (model_size : string) (high_accuracy : bool) : Eff.t World (option EnhancedResult) :=
  let! audio := preprocess_audio L audio_file_path (preserve_full audio_file_path language) in
  match audio with
  | None => Eff.ret None
  | Some audio =>
      let detect :=
        let! (detected, confidence) := detect_language L audio in
        Eff.ret (detected, Some detected, confidence) in
      let! (language, detected_language, language_confidence) :=
        match language with
        | None => detect
        | Some l => if String.eqb l "auto" then detect else Eff.ret (l, None, 0.0%Q)
        end in
      let options := decode_options L language model_size high_accuracy in
      let! m := the_current_model in
      let! result := call (EvTranscribe m audio options)
                          (fun h => model_transcribe L h m audio options) in
      let! enhanced_result :=
        Eff.lift (enhance_result result audio language detected_language
                                 language_confidence model_size) in
      Eff.ret (Some enhanced_result)
  end.

Definition transcribe_audio (L : Lib) (audio_file_path : string) (language : option string)
    (model_size : string) (high_accuracy : bool) : Eff.t World (option EnhancedResult) :=
  Eff.try_except
    (let! st := get_stt in
     let! loaded :=
       if negb (String.eqb model_size (self_model_size st))
       then _load_model L model_size
       else Eff.ret true in
     if negb loaded then Eff.ret None
     else transcribe_loaded L audio_file_path language model_size high_accuracy)
    (fun _ => Eff.ret None).

(** ** [whisper_server.py]: [safe_delete_file] and the [/transcribe] handler *)

(** [isinstance(e, PermissionError)] *)
Definition is_permission_error (e : PyExn) : bool := String.eqb (exn_class e) "PermissionError".

(** [2 ** attempt] as a float factor. *)
Definition pow2 (attempt : Z) : Q := inject_Z (2 ^ attempt).

(** The [for attempt in range(max_retries)] loop of [safe_delete_file],
    over the attempts still to make, and the [return False] after it. *)
Fixpoint safe_delete_loop (L : Lib) (file_path : string) (max_retries : Z) (delay : Q)
    (attempts : list Z) : Eff.t World bool :=
  match attempts with
  | [] => Eff.ret false
  | attempt :: rest =>
      let! r :=
        Eff.attempt
          (let! present := call (EvExists file_path) (fun h => Ret (os_path_exists L h file_path)) in
           if present : bool then
             call (EvChmod file_path 511) (fun h => os_chmod L h file_path 511) ;;
             call (EvUnlink file_path) (fun h => os_unlink L h file_path)
           else Eff.ret tt) in
      match r with
      | Ret _ => Eff.ret true
      | Raise e =>
          if is_permission_error e then
            (if attempt <? max_retries - 1 then
               call (EvSleep (delay * pow2 attempt)%Q) (fun _ => Ret tt) ;;
               call EvGcCollect (fun _ => Ret tt)
             else Eff.ret tt) ;;
            safe_delete_loop L file_path max_retries delay rest
          else Eff.ret false
      end
  end.

(** [range(n)] *)
Definition range (n : Z) : list Z := map Z.of_nat (seq 0 (Z.to_nat n)).

Definition safe_delete_file (L : Lib) (file_path : string) : Eff.t World bool :=
  let max_retries := 5 in
  let delay := 0.1%Q in
  call (EvSafeDelete file_path) (fun _ => Ret tt) ;;
  safe_delete_loop L file_path max_retries delay (range max_retries).

Record FileInfo : Type := MkFileInfo {
  info_filename : string;
  info_size_bytes : Z;
  info_format : string
}.

(** The content of a [JSONResponse] and its status code. *)
Record Response : Type := MkResponse {
  status_code : Z;
  resp_success : bool;
  resp_error : option string;
  resp_message : string;
  resp_result : option (EnhancedResult * Q * FileInfo)
}.

(** The form of a [/transcribe] request. *)
Record TranscribeRequest : Type := MkTranscribeRequest {
  req_audio_file : UploadFile;
  req_language : string;
  req_model_size : string;
  req_high_accuracy : bool
}.

(** The handler's frame: the world and its local list [temp_files]. *)
Record Frame : Type := MkFrame {
  frame_world : World;
  temp_files : list string
}.

Definition in_world {A} (m : Eff.t World A) : Eff.t Frame A :=
  Eff.zoom frame_world (fun w f => MkFrame w (temp_files f)) m.

(** [temp_files.append(path)] *)
Definition temp_files_append (path : string) : Eff.t Frame unit :=
  Eff.modify (fun f => MkFrame (frame_world f) (temp_files f ++ [path])).

(** [int(x)] for a float: truncation towards zero. *)
Definition int_of_float (x : Q) : Z := Z.quot (Qnum x) (Z.pos (Qden x)).

(** [f'{prefix}{int(time.time())}_'] *)
Definition stamped (L : Lib) (prefix : string) : Eff.t Frame string :=
  let! now := in_world (call EvTime (fun h => Ret (time_time L h))) in
  Eff.ret (prefix +:+ pretty (int_of_float now) +:+ "_").

(** [tempfile.mkstemp(suffix=suffix, prefix=prefix)]; the trace keeps the
    path of the file it created. *)
Definition mkstemp (L : Lib) (suffix prefix : string) : Eff.t World (Z * string) :=
  fun w =>
    let r := tempfile_mkstemp L (trace w) suffix prefix in
    let created := match r with Ret p => Some (snd p) | Raise _ => None end in
    call (EvMkstemp suffix prefix created) (fun _ => r) w.

(** [s[1:]] *)
Definition drop_first (s : string) : string :=
  match s with EmptyString => EmptyString | String _ t => t end.

Definition upload_limit : Z := 25 * 1024 * 1024.

(** The block under "Enhanced audio conversion": the path to transcribe,
    or the response of its [except] clause.  [os.close] is given the
    descriptor [mkstemp] has just opened and returns; [set_frame_rate] and
    [set_channels] are the updates of the segment's two fields. *)
Definition convert_upload (L : Lib) (temp_file_path file_extension : string)
  : Eff.t Frame (string + Response) :=
  if negb (in_list file_extension [".wav"; ".flac"]) then
    Eff.try_except
      (let! prefix := stamped L "whisper_converted_" in
       let! (wav_fd, wav_path) := in_world (mkstemp L ".wav" prefix) in
       in_world (call (EvClose wav_fd) (fun _ => Ret tt)) ;;
       temp_files_append wav_path ;;
       let! audio_segment :=
         in_world (call (EvFromFile temp_file_path (drop_first file_extension))
                        (fun h => pydub_from_file L h temp_file_path (drop_first file_extension))) in
       let audio_segment :=
         if negb (frame_rate audio_segment =? 16000)
         then MkAudioSegment 16000 (channels audio_segment) (segment_source audio_segment)
         else audio_segment in
       let audio_segment :=
         if negb (channels audio_segment =? 1)
         then MkAudioSegment (frame_rate audio_segment) 1 (segment_source audio_segment)
         else audio_segment in
       in_world (call (EvExport wav_path) (fun h => pydub_export L h audio_segment wav_path)) ;;
       in_world (call EvGcCollect (fun _ => Ret tt)) ;;
       in_world (call (EvSleep 0.1%Q) (fun _ => Ret tt)) ;;
       Eff.ret (inl wav_path))
      (fun conv_error =>
         Eff.ret (inr (MkResponse 400 false (Some "Audio conversion failed")
                         ("Could not convert audio format: " +:+ exn_msg conv_error) None)))
  else Eff.ret (inl temp_file_path).

(** The inner [try] of the handler, from writing the upload to the
    response, with its [except] clause. *)
Definition process_upload (L : Lib) (audio_file : UploadFile) (content : list Byte.byte)
    (language model_size : string) (high_accuracy : bool)
    (temp_fd : Z) (temp_file_path file_extension : string) : Eff.t Frame Response :=
  Eff.try_except
    (in_world (call (EvWrite temp_fd (Z.of_nat (length content)))
                    (fun h => os_fdopen_write L h temp_fd content)) ;;
     let! converted := convert_upload L temp_file_path file_extension in
     match converted with
     | inr response => Eff.ret response
     | inl final_audio_path =>
         let! start_time := in_world (call EvTime (fun h => Ret (time_time L h))) in
         let! result :=
           in_world (transcribe_audio L final_audio_path (Some language) model_size high_accuracy) in
         let! end_time := in_world (call EvTime (fun h => Ret (time_time L h))) in
         let processing_time := (end_time - start_time)%Q in
         match result with
         | Some result =>
             Eff.ret
               (MkResponse 200 true None
                  ("Transcription completed successfully in " +:+ format_2f L processing_time +:+ "s")
                  (Some (result, processing_time,
                         MkFileInfo (filename audio_file) (Z.of_nat (length content)) file_extension)))
         | None =>
             Eff.ret (MkResponse 400 false (Some "Transcription failed")
                        "Could not process audio file" None)
         end
     end)
    (fun process_error =>
       Eff.ret (MkResponse 500 false (Some "Processing failed")
                  ("Audio processing error: " +:+ exn_msg process_error) None)).

(** The outer [try] of the handler once the form is validated: from
    "Validate file size" on. *)
Definition handle_validated (L : Lib) (audio_file : UploadFile) (language model_size : string)
    (high_accuracy : bool) : Eff.t Frame Response :=
  let! content :=
    in_world (call (EvRead (filename audio_file)) (fun h => upload_read L h audio_file)) in
  if upload_limit <? Z.of_nat (length content) then
    Eff.ret (MkResponse 400 false (Some "File too large")
               "Audio file must be less than 25MB" None)
  else
    let file_extension := Py.lower (snd (os_path_splitext L (filename audio_file))) in
    let file_extension := if negb (Py.truthy file_extension) then ".wav" else file_extension in
    let! prefix := stamped L "whisper_" in
    let! (temp_fd, temp_file_path) := in_world (mkstemp L file_extension prefix) in
    temp_files_append temp_file_path ;;
    process_upload L audio_file content language model_size high_accuracy
                   temp_fd temp_file_path file_extension.

(** [model_size] after "Enhanced input validation". *)
Definition validated_model_size (st : WhisperSTT) (model_size : string) : string :=
  let available_models := map fst (map_to_list (self_models st)) in
  if negb (in_list model_size available_models) then "base" else model_size.

(** [language] after "Enhanced input validation". *)
Definition validated_language (language : string) : string :=
  if negb (in_list language supported_languages) then "auto" else language.

(** The outer [try] of the handler with its [except] clause. *)
Definition handle_upload (L : Lib) (req : TranscribeRequest) : Eff.t Frame Response :=
  Eff.try_except
    (let! st := in_world get_stt in
     let model_size := validated_model_size st (req_model_size req) in
     let language := validated_language (req_language req) in
     handle_validated L (req_audio_file req) language model_size (req_high_accuracy req))
    (fun e => Eff.ret (MkResponse 500 false (Some (exn_msg e)) "Internal server error" None)).

(** The [finally] clause. *)
Definition cleanup (L : Lib) : Eff.t Frame unit :=
  let! paths := Eff.gets temp_files in
  Eff.for_each paths (fun temp_file => in_world (safe_delete_file L temp_file) ;; Eff.ret tt).

(** The handler of [POST /transcribe], from [temp_files = []] on. *)
Definition transcribe_endpoint (L : Lib) (req : TranscribeRequest) : Eff.t World Response :=
  fun w =>
    let '(o, f) := Eff.try_finally (handle_upload L req) (cleanup L) (MkFrame w []) in
    (o, frame_world f).


(** ** [whisper_server.py]: [/health] and [/batch-transcribe] *)

(** The queries [/health] makes to [torch.cuda] when a GPU is there:
    [device_count()], [get_device_name(i)] and [memory_allocated(i)]. *)
Record TorchCuda : Type := MkTorchCuda {
  cuda_device_count : Z;
  cuda_get_device_name : Z -> string;
  cuda_memory_allocated : Z -> Z
}.

(** The dictionary [device_info]; the last three keys are there only when
    CUDA is available. *)
Record DeviceInfo : Type := MkDeviceInfo {
  info_device : string;
  info_cuda_available : bool;
  info_cuda_details : option (Z * option string * option Z)
}.

(** The content of the response of [/health]. *)
Record Health : Type := MkHealth {
  health_success : bool;
  health_message : string;
  health_current_model : string;
  health_device_info : DeviceInfo;
  health_loaded_models : list string;
  health_version : string
}.

(** [[k for k, v in d.items() if v is not None]], in the order of the
    map's keys. *)
Definition loaded_keys (d : gmap string (option Model)) : list string :=
  map fst (List.filter (fun kv => match snd kv with Some _ => true | None => false end)
                       (map_to_list d)).

Definition health_check (L : Lib) (T : TorchCuda) : Eff.t World Health :=
  let! st := get_stt in
  let device_info :=
    MkDeviceInfo
      (if torch_cuda_is_available L then "cuda" else "cpu")
      (torch_cuda_is_available L)
      (if torch_cuda_is_available L then
         Some (cuda_device_count T,
               (if 0 <? cuda_device_count T then Some (cuda_get_device_name T 0) else None),
               (if 0 <? cuda_device_count T then Some (cuda_memory_allocated T 0) else None))
       else None) in
  Eff.ret (MkHealth true "Enhanced Whisper STT API is running" (self_model_size st)
                    device_info (loaded_keys (self_models st)) "2.0.0").

(** [/models]: a value of the dictionary ['models'] of the response. *)
Record ModelInfo : Type := MkModelInfo {
  model_info_size : string;
  model_info_speed : string;
  model_info_accuracy : string;
  model_info_multilingual : bool
}.

(** The dictionary ['models'] of the response of [/models]. *)
Definition get_available_models : list (string * ModelInfo) :=
  [("tiny", MkModelInfo "39 MB" "fastest" "lowest" true);
   ("base", MkModelInfo "74 MB" "fast" "good" true);
   ("small", MkModelInfo "244 MB" "medium" "better" true);
   ("medium", MkModelInfo "769 MB" "slow" "high" true);
   ("large-v3", MkModelInfo "1550 MB" "slowest" "best_available" true)].

(** An element of the list [results] of [/batch-transcribe]; a success
    carries the result with its [file_index] and [filename]. *)
Record BatchEntry : Type := MkBatchEntry {
  entry_success : bool;
  entry_result : option (EnhancedResult * Z * string);
  entry_filename : option string;
  entry_error : option string
}.

Record BatchSummary : Type := MkBatchSummary {
  summary_total : Z;
  summary_successful : Z;
  summary_failed : Z
}.

(** The content of the response of [/batch-transcribe] and its status. *)
Record BatchResponse : Type := MkBatchResponse {
  batch_status_code : Z;
  batch_success : bool;
  batch_error : option string;
  batch_message : string;
  batch_results : list BatchEntry;
  batch_summary : option BatchSummary
}.

(** The frame of [batch_transcribe]: the world and its locals [results]
    and [temp_files]. *)
Record BatchFrame : Type := MkBatchFrame {
  batch_world : World;
  results : list BatchEntry;
  batch_temp_files : list string
}.

Definition in_batch {A} (m : Eff.t World A) : Eff.t BatchFrame A :=
  Eff.zoom batch_world (fun w f => MkBatchFrame w (results f) (batch_temp_files f)) m.

(** [results.append(entry)] *)
Definition results_append (entry : BatchEntry) : Eff.t BatchFrame unit :=
  Eff.modify (fun f => MkBatchFrame (batch_world f) (results f ++ [entry]) (batch_temp_files f)).

(** The body of the loop of [batch_transcribe] for the file of index [i]. *)
Definition batch_file (L : Lib) (language model_size : string) (i : Z) (audio_file : UploadFile)
  : Eff.t BatchFrame unit :=
  Eff.try_except
    (Eff.modify (fun f => MkBatchFrame (batch_world f) (results f) []) ;;
     let! content :=
       in_batch (call (EvRead (filename audio_file)) (fun h => upload_read L h audio_file)) in
     let file_extension := Py.lower (snd (os_path_splitext L (filename audio_file))) in
     let file_extension := if negb (Py.truthy file_extension) then ".wav" else file_extension in
     let! now := in_batch (call EvTime (fun h => Ret (time_time L h))) in
     let prefix := "batch_" +:+ pretty i +:+ "_" +:+ pretty (int_of_float now) +:+ "_" in
     let! (temp_fd, temp_file_path) := in_batch (mkstemp L file_extension prefix) in
     Eff.modify (fun f => MkBatchFrame (batch_world f) (results f)
                                       (batch_temp_files f ++ [temp_file_path])) ;;
     in_batch (call (EvWrite temp_fd (Z.of_nat (length content)))
                    (fun h => os_fdopen_write L h temp_fd content)) ;;
     let! result :=
       in_batch (transcribe_audio L temp_file_path (Some language) model_size true) in
     match result with
     | Some result =>
         results_append (MkBatchEntry true (Some (result, i, filename audio_file)) None None)
     | None =>
         results_append (MkBatchEntry false None (Some (filename audio_file))
                                      (Some "Transcription failed"))
     end ;;
     let! paths := Eff.gets batch_temp_files in
     Eff.for_each paths (fun temp_file => in_batch (safe_delete_file L temp_file) ;; Eff.ret tt))
    (fun e =>
       results_append (MkBatchEntry false None (Some (filename audio_file)) (Some (exn_msg e)))).

(** [enumerate(xs)], counting from [i]. *)
Fixpoint enumerate_from {A} (i : Z) (xs : list A) : list (Z * A) :=
  match xs with
  | [] => []
  | x :: rest => (i, x) :: enumerate_from (i + 1) rest
  end.

(** [sum(1 for r in results if r['success'])] *)
Definition count_successful (entries : list BatchEntry) : Z :=
  Z.of_nat (length (List.filter entry_success entries)).

(** The handler of [POST /batch-transcribe]. *)
Definition batch_transcribe (L : Lib) (audio_files : list UploadFile)
    (language model_size : string) : Eff.t World BatchResponse :=
  if 10 <? Z.of_nat (length audio_files) then
    Eff.ret (MkBatchResponse 400 false (Some "Too many files") "Maximum 10 files per batch"
                             [] None)
  else
    fun w =>
      let '(o, f) :=
        (Eff.for_each (enumerate_from 0 audio_files)
                      (fun item => batch_file L language model_size (fst item) (snd item)) ;;
         let! results := Eff.gets results in
         let successful := count_successful results in
         let total := Z.of_nat (length audio_files) in
         Eff.ret (MkBatchResponse 200 true None
                    ("Batch processing completed: " +:+ pretty successful +:+ "/" +:+
                     pretty total +:+ " successful")
                    results
                    (Some (MkBatchSummary total successful (total - successful)))))
          (MkBatchFrame w [] []) in
      (o, batch_world f).

(** ** [language_detector.py]: [detect_language_advanced] *)

(** [sorted(items, key=lambda x: x[1], reverse=True)]: descending by
    value; items of equal value keep their order. *)
Fixpoint insert_desc (x : string * Q) (sorted : list (string * Q)) : list (string * Q) :=
  match sorted with
  | [] => [x]
  | y :: rest => if Py.gt (snd y) (snd x) then y :: insert_desc x rest else x :: sorted
  end.

Definition sorted_desc (items : list (string * Q)) : list (string * Q) :=
  fold_right insert_desc [] items.

(** An index of a slice, brought into [0, n]. *)
Definition clamp_index (n i : Z) : Z :=
  if i <? 0 then Z.max (n + i) 0 else Z.min i n.

(** [xs[start:stop]] *)
Definition slice {A} (xs : list A) (start stop : Z) : list A :=
  let n := Z.of_nat (length xs) in
  let a := clamp_index n start in
  let b := clamp_index n stop in
  take (Z.to_nat (b - a)) (drop (Z.to_nat a) xs).

(** An entry of the result: a language with its confidence and level. *)
Record Candidate : Type := MkCandidate {
  candidate_language : string;
  candidate_confidence : Q;
  confidence_level : string
}.

(** The dictionary [detect_language_advanced] returns. *)
Record Detection : Type := MkDetection {
  primary : Candidate;
  alternatives : list Candidate
}.

(** [{'language': lang, 'confidence': conf, 'confidence_level': ...}] *)
Definition candidate_of (item : string * Q) : Outcome Candidate :=
  Py.and_then (LanguageDetector._get_confidence_level (snd item))
              (fun level => Ret (MkCandidate (fst item) (snd item) level)).

(** The loop that fills [result['alternatives']]. *)
Fixpoint candidates_of (items : list (string * Q)) : Outcome (list Candidate) :=
  match items with
  | [] => Ret []
  | item :: rest =>
      Py.and_then (candidate_of item)
        (fun c => Py.and_then (candidates_of rest) (fun cs => Ret (c :: cs)))
  end.

(** [LanguageDetector.detect_language_advanced]; [model] is the
    detector's [self.model]. *)
Definition detect_language_advanced (L : Lib) (model : Model) (audio_path : string) (top_k : Z)
  : Eff.t World (option Detection) :=
  Eff.try_except
    (let! audio := call (EvLibrosaLoad audio_path 16000 true)
                        (fun h => librosa_load L h audio_path) in
     let! audio := call EvPadOrTrim (fun _ => whisper_pad_or_trim L audio) in
     let! mel := call EvLogMel (fun _ => whisper_log_mel_spectrogram L audio) in
     let! mel := call (EvToDevice (model_device model))
                      (fun _ => tensor_to L mel (model_device model)) in
     let! probs := call (EvDetectLanguage model) (fun h => model_detect_language L h model mel) in
     let sorted_langs := sorted_desc probs in
     match sorted_langs with
     | [] => Eff.raise (MkExn "IndexError" "list index out of range")
     | first :: _ =>
         let! primary := Eff.lift (candidate_of first) in
         let! alternatives := Eff.lift (candidates_of (slice sorted_langs 1 top_k)) in
         Eff.ret (Some (MkDetection primary alternatives))
     end)
    (fun _ => Eff.ret None).

(** * Sample libraries and requests

    Concrete libraries on which the definitions above run: one on which
    every call succeeds, and variants on which a chosen call raises. *)

(** A [splitext] for plain file names: the extension starts at the last
    dot. *)
Fixpoint sample_splitext (name : string) : string * string :=
  match name with
  | EmptyString => ("", "")
  | String c t =>
      let (root, ext) := sample_splitext t in
      if Py.truthy ext then (String c root, ext)
      else if Ascii.eqb c "." then ("", name)
      else (String c root, "")
  end.

Definition sample_result : RawResult :=
  MkRawResult " peace be upon you "
    (Some [MkRawSegment 0.0%Q 1.5%Q " peace be " (Some (-0.5)%Q) (Some 0.1%Q);
           MkRawSegment 1.5%Q 2.0%Q "   " (Some (-3.0)%Q) None;
           MkRawSegment 2.0%Q 3.0%Q "upon you" (Some (-0.25)%Q) None])
    (Some "en").

Definition sample_probs : list (string * Q) := [("en", 0.2%Q); ("ar", 0.7%Q); ("id", 0.1%Q)].

Definition lib_with (load : list Event -> string -> string -> Outcome Model)
    (unlink : list Event -> string -> Outcome unit) : Lib :=
  {| torch_cuda_is_available := false;
     whisper_load_model := load;
     librosa_load := fun _ _ => Ret [0.5%Q; 0.25%Q; (-0.5)%Q];
     librosa_normalize := fun audio => Ret audio;
     librosa_preemphasis := fun _ audio => Ret audio;
     librosa_trim := fun _ audio => Ret audio;
     whisper_pad_or_trim := fun audio => Ret audio;
     whisper_log_mel_spectrogram := fun audio => Ret (MkMel audio "cpu");
     tensor_to := fun mel device => Ret (MkMel (mel_frames mel) device);
     model_detect_language := fun _ _ _ => Ret sample_probs;
     model_transcribe := fun _ _ _ _ => Ret sample_result;
     time_time := fun h => inject_Z (1700000000 + Z.of_nat (length h));
     upload_read := fun _ file => Ret (upload_content file);
     os_path_splitext := sample_splitext;
     tempfile_mkstemp := fun h suffix prefix =>
       Ret (Z.of_nat (length h), "/tmp/" +:+ prefix +:+ pretty (Z.of_nat (length h)) +:+ suffix);
     os_fdopen_write := fun _ _ _ => Ret tt;
     pydub_from_file := fun _ path _ => Ret (MkAudioSegment 44100 2 path);
     pydub_export := fun _ _ _ => Ret tt;
     os_path_exists := fun _ _ => true;
     os_chmod := fun _ _ _ => Ret tt;
     os_unlink := unlink;
     format_2f := fun x => pretty (int_of_float x) +:+ ".00" |}.

(** Every call succeeds. *)
Definition sample_lib : Lib :=
  lib_with (fun _ name device => Ret (MkModel name device)) (fun _ _ => Ret tt).

(** The base model cannot be loaded; the others can. *)
Definition flaky_lib : Lib :=
  lib_with (fun _ name device =>
              if String.eqb name "base"
              then Raise (MkExn "RuntimeError" "checkpoint not found")
              else Ret (MkModel name device))
           (fun _ _ => Ret tt).

(** The server after [whisper_stt = WhisperSTT()]. *)
Definition boot (L : Lib) : World := snd (init_stt L (MkWorld fresh_stt [])).

Definition sample_upload : UploadFile :=
  MkUploadFile "clip.mp3" [Byte.x52; Byte.x49; Byte.x46; Byte.x46].

(** An upload one byte over the limit. *)
Definition big_upload : UploadFile :=
  MkUploadFile "long.wav" (repeat Byte.x00 (Z.to_nat (25 * 1024 * 1024 + 1))).

(** [L] with some of its calls replaced. *)
Definition lib_but (L : Lib)
    (read : option (list Event -> UploadFile -> Outcome (list Byte.byte)))
    (write : option (list Event -> Z -> list Byte.byte -> Outcome unit))
    (from_file : option (list Event -> string -> string -> Outcome AudioSegment))
    (present : option (list Event -> string -> bool))
    (detect : option (list Event -> Model -> Mel -> Outcome (list (string * Q))))
    (load : option (list Event -> string -> Outcome Audio)) : Lib :=
  {| torch_cuda_is_available := torch_cuda_is_available L;
     whisper_load_model := whisper_load_model L;
     librosa_load := default (librosa_load L) load;
     librosa_normalize := librosa_normalize L;
     librosa_preemphasis := librosa_preemphasis L;
     librosa_trim := librosa_trim L;
     whisper_pad_or_trim := whisper_pad_or_trim L;
     whisper_log_mel_spectrogram := whisper_log_mel_spectrogram L;
     tensor_to := tensor_to L;
     model_detect_language := default (model_detect_language L) detect;
     model_transcribe := model_transcribe L;
     time_time := time_time L;
     upload_read := default (upload_read L) read;
     os_path_splitext := os_path_splitext L;
     tempfile_mkstemp := tempfile_mkstemp L;
     os_fdopen_write := default (os_fdopen_write L) write;
     pydub_from_file := default (pydub_from_file L) from_file;
     pydub_export := pydub_export L;
     os_path_exists := default (os_path_exists L) present;
     os_chmod := os_chmod L;
     os_unlink := os_unlink L;
     format_2f := format_2f L |}.

(** No model can be loaded. *)
Definition deaf_lib : Lib :=
  lib_with (fun _ _ _ => Raise (MkExn "RuntimeError" "checkpoint not found")) (fun _ _ => Ret tt).

(** Files cannot be removed: they are in use. *)
Definition stubborn_lib : Lib :=
  lib_with (fun _ name device => Ret (MkModel name device))
           (fun _ _ => Raise (MkExn "PermissionError" "file is in use")).

(** Files cannot be removed: the disk fails. *)
Definition failing_disk_lib : Lib :=
  lib_with (fun _ name device => Ret (MkModel name device))
           (fun _ _ => Raise (MkExn "OSError" "input/output error")).

(** The temporary file cannot be written. *)
Definition full_disk_lib : Lib :=
  lib_but sample_lib None
          (Some (fun _ _ _ => Raise (MkExn "OSError" "no space left on device")))
          None None None None.

(** The upload cannot be read. *)
Definition broken_upload_lib : Lib :=
  lib_but sample_lib (Some (fun _ _ => Raise (MkExn "RuntimeError" "connection lost")))
          None None None None None.

(** The temporary files are gone before they are deleted. *)
Definition vanishing_lib : Lib :=
  lib_but sample_lib None None None (Some (fun _ _ => false)) None None.

(** The upload is no audio that can be decoded. *)
Definition corrupt_audio_lib : Lib :=
  lib_but sample_lib None None
          (Some (fun _ _ _ => Raise (MkExn "CouldntDecodeError" "decoding failed")))
          None None None.

(** The model returns no probabilities. *)
Definition mute_lib : Lib :=
  lib_but sample_lib None None None None (Some (fun _ _ _ => Ret [])) None.

(** The settings of the GPU a sample [/health] runs on. *)
Definition sample_cuda : TorchCuda :=
  MkTorchCuda 1 (fun _ => "sample GPU") (fun _ => 0).

(** A WAV upload. *)
Definition wav_upload : UploadFile :=
  MkUploadFile "clip.wav" [Byte.x52; Byte.x49; Byte.x46; Byte.x46].

(** * Specification vocabulary *)

(** What a computation added to the trace. *)
Definition new_events (w w' : World) : list Event := drop (length (trace w)) (trace w').

(** The paths of the files [mkstemp] created, in order. *)
Definition created_files (evs : list Event) : list string :=
  flat_map (fun ev => match ev with EvMkstemp _ _ (Some path) => [path] | _ => [] end) evs.

(** The arguments of the calls of [safe_delete_file], in order. *)
Definition safe_deleted (evs : list Event) : list string :=
  flat_map (fun ev => match ev with EvSafeDelete path => [path] | _ => [] end) evs.

(** The option dictionaries passed to [model.transcribe], in order. *)
Definition transcribe_calls (evs : list Event) : list (gmap string PyVal) :=
  flat_map (fun ev => match ev with EvTranscribe _ _ options => [options] | _ => [] end) evs.

(** The names passed to [whisper.load_model], in order. *)
Definition load_calls (evs : list Event) : list string :=
  flat_map (fun ev => match ev with EvLoadModel name _ => [name] | _ => [] end) evs.

(** [w'] is [w] after calls that all satisfy [P]. *)
Definition extends (P : Event -> Prop) (w w' : World) : Prop :=
  exists evs, trace w' = trace w ++ evs /\ Forall P evs.

(** The object [whisper_stt] is as it was. *)
Definition same_stt (w w' : World) : Prop := whisper_stt w' = whisper_stt w.

(** The keys of [self.models] are the twelve names of [__init__]. *)
Definition keys_ok (st : WhisperSTT) : Prop :=
  forall name, in_dict name (self_models st) = in_list name model_names.

(** The handler's frame after calls that create no file and delete none,
    or after a file was created and its path appended to [temp_files]. *)
Definition tracked (f f' : Frame) : Prop :=
  exists evs,
    trace (frame_world f') = trace (frame_world f) ++ evs /\
    temp_files f' = temp_files f ++ created_files evs /\
    safe_deleted evs = [].

(** Events of the handler's body that neither create nor delete a file. *)
Definition plain_event (ev : Event) : Prop :=
  created_files [ev] = [] /\ safe_deleted [ev] = [].

(** The sum of a list of floats. *)
Definition Qsum (xs : list Q) : Q := fold_right Qplus 0%Q xs.

(** A raw segment as the loop of [transcribe_audio] copies it. *)
Definition to_segment (segment : RawSegment) : Segment :=
  MkSegment (raw_start segment) (raw_end segment) (Py.strip (raw_text segment))
            (default 0.0%Q (raw_avg_logprob segment))
            (default 0.0%Q (raw_no_speech_prob segment)).

(** A raw segment whose stripped text is not empty. *)
Definition has_text (segment : RawSegment) : bool := Py.truthy (Py.strip (raw_text segment)).

(** Every run of [m] takes a state to an [R]-related one, whether it
    returns or raises. *)
Definition steps {S A} (R : S -> S -> Prop) (m : Eff.t S A) : Prop :=
  forall s, R s (snd (m s)).

(** The calls of [_load_model] and [detect_language]. *)
Definition quiet (ev : Event) : Prop :=
  match ev with
  | EvLoadModel _ _ | EvPadOrTrim | EvLogMel | EvToDevice _ | EvDetectLanguage _ => True
  | _ => False
  end.

(** The calls of [preprocess_audio] in the mode [preserve_full_audio]. *)
Definition preprocess_event (preserve_full_audio : bool) (ev : Event) : Prop :=
  match ev with
  | EvLibrosaLoad _ sr mono => sr = 16000 /\ mono = true
  | EvNormalize => True
  | EvPreemphasis coef => coef = if preserve_full_audio then Some 0.95%Q else None
  | EvTrim top_db => top_db = if preserve_full_audio then 10 else 20
  | _ => False
  end.

(** [lang] came out of a call of [detect_language]. *)
Definition detected_by (L : Lib) (lang : string) : Prop :=
  exists audio w confidence w', detect_language L audio w = (Ret (lang, confidence), w').

(** The language [transcribe_audio] works with: the one passed, or the
    one detected when none or ['auto'] was passed. *)
Definition effective_language (L : Lib) (language : option string) (lang : string) : Prop :=
  match language with
  | Some l => if String.eqb l "auto" then detected_by L lang else lang = l
  | None => detected_by L lang
  end.

(** The calls of [transcribe_audio]: those of [_load_model] and
    [detect_language], those of [preprocess_audio] in the mode of
    [preserve_full], and [model.transcribe] with the options of the
    effective language and the requested size. *)
Definition transcribe_event (L : Lib) (path : string) (language : option string)
    (model_size : string) (high_accuracy : bool) (ev : Event) : Prop :=
  match ev with
  | EvTranscribe _ _ options =>
      exists lang, effective_language L language lang /\
                   options = decode_options L lang model_size high_accuracy
  | _ => quiet ev \/ preprocess_event (preserve_full path language) ev
  end.

(** The library calls the handler's body makes itself, [mkstemp] and the
    [os.close] after it apart. *)
Definition direct_call (ev : Event) : Prop :=
  match ev with
  | EvRead _ | EvTime | EvWrite _ _ | EvFromFile _ _ | EvExport _ | EvGcCollect | EvSleep _ => True
  | _ => False
  end.

(** The library calls inside [safe_delete_file]. *)
Definition delete_call (ev : Event) : Prop :=
  match ev with
  | EvExists _ | EvChmod _ _ | EvUnlink _ | EvSleep _ | EvGcCollect => True
  | _ => False
  end.

(** The handler's own library calls: everything it does outside
    [transcribe_audio]. *)
Definition own_call (ev : Event) : Prop :=
  match ev with
  | EvRead _ | EvTime | EvWrite _ _ | EvClose _ | EvFromFile _ _ | EvExport _ | EvGcCollect
  | EvSleep _ | EvMkstemp _ _ _ | EvSafeDelete _ | EvExists _ | EvChmod _ _ | EvUnlink _ => True
  | _ => False
  end.

(** A relation between worlds, read between the worlds of two frames. *)
Definition on_world (R : World -> World -> Prop) (f f' : Frame) : Prop :=
  R (frame_world f) (frame_world f').

(** A request for the current model size leaves [whisper_stt] alone. *)
Definition stays (model_size : string) (w w' : World) : Prop :=
  self_model_size (whisper_stt w) = model_size -> whisper_stt w' = whisper_stt w.

(** The calls of a request served with the model size ['base']. *)
Definition served_as_base (L : Lib) (high_accuracy : bool) (ev : Event) : Prop :=
  match ev with
  | EvTranscribe _ _ options =>
      exists lang, options = decode_options L lang "base" high_accuracy
  | _ => True
  end.

(** The value a computation returns, when it returns, satisfies [Q]. *)
Definition returns {S A} (Q : A -> Prop) (m : Eff.t S A) : Prop :=
  forall s a s', m s = (Ret a, s') -> Q a.

(** The arguments of the calls of [os.unlink], [os.path.exists] and
    [time.sleep], in order. *)
Definition unlink_calls (evs : list Event) : list string :=
  flat_map (fun ev => match ev with EvUnlink path => [path] | _ => [] end) evs.

Definition exists_calls (evs : list Event) : list string :=
  flat_map (fun ev => match ev with EvExists path => [path] | _ => [] end) evs.

Definition sleeps (evs : list Event) : list Q :=
  flat_map (fun ev => match ev with EvSleep seconds => [seconds] | _ => [] end) evs.

(** The models passed to [model.detect_language], in order. *)
Definition detect_calls (evs : list Event) : list Model :=
  flat_map (fun ev => match ev with EvDetectLanguage m => [m] | _ => [] end) evs.

(** The selected model is the one [self.models] holds under the
    selected size. *)
Definition coherent (st : WhisperSTT) : Prop :=
  self_models st !! self_model_size st = Some (self_current_model st).

(** The names [_load_model] passes to [whisper.load_model], in order,
    when it goes for [key] and every load raises. *)
Definition load_plan (key : string) : list string :=
  key :: List.filter (fun fallback => negb (String.eqb fallback key)) ["base"; "tiny"; "small"].

(** A language was passed, and it is not ['auto']. *)
Definition explicit_language (language : option string) : Prop :=
  match language with
  | Some l => String.eqb l "auto" = false
  | None => False
  end.

(** The calls of [transcribe_audio] before [model.transcribe]: no
    transcription, and no detection when the language is explicit. *)
Definition before_transcribe (language : option string) (ev : Event) : Prop :=
  transcribe_calls [ev] = [] /\ (explicit_language language -> detect_calls [ev] = []).

(** The calls of [_load_model]. *)
Definition load_event (ev : Event) : Prop :=
  match ev with EvLoadModel _ _ => True | _ => False end.

(** Calls that load no model. *)
Definition no_load (ev : Event) : Prop := load_calls [ev] = [].

(** Every model asked of [whisper.load_model] is one of the twelve. *)
Definition known_loads (evs : list Event) : Prop :=
  Forall (fun name => in_list name model_names = true) (load_calls evs).

(** The keys of [self.models] are the twelve model names, and the
    selected model is the one stored under the selected size. *)
Definition sound (st : WhisperSTT) : Prop := keys_ok st /\ coherent st.

(** [w'] is [w] after some calls; if [w] was sound, so is [w'], and the
    calls loaded known models only. *)
Definition keeps_sound (w w' : World) : Prop :=
  exists evs,
    trace w' = trace w ++ evs /\
    (sound (whisper_stt w) -> sound (whisper_stt w') /\ known_loads evs).

(** A relation between worlds, read between the worlds of two frames of
    [batch_transcribe]. *)
Definition on_batch (R : World -> World -> Prop) (f f' : BatchFrame) : Prop :=
  R (batch_world f) (batch_world f').

(** A request to the server. *)
Inductive Request : Type :=
| Transcribe (req : TranscribeRequest)
| BatchTranscribe (audio_files : list UploadFile) (language model_size : string)
| HealthCheck (T : TorchCuda).

(** The world after the server handled the request [r] in the world [w]. *)
Definition serve (L : Lib) (r : Request) (w : World) : World :=
  match r with
  | Transcribe req => snd (transcribe_endpoint L req w)
  | BatchTranscribe audio_files language model_size =>
      snd (batch_transcribe L audio_files language model_size w)
  | HealthCheck T => snd (health_check L T w)
  end.

(** The world after the server started and handled the requests [rs],
    one after the other. *)
Definition served (L : Lib) (rs : list Request) : World :=
  fold_left (fun w r => serve L r w) rs (boot L).

(** The entry of [results] is about the file of index [i]: a success
    carries the index and the name with the result, a failure the name
    and an error. *)
Definition entry_of (i : Z) (audio_file : UploadFile) (entry : BatchEntry) : Prop :=
  (entry_success entry = true /\
   (exists er, entry_result entry = Some (er, i, filename audio_file)) /\
   entry_filename entry = None /\ entry_error entry = None) \/
  (entry_success entry = false /\ entry_result entry = None /\
   entry_filename entry = Some (filename audio_file) /\ entry_error entry <> None).

(** Calls that ask for no language detection. *)
Definition no_detect (ev : Event) : Prop := detect_calls [ev] = [].

(** In the order of [sorted(..., reverse=True)]: [a] may come before [b]. *)
Definition desc (a b : string * Q) : Prop := (snd b <= snd a)%Q.

(** The language and the confidence of a candidate. *)
Definition pair_of (c : Candidate) : string * Q :=
  (candidate_language c, candidate_confidence c).

(** The level a candidate carries is the level of its confidence. *)
Definition levelled (c : Candidate) : Prop :=
  LanguageDetector._get_confidence_level (candidate_confidence c) = Ret (confidence_level c).

(** * Reasoning about computations *)

Section Steps.

Context {S : Type} (R : S -> S -> Prop) (R_refl : forall s, R s s)
        (R_trans : forall s1 s2 s3, R s1 s2 -> R s2 s3 -> R s1 s3).

Lemma steps_ret {A} (a : A) : steps R (Eff.ret a).
Proof. intros s. apply R_refl. Qed.

Lemma steps_raise {A} (e : PyExn) : steps R (@Eff.raise S A e).
Proof. intros s. apply R_refl. Qed.

Lemma steps_lift {A} (o : Outcome A) : steps R (Eff.lift o).
Proof. intros s. apply R_refl. Qed.

Lemma steps_gets {A} (f : S -> A) : steps R (Eff.gets f).
Proof. intros s. apply R_refl. Qed.

(** In [let! a := m in k a] the continuation runs on a value [m]
    returned. *)
Lemma steps_bind {A B} (m : Eff.t S A) (k : A -> Eff.t S B) :
  steps R m ->
  (forall a, (exists s s', m s = (Ret a, s')) -> steps R (k a)) ->
  steps R (Eff.bind m k).
Proof.
  intros Hm Hk s. unfold Eff.bind. specialize (Hm s).
  destruct (m s) as [[a|e] s1] eqn:E; simpl in *; [|assumption].
  eapply R_trans; [eassumption|]. apply Hk. eauto.
Qed.

Lemma steps_try_except {A} (m : Eff.t S A) (h : PyExn -> Eff.t S A) :
  steps R m -> (forall e, steps R (h e)) -> steps R (Eff.try_except m h).
Proof.
  intros Hm Hh s. unfold Eff.try_except. specialize (Hm s).
  destruct (m s) as [[a|e] s1]; simpl in *; [assumption|].
  eapply R_trans; [eassumption|apply Hh].
Qed.

Lemma steps_attempt {A} (m : Eff.t S A) : steps R m -> steps R (Eff.attempt m).
Proof.
  intros Hm s. unfold Eff.attempt. specialize (Hm s).
  destruct (m s) as [o s1]; assumption.
Qed.

Lemma steps_try_finally {A} (m : Eff.t S A) (fin : Eff.t S unit) :
  steps R m -> steps R fin -> steps R (Eff.try_finally m fin).
Proof.
  intros Hm Hf s. unfold Eff.try_finally. specialize (Hm s).
  destruct (m s) as [o s1]. specialize (Hf s1). simpl in Hm.
  destruct (fin s1) as [[u|e] s2]; simpl in *; eapply R_trans; eassumption.
Qed.

Lemma steps_for_each {A} (xs : list A) (body : A -> Eff.t S unit) :
  (forall x, steps R (body x)) -> steps R (Eff.for_each xs body).
Proof.
  intros Hb. induction xs as [|x xs IH]; simpl.
  - apply steps_ret.
  - apply steps_bind; [apply Hb|intros _ _; exact IH].
Qed.

End Steps.

Lemma returns_ret {S A} (Q : A -> Prop) (a : A) : Q a -> returns Q (@Eff.ret S A a).
Proof. intros H s a' s' E. inversion E; subst; assumption. Qed.

Lemma returns_bind {S A B} (Q : B -> Prop) (m : Eff.t S A) (k : A -> Eff.t S B) :
  (forall a, (exists s s', m s = (Ret a, s')) -> returns Q (k a)) -> returns Q (Eff.bind m k).
Proof.
  intros Hk s b s' E. unfold Eff.bind in E.
  destruct (m s) as [[a|e] s1] eqn:Em; [eapply Hk; eauto|discriminate].
Qed.

Lemma returns_try_except {S A} (Q : A -> Prop) (m : Eff.t S A) (h : PyExn -> Eff.t S A) :
  returns Q m -> (forall e, returns Q (h e)) -> returns Q (Eff.try_except m h).
Proof.
  intros Hm Hh s a s' E. unfold Eff.try_except in E.
  destruct (m s) as [[a0|e] s1] eqn:Em.
  - inversion E; subst. eapply Hm; eassumption.
  - eapply Hh; eassumption.
Qed.

(** ** Traces *)

Lemma created_files_app (a b : list Event) :
  created_files (a ++ b) = created_files a ++ created_files b.
Proof. apply flat_map_app. Qed.

Lemma safe_deleted_app (a b : list Event) :
  safe_deleted (a ++ b) = safe_deleted a ++ safe_deleted b.
Proof. apply flat_map_app. Qed.

Lemma transcribe_calls_app (a b : list Event) :
  transcribe_calls (a ++ b) = transcribe_calls a ++ transcribe_calls b.
Proof. apply flat_map_app. Qed.

Lemma load_calls_app (a b : list Event) :
  load_calls (a ++ b) = load_calls a ++ load_calls b.
Proof. apply flat_map_app. Qed.

Lemma new_events_app (w w' : World) (evs : list Event) :
  trace w' = trace w ++ evs -> new_events w w' = evs.
Proof. intros E. unfold new_events. rewrite E. apply drop_app_length. Qed.

Lemma extends_refl (P : Event -> Prop) (w : World) : extends P w w.
Proof. exists []. split; [symmetry; apply app_nil_r|constructor]. Qed.

Lemma extends_trans (P : Event -> Prop) (w1 w2 w3 : World) :
  extends P w1 w2 -> extends P w2 w3 -> extends P w1 w3.
Proof.
  intros (e1 & E1 & F1) (e2 & E2 & F2). exists (e1 ++ e2). split.
  - rewrite E2, E1. symmetry. apply app_assoc.
  - apply Forall_app; split; assumption.
Qed.

Lemma extends_impl (P Q : Event -> Prop) (w w' : World) :
  (forall ev, P ev -> Q ev) -> extends P w w' -> extends Q w w'.
Proof.
  intros H (evs & E & F). exists evs. split; [assumption|].
  eapply Forall_impl; eassumption.
Qed.

Lemma extends_new_events (P : Event -> Prop) (w w' : World) :
  extends P w w' -> Forall P (new_events w w').
Proof. intros (evs & E & F). rewrite (new_events_app _ _ _ E). assumption. Qed.

Lemma same_stt_refl (w : World) : same_stt w w.
Proof. reflexivity. Qed.

Lemma same_stt_trans (w1 w2 w3 : World) : same_stt w1 w2 -> same_stt w2 w3 -> same_stt w1 w3.
Proof. unfold same_stt. congruence. Qed.

Lemma call_extends {A} (P : Event -> Prop) (ev : Event) (f : list Event -> Outcome A) :
  P ev -> steps (extends P) (call ev f).
Proof. intros H w. exists [ev]. split; [reflexivity|]. constructor; [assumption|constructor]. Qed.

Lemma set_stt_extends (P : Event -> Prop) (f : WhisperSTT -> WhisperSTT) :
  steps (extends P) (set_stt f).
Proof. intros w. exists []. split; [symmetry; apply app_nil_r|constructor]. Qed.

Lemma call_same_stt {A} (ev : Event) (f : list Event -> Outcome A) : steps same_stt (call ev f).
Proof. intros w. reflexivity. Qed.

(** One step of a proof that a computation built from [let!], [try] and
    branches stays within a relation; [leaf] closes the calls. *)
Ltac steps_step refl trans leaf :=
  first
    [ apply (steps_ret _ refl)
    | apply (steps_raise _ refl)
    | apply (steps_lift _ refl)
    | apply (steps_gets _ refl)
    | apply (steps_bind _ trans); [|intros ? ?]
    | apply (steps_try_except _ trans); [|intros ?]
    | apply steps_attempt
    | apply (steps_for_each _ refl trans); intros ?
    | match goal with
      | |- steps _ (if ?b then _ else _) => destruct b
      | |- steps _ (match ?x with _ => _ end) => destruct x
      end
    | leaf ].

Ltac steps_all refl trans leaf := repeat (steps_step refl trans leaf).

Section QuietCalls.

Context (P : Event -> Prop) (P_quiet : forall ev, quiet ev -> P ev).

Ltac quiet_leaf :=
  first [ apply call_extends; apply P_quiet; exact I
        | apply set_stt_extends ].

Ltac quiet_steps := steps_all (extends_refl P) (extends_trans P) quiet_leaf.

Lemma load_into_extends (L : Lib) (name device : string) :
  steps (extends P) (load_into L name device).
Proof. unfold load_into. quiet_steps. Qed.

Lemma load_fallback_extends (L : Lib) (device model_size : string) (names : list string) :
  steps (extends P) (load_fallback L device model_size names).
Proof.
  induction names as [|n names IH]; simpl.
  - quiet_steps.
  - destruct (negb (String.eqb n model_size)); [|exact IH].
    quiet_steps; first [apply load_into_extends | exact IH].
Qed.

Lemma _load_model_extends (L : Lib) (model_size : string) :
  steps (extends P) (_load_model L model_size).
Proof.
  unfold _load_model, get_stt.
  quiet_steps; first [apply load_into_extends | apply load_fallback_extends].
Qed.

Lemma the_current_model_extends : steps (extends P) the_current_model.
Proof. unfold the_current_model, get_stt. quiet_steps. Qed.

Lemma detect_language_extends (L : Lib) (audio : Audio) :
  steps (extends P) (detect_language L audio).
Proof.
  unfold detect_language.
  quiet_steps; apply the_current_model_extends.
Qed.

End QuietCalls.

Lemma preprocess_audio_extends (L : Lib) (path : string) (flag : bool) :
  steps (extends (preprocess_event flag)) (preprocess_audio L path flag).
Proof.
  pose proof (extends_refl (preprocess_event flag)) as Hr.
  pose proof (extends_trans (preprocess_event flag)) as Ht.
  unfold preprocess_audio.
  destruct flag;
    steps_all Hr Ht ltac:(apply call_extends; simpl; auto).
Qed.

(** ** What [transcribe_audio] passes to the model *)

Lemma quiet_transcribe_event (L : Lib) (path : string) (language : option string)
    (model_size : string) (high_accuracy : bool) (ev : Event) :
  quiet ev -> transcribe_event L path language model_size high_accuracy ev.
Proof. destruct ev; simpl; tauto. Qed.

Lemma preprocess_transcribe_event (L : Lib) (path : string) (language : option string)
    (model_size : string) (high_accuracy : bool) (ev : Event) :
  preprocess_event (preserve_full path language) ev ->
  transcribe_event L path language model_size high_accuracy ev.
Proof. destruct ev; simpl; tauto. Qed.

Lemma transcribe_audio_extends (L : Lib) (path : string) (language : option string)
    (model_size : string) (high_accuracy : bool) :
  steps (extends (transcribe_event L path language model_size high_accuracy))
        (transcribe_audio L path language model_size high_accuracy).
Proof.
  set (P := transcribe_event L path language model_size high_accuracy).
  assert (HP : forall ev, quiet ev -> P ev) by apply quiet_transcribe_event.
  pose proof (extends_refl P) as Hr. pose proof (extends_trans P) as Ht.
  unfold transcribe_audio.
  apply (steps_try_except _ Ht); [|intros e; apply (steps_ret _ Hr)].
  apply (steps_bind _ Ht); [apply (steps_gets _ Hr)|intros st _].
  apply (steps_bind _ Ht).
  { destruct (negb _); [apply _load_model_extends; exact HP|apply (steps_ret _ Hr)]. }
  intros loaded _. destruct loaded; simpl; [|apply (steps_ret _ Hr)].
  unfold transcribe_loaded.
  apply (steps_bind _ Ht).
  { intros w0. eapply extends_impl; [apply preprocess_transcribe_event|].
    apply preprocess_audio_extends. }
  intros [audio|] _; [|apply (steps_ret _ Hr)].
  apply (steps_bind _ Ht).
  { assert (Hd : steps (extends P)
                   (let! (detected, confidence) := detect_language L audio in
                    Eff.ret (detected, Some detected, confidence))).
    { apply (steps_bind _ Ht); [apply detect_language_extends; exact HP|].
      intros [d c] _. apply (steps_ret _ Hr). }
    destruct language as [l|]; [destruct (String.eqb l "auto")|]; try exact Hd.
    apply (steps_ret _ Hr). }
  intros [[lang det] conf] (s & s' & Hex).
  assert (Hlang : effective_language L language lang).
  { assert (Hd : forall s s',
               (let! (detected, confidence) := detect_language L audio in
                Eff.ret (detected, Some detected, confidence)) s = (Ret (lang, det, conf), s') ->
               detected_by L lang).
    { intros s0 s0' E. unfold Eff.bind in E.
      destruct (detect_language L audio s0) as [[[d c]|e] s1] eqn:Ed; [|discriminate].
      inversion E; subst. exists audio, s0, conf, s0'. exact Ed. }
    unfold effective_language.
    destruct language as [l|]; [destruct (String.eqb l "auto")|]; eauto.
    inversion Hex; reflexivity. }
  apply (steps_bind _ Ht); [apply the_current_model_extends; exact HP|intros m _].
  apply (steps_bind _ Ht).
  - apply call_extends. simpl. exists lang. split; [exact Hlang|reflexivity].
  - intros result _. apply (steps_bind _ Ht); [apply (steps_lift _ Hr)|].
    intros er _. apply (steps_ret _ Hr).
Qed.

(** ** Decoding options *)

Lemma in_list_elem_of (x : string) (xs : list string) : in_list x xs = true <-> x ∈ xs.
Proof.
  unfold in_list. rewrite existsb_exists. split.
  - intros (y & Hy & E). apply String.eqb_eq in E. subst. apply list_elem_of_In. exact Hy.
  - intros H. exists x. split; [apply list_elem_of_In; exact H|apply String.eqb_refl].
Qed.

Lemma in_list_not_elem_of (x : string) (xs : list string) : in_list x xs = false <-> x ∉ xs.
Proof.
  rewrite <- in_list_elem_of. destruct (in_list x xs); split; intros; congruence.
Qed.

(** The entries the branch on [model_size] writes, whatever [base] holds. *)
Lemma tier_values (base : gmap string PyVal) (model_size : string) :
  let tier := tier_options base model_size in
  (model_size ∈ large_models ->
     tier !! "beam_size" = Some (VInt 5) /\ tier !! "best_of" = Some (VInt 5) /\
     tier !! "patience" = Some (VFloat 2.0%Q) /\
     tier !! "no_speech_threshold" = Some (VFloat 0.3%Q)) /\
  (model_size ∈ medium_models ->
     tier !! "beam_size" = Some (VInt 3) /\ tier !! "best_of" = Some (VInt 3) /\
     tier !! "patience" = Some (VFloat 1.5%Q) /\
     tier !! "no_speech_threshold" = Some (VFloat 0.4%Q)) /\
  (model_size ∉ large_models -> model_size ∉ medium_models ->
     tier !! "beam_size" = Some (VInt 1) /\ tier !! "best_of" = Some (VInt 1) /\
     tier !! "patience" = Some (VFloat 1.0%Q) /\
     tier !! "no_speech_threshold" = Some (VFloat 0.5%Q)) /\
  tier !! "compression_ratio_threshold" = Some (VFloat 2.4%Q) /\
  tier !! "logprob_threshold" = Some (VFloat (-1.0)%Q).
Proof.
  assert (Hlm : forall x, x ∈ large_models -> x ∈ medium_models -> False).
  { intros x H1 H2. apply in_list_elem_of in H1. apply in_list_elem_of in H2.
    unfold in_list, large_models, medium_models in *. simpl in *.
    repeat match goal with
           | H : (String.eqb ?a ?b || _) = true |- _ =>
               destruct (String.eqb_spec a b); [subst; discriminate|simpl in H]
           end; discriminate. }
  cbv zeta. unfold tier_options.
  destruct (in_list model_size large_models) eqn:El.
  - apply in_list_elem_of in El.
    repeat split; intros; try (exfalso; eauto; fail);
      unfold dict_extend; simpl; simplify_map_eq; reflexivity.
  - apply in_list_not_elem_of in El.
    destruct (in_list model_size medium_models) eqn:Em.
    + apply in_list_elem_of in Em.
      repeat split; intros; try (exfalso; eauto; fail);
        unfold dict_extend; simpl; simplify_map_eq; reflexivity.
    + apply in_list_not_elem_of in Em.
      repeat split; intros; try (exfalso; eauto; fail);
        unfold dict_extend; simpl; simplify_map_eq; reflexivity.
Qed.

Lemma transcribe_audio_options (L : Lib) (path : string) (language : option string)
    (model_size : string) (high_accuracy : bool) (w : World) (i : nat)
    (m : Model) (audio : Audio) (options : gmap string PyVal) :
  new_events w (snd (transcribe_audio L path language model_size high_accuracy w)) !! i
    = Some (EvTranscribe m audio options) ->
  exists lang, effective_language L language lang /\
               options = decode_options L lang model_size high_accuracy.
Proof.
  intros Hi.
  pose proof (extends_new_events _ _ _
                (transcribe_audio_extends L path language model_size high_accuracy w)) as HF.
  exact (Forall_lookup_1 _ _ _ _ HF Hi).
Qed.


(** The adjustments for the language, whatever [options] held before. *)
Lemma language_adjust_values (lang : string) (tier : gmap string PyVal) :
  let options := language_adjust lang tier in
  (lang = "ar" ->
     options !! "no_speech_threshold" = Some (VFloat 0.2%Q) /\
     options !! "compression_ratio_threshold" = Some (VFloat 3.0%Q) /\
     options !! "logprob_threshold" = Some (VFloat (-1.2)%Q)) /\
  (lang = "id" ->
     options !! "no_speech_threshold" = Some (VFloat 0.3%Q) /\
     options !! "compression_ratio_threshold" = Some (VFloat 2.8%Q) /\
     options !! "logprob_threshold" = tier !! "logprob_threshold") /\
  (lang <> "ar" -> lang <> "id" -> options = tier).
Proof.
  cbv zeta. unfold language_adjust. repeat split.
  - subst. simpl. simplify_map_eq. reflexivity.
  - subst. simpl. simplify_map_eq. reflexivity.
  - subst. simpl. simplify_map_eq. reflexivity.
  - subst. simpl. simplify_map_eq. reflexivity.
  - subst. simpl. simplify_map_eq. reflexivity.
  - subst. simpl. simplify_map_eq. reflexivity.
  - intros Har Hid.
    destruct (String.eqb_spec lang "ar"); [contradiction|].
    destruct (String.eqb_spec lang "id"); [contradiction|]. reflexivity.
Qed.




(** ** [LanguageDetector._get_confidence_level] *)

Lemma _get_confidence_level_eq (confidence : Q) :
  LanguageDetector._get_confidence_level confidence =
  Ret (if Qle_bool 0.8 confidence then "high"
       else if Qle_bool 0.6 confidence then "medium"
       else if Qle_bool 0.4 confidence then "low"
       else "very_low").
Proof.
  unfold LanguageDetector._get_confidence_level.
  change (LanguageDetector.threshold "high") with (Ret 0.8%Q).
  change (LanguageDetector.threshold "medium") with (Ret 0.6%Q).
  change (LanguageDetector.threshold "low") with (Ret 0.4%Q).
  unfold Py.ge.
  destruct (Qle_bool 0.8 confidence); [reflexivity|].
  destruct (Qle_bool 0.6 confidence); [reflexivity|].
  destruct (Qle_bool 0.4 confidence); reflexivity.
Qed.

Lemma Qle_bool_false (x y : Q) : Qle_bool x y = false <-> (y < x)%Q.
Proof.
  split.
  - intros H. apply Qnot_le_lt. intros Hle. apply Qle_bool_iff in Hle. congruence.
  - intros H. destruct (Qle_bool x y) eqn:E; [|reflexivity].
    apply Qle_bool_iff in E. exfalso. apply (Qlt_not_le _ _ H E).
Qed.

(** C10. [_get_confidence_level] returns for every confidence one of the
    four levels: ['high'] exactly from 0.8 on, ['medium'] exactly on
    [0.6, 0.8), ['low'] exactly on [0.4, 0.6) and ['very_low'] exactly
    below 0.4; a larger confidence never gets a lower level. *)
Theorem confidence_level_classifies (confidence : Q) :
  let level_of := LanguageDetector._get_confidence_level in
  (exists level, level_of confidence = Ret level /\
                 level ∈ ["high"; "medium"; "low"; "very_low"]) /\
  (level_of confidence = Ret "high" <-> (0.8 <= confidence)%Q) /\
  (level_of confidence = Ret "medium" <-> (0.6 <= confidence)%Q /\ (confidence < 0.8)%Q) /\
  (level_of confidence = Ret "low" <-> (0.4 <= confidence)%Q /\ (confidence < 0.6)%Q) /\
  (level_of confidence = Ret "very_low" <-> (confidence < 0.4)%Q) /\
  (forall larger level level',
     (confidence <= larger)%Q ->
     level_of confidence = Ret level -> level_of larger = Ret level' ->
     LanguageDetector.level_rank level <= LanguageDetector.level_rank level').
Proof.
  cbv zeta. rewrite _get_confidence_level_eq.
  destruct (Qle_bool 0.8 confidence) eqn:E8;
    [apply Qle_bool_iff in E8|apply Qle_bool_false in E8];
    (destruct (Qle_bool 0.6 confidence) eqn:E6;
       [apply Qle_bool_iff in E6|apply Qle_bool_false in E6]);
    (destruct (Qle_bool 0.4 confidence) eqn:E4;
       [apply Qle_bool_iff in E4|apply Qle_bool_false in E4]);
    try (exfalso; lra).
  all: split; [eexists; split; [reflexivity|set_solver]|].
  all: repeat split; try (intros; lra); try discriminate; try (intros [? ?]; exfalso; lra);
    try (intros; exfalso; lra).
  all: intros larger level level' Hle Hl Hl'; rewrite _get_confidence_level_eq in Hl';
    inversion Hl; subst; clear Hl.
  all: destruct (Qle_bool 0.8 larger) eqn:L8;
    [apply Qle_bool_iff in L8|apply Qle_bool_false in L8];
    (destruct (Qle_bool 0.6 larger) eqn:L6;
       [apply Qle_bool_iff in L6|apply Qle_bool_false in L6]);
    (destruct (Qle_bool 0.4 larger) eqn:L4;
       [apply Qle_bool_iff in L4|apply Qle_bool_false in L4]);
    try (exfalso; lra); inversion Hl'; subst; vm_compute; congruence.
Qed.

Lemma confidence_level_classifies_witness :
  LanguageDetector._get_confidence_level 0.45%Q = Ret "low" /\
  LanguageDetector._get_confidence_level 0.8%Q = Ret "high" /\
  LanguageDetector.level_rank "low" <= LanguageDetector.level_rank "high".
Proof.
  destruct (confidence_level_classifies 0.45%Q) as (_ & _ & _ & Hlow & _ & Hmono).
  destruct (confidence_level_classifies 0.8%Q) as (_ & Hhigh & _).
  assert (H1 : LanguageDetector._get_confidence_level 0.45%Q = Ret "low")
    by (apply Hlow; split; [unfold Qle|unfold Qlt]; simpl; lia).
  assert (H2 : LanguageDetector._get_confidence_level 0.8%Q = Ret "high")
    by (apply Hhigh; unfold Qle; simpl; lia).
  split; [exact H1|split; [exact H2|]].
  apply (Hmono 0.8%Q "low" "high"); [unfold Qle; simpl; lia|exact H1|exact H2].
Defined.

(** ** Segment aggregation *)

Lemma truediv_inject_Z (x : Q) (n : Z) : n <> 0 -> Py.truediv x (inject_Z n) = Ret (x / inject_Z n)%Q.
Proof.
  intros Hn. unfold Py.truediv.
  destruct (Qeq_bool (inject_Z n) 0) eqn:E; [|reflexivity].
  apply Qeq_bool_iff in E. unfold Qeq in E. simpl in E. lia.
Qed.

(** The loop, from any state it may be in: the kept segments are added in
    order, the counter counts them and the total grows by their sum. *)
Lemma collect_segments_from (raw : list RawSegment) (segs : list Segment) (total : Q) (count : Z) :
  exists total',
    fold_left segment_step raw (segs, total, count) =
      (segs ++ map to_segment (List.filter has_text raw), total',
       count + Z.of_nat (length (List.filter has_text raw))) /\
    (total' == total + Qsum (map seg_confidence (map to_segment (List.filter has_text raw))))%Q.
Proof.
  revert segs total count. induction raw as [|seg raw IH]; intros segs total count; simpl.
  - exists total. split; [rewrite app_nil_r, Z.add_0_r; reflexivity|ring].
  - change (truthy (strip (raw_text seg))) with (has_text seg).
    destruct (has_text seg) eqn:Ht; simpl.
    + destruct (IH (segs ++ [to_segment seg])
                   (total + default 0.0%Q (raw_avg_logprob seg))%Q (count + 1)) as (t' & E & Hq).
      exists t'. split.
      * unfold to_segment at 1 in E. rewrite E. rewrite <- app_assoc. simpl.
        f_equal. lia.
      * rewrite Hq. simpl. ring.
    + apply IH.
Qed.

Lemma transcribe_audio_returns (L : Lib) (path : string) (language : option string)
    (model_size : string) (high_accuracy : bool) :
  returns
    (fun r => forall er, r = Some er ->
       exists h m audio options result lang detected confidence,
         model_transcribe L h m audio options = Ret result /\
         enhance_result result audio lang detected confidence model_size = Ret er)
    (transcribe_audio L path language model_size high_accuracy).
Proof.
  unfold transcribe_audio.
  apply returns_try_except; [|intros e; apply returns_ret; discriminate].
  apply returns_bind; intros st _.
  apply returns_bind; intros loaded _.
  destruct loaded; simpl; [|apply returns_ret; discriminate].
  unfold transcribe_loaded.
  apply returns_bind; intros [audio|] _; [|apply returns_ret; discriminate].
  apply returns_bind; intros [[lang det] conf] _.
  apply returns_bind; intros m _.
  apply returns_bind; intros result (w & w' & Hcall).
  apply returns_bind; intros er0 (s & s' & Her).
  apply returns_ret. intros er E. inversion E; subst.
  unfold call in Hcall. inversion Hcall. unfold Eff.lift in Her. inversion Her.
  eauto 10.
Qed.



(** ** Language detection *)

(** Runs the plumbing of a computation as far as the library calls. *)
Ltac eff_run :=
  cbv beta iota zeta delta
    [Eff.try_except Eff.bind Eff.ret Eff.raise Eff.gets Eff.modify Eff.lift Eff.attempt
     Eff.zoom Eff.try_finally call get_stt set_stt the_current_model in_world];
  cbn [whisper_stt trace self_current_model self_models self_model_size
       frame_world temp_files fst snd negb].

Lemma gt_false_le (x y : Q) : Py.gt x y = false -> (x <= y)%Q.
Proof.
  unfold Py.gt. intros H. apply negb_false_iff in H. apply Qle_bool_iff. exact H.
Qed.

Lemma gt_true_lt (x y : Q) : Py.gt x y = true -> (y < x)%Q.
Proof.
  unfold Py.gt. intros H. apply negb_true_iff in H. apply Qle_bool_false. exact H.
Qed.

(** The loop of [max] ends on a key whose value bounds the value of the
    key it started from and of every key it went through. *)
Lemma max_from_spec (f : string -> option Q) (keys : list string) (best : string) :
  (forall k, k ∈ best :: keys -> is_Some (f k)) ->
  exists r vr,
    max_from f best keys = Ret r /\ r ∈ best :: keys /\ f r = Some vr /\
    forall k vk, k ∈ best :: keys -> f k = Some vk -> (vk <= vr)%Q.
Proof.
  revert best. induction keys as [|k keys IH]; intros best Hdef.
  - destruct (Hdef best) as [vb Hb]; [left|].
    exists best, vb. simpl. repeat split; [left|exact Hb|].
    intros k vk Hk Hfk. apply list_elem_of_singleton in Hk. subst.
    rewrite Hb in Hfk. inversion Hfk. apply Qle_refl.
  - destruct (Hdef best) as [vb Hb]; [left|].
    destruct (Hdef k) as [vk Hk]; [right; left|].
    simpl. rewrite Hk, Hb. simpl.
    destruct (Py.gt vk vb) eqn:Egt.
    + apply gt_true_lt in Egt.
      destruct (IH k) as (r & vr & E & Hin & Hr & Hmax).
      { intros k' Hk'. apply Hdef. right. exact Hk'. }
      exists r, vr. repeat split; [exact E|right; exact Hin|exact Hr|].
      intros k' vk' Hk' Hfk'. apply elem_of_cons in Hk' as [->|Hk'].
      * rewrite Hb in Hfk'. inversion Hfk'; subst.
        apply Qle_trans with vk; [apply Qlt_le_weak; exact Egt|].
        apply (Hmax k); [left|exact Hk].
      * apply (Hmax k'); assumption.
    + apply gt_false_le in Egt.
      destruct (IH best) as (r & vr & E & Hin & Hr & Hmax).
      { intros k' Hk'. apply Hdef. apply elem_of_cons in Hk' as [->|Hk']; [left|right; right; exact Hk']. }
      exists r, vr. repeat split; [exact E| |exact Hr|].
      * apply elem_of_cons in Hin as [->|Hin]; [left|right; right; exact Hin].
      * intros k' vk' Hk' Hfk'. apply elem_of_cons in Hk' as [->|Hk'].
        { apply (Hmax best); [left|exact Hfk']. }
        apply elem_of_cons in Hk' as [->|Hk'].
        { rewrite Hk in Hfk'. inversion Hfk'; subst.
          apply Qle_trans with vb; [exact Egt|]. apply (Hmax best); [left|exact Hb]. }
        apply (Hmax k'); [right; exact Hk'|exact Hfk'].
Qed.

Lemma dict_get_elem_of (probs : list (string * Q)) (key : string) (v : Q) :
  dict_get probs key = Some v -> (key, v) ∈ probs.
Proof.
  induction probs as [|[k x] probs IH]; simpl; [discriminate|].
  destruct (String.eqb_spec k key).
  - intros E. inversion E; subst. left.
  - intros E. right. apply IH. exact E.
Qed.

Lemma elem_of_dict_get (probs : list (string * Q)) (key : string) (v : Q) :
  NoDup (map fst probs) -> (key, v) ∈ probs -> dict_get probs key = Some v.
Proof.
  induction probs as [|[k x] probs IH]; simpl; intros Hnd Hin.
  - apply elem_of_nil in Hin. contradiction.
  - apply NoDup_cons in Hnd as [Hk Hnd].
    apply elem_of_cons in Hin as [E|Hin].
    + inversion E; subst. rewrite String.eqb_refl. reflexivity.
    + destruct (String.eqb_spec k key); [|apply IH; assumption].
      subst. exfalso. apply Hk.
      apply list_elem_of_fmap. exists (key, v). split; [reflexivity|exact Hin].
Qed.

Lemma max_key_spec (probs : list (string * Q)) :
  NoDup (map fst probs) -> probs <> [] ->
  exists lang confidence,
    max_key probs = Ret lang /\ dict_get probs lang = Some confidence /\
    (lang, confidence) ∈ probs /\
    forall l c, (l, c) ∈ probs -> (c <= confidence)%Q.
Proof.
  intros Hnd Hne. unfold max_key.
  destruct probs as [|[k0 v0] rest] eqn:Ep; [congruence|]. rewrite <- Ep in *.
  assert (Hkeys : map fst probs = k0 :: map fst rest) by (rewrite Ep; reflexivity).
  destruct (max_from_spec (dict_get probs) (map fst rest) k0) as (r & vr & E & Hin & Hr & Hmax).
  { intros k Hk. rewrite <- Hkeys in Hk.
    apply list_elem_of_fmap in Hk as ([k' v'] & -> & Hk).
    exists v'. apply elem_of_dict_get; assumption. }
  exists r, vr. repeat split;
    [rewrite Hkeys; exact E|exact Hr|apply dict_get_elem_of; exact Hr|].
  intros l c Hlc. apply (Hmax l).
  - rewrite <- Hkeys. apply list_elem_of_fmap. exists (l, c). split; [reflexivity|exact Hlc].
  - apply elem_of_dict_get; assumption.
Qed.

(** C7. When the model returns a probability map (a dictionary with at
    least one language), [detect_language] returns a language of the map
    whose probability no other exceeds, with exactly the probability the
    map gives it, and does nothing else than the four library calls. *)
Theorem detect_language_selects_maximum (L : Lib) (audio : Audio) (w : World)
    (m : Model) (tensor : Audio) (mel0 mel : Mel) (probs : list (string * Q)) :
  self_current_model (whisper_stt w) = Some m ->
  whisper_pad_or_trim L audio = Ret tensor ->
  whisper_log_mel_spectrogram L tensor = Ret mel0 ->
  tensor_to L mel0 (model_device m) = Ret mel ->
  model_detect_language L (trace w ++ [EvPadOrTrim; EvLogMel; EvToDevice (model_device m)])
                        m mel = Ret probs ->
  NoDup (map fst probs) ->
  probs <> [] ->
  exists lang confidence,
    detect_language L audio w =
      (Ret (lang, confidence),
       MkWorld (whisper_stt w)
               (trace w ++ [EvPadOrTrim; EvLogMel; EvToDevice (model_device m);
                            EvDetectLanguage m])) /\
    (lang, confidence) ∈ probs /\
    dict_get probs lang = Some confidence /\
    forall l c, (l, c) ∈ probs -> (c <= confidence)%Q.
Proof.
  intros Hm Hpad Hmel0 Hmel Hprobs Hnd Hne.
  destruct (max_key_spec probs Hnd Hne) as (lang & conf & Emax & Eget & Hin & Hmax).
  exists lang, conf. repeat split; try assumption.
  destruct w as [st h]. simpl in Hm, Hprobs |- *. destruct st as [ms cur size].
  simpl in Hm |- *. subst cur.
  unfold detect_language. eff_run.
  rewrite Hpad. eff_run. rewrite Hmel0. eff_run. rewrite Hmel. eff_run.
  rewrite <- !app_assoc. simpl app. rewrite Hprobs. eff_run. rewrite Emax.
  unfold dict_item. rewrite Eget. reflexivity.
Qed.

Lemma detect_language_selects_maximum_witness :
  exists lang confidence,
    detect_language sample_lib [0.5%Q; 0.25%Q] (boot sample_lib) =
      (Ret (lang, confidence),
       MkWorld (whisper_stt (boot sample_lib))
               (trace (boot sample_lib)
                ++ [EvPadOrTrim; EvLogMel; EvToDevice "cpu";
                    EvDetectLanguage (MkModel "base" "cpu")])) /\
    (lang, confidence) ∈ sample_probs /\
    dict_get sample_probs lang = Some confidence /\
    forall l c, (l, c) ∈ sample_probs -> (c <= confidence)%Q.
Proof.
  apply (detect_language_selects_maximum sample_lib [0.5%Q; 0.25%Q] (boot sample_lib)
           (MkModel "base" "cpu") [0.5%Q; 0.25%Q] (MkMel [0.5%Q; 0.25%Q] "cpu")
           (MkMel [0.5%Q; 0.25%Q] "cpu") sample_probs).
  - reflexivity.
  - reflexivity.
  - reflexivity.
  - reflexivity.
  - reflexivity.
  - compute_done.
  - discriminate.
Defined.

(** ** Preprocessing *)

Lemma prefix_spec (a b : string) : String.prefix a b = true <-> exists c, b = a +:+ c.
Proof.
  revert b. induction a as [|x a IH]; intros b.
  - split; [intros _; exists b; reflexivity|intros _; destruct b; reflexivity].
  - destruct b as [|y b]; simpl.
    + split; [discriminate|intros [c E]; discriminate].
    + destruct (Ascii.ascii_dec x y) as [->|Hne].
      * rewrite IH. split; intros [c E]; exists c.
        -- simpl. rewrite E. reflexivity.
        -- simpl in E. inversion E. reflexivity.
      * split; [discriminate|intros [c E]; simpl in E; inversion E; subst; congruence].
Qed.

(** [sub in s] holds exactly when [s] is some text, [sub], and some text. *)
Lemma contains_spec (sub s : string) :
  Py.contains sub s = true <-> exists before after, s = before +:+ sub +:+ after.
Proof.
  induction s as [|c s IH].
  - change (Py.contains sub "") with (String.prefix sub "" || false).
    rewrite orb_false_r, prefix_spec. split.
    + intros [after E]. exists "", after. exact E.
    + intros (before & after & E). destruct before; [exists after; exact E|discriminate].
  - change (Py.contains sub (String c s))
      with (String.prefix sub (String c s) || Py.contains sub s).
    rewrite orb_true_iff, IH, prefix_spec. split.
    + intros [[after E]|(before & after & E)].
      * exists "", after. exact E.
      * exists (String c before), after. simpl. rewrite E. reflexivity.
    + intros (before & after & E). destruct before as [|c' before].
      * left. exists after. exact E.
      * right. exists before, after. simpl in E. inversion E. reflexivity.
Qed.

(** C4. [preserve_full] is true exactly when the requested language is
    ['ar'] or the lowercased path contains ['quran'] or ['surah'].  With
    the flag set, [preprocess_audio] loads, normalizes, applies preemphasis
    with coefficient 0.95 and trims at [top_db] 10, in that order; without
    it, it loads, normalizes, trims at [top_db] 20 and applies preemphasis
    with the default coefficient.  A call that raises ends the sequence;
    the waveform returned is the one the last call produced. *)
Theorem preprocessing_mode (L : Lib) (path : string) (language : option string) :
  (preserve_full path language = true <->
     language = Some "ar" \/
     (exists before after, Py.lower path = before +:+ "quran" +:+ after) \/
     (exists before after, Py.lower path = before +:+ "surah" +:+ after)) /\
  (forall (flag : bool) (w : World),
     let calls :=
       EvLibrosaLoad path 16000 true ::
       (if flag then [EvNormalize; EvPreemphasis (Some 0.95%Q); EvTrim 10]
        else [EvNormalize; EvTrim 20; EvPreemphasis None]) in
     let r := preprocess_audio L path flag w in
     (exists n, new_events w (snd r) = take n calls) /\
     (forall audio, fst r = Ret (Some audio) ->
        new_events w (snd r) = calls /\
        exists loaded normalized,
          librosa_load L (trace w) path = Ret loaded /\
          librosa_normalize L loaded = Ret normalized /\
          if flag then
            exists emphasized,
              librosa_preemphasis L (Some 0.95%Q) normalized = Ret emphasized /\
              librosa_trim L 10 emphasized = Ret audio
          else
            exists trimmed,
              librosa_trim L 20 normalized = Ret trimmed /\
              librosa_preemphasis L None trimmed = Ret audio)) /\
  (forall (model_size : string) (high_accuracy : bool) (w : World),
     Forall (fun ev =>
               match ev with
               | EvPreemphasis coef =>
                   coef = if preserve_full path language then Some 0.95%Q else None
               | EvTrim top_db => top_db = if preserve_full path language then 10 else 20
               | _ => True
               end)
            (new_events w (snd (transcribe_audio L path language model_size high_accuracy w)))).
Proof.
  split; [|split].
  - unfold preserve_full. rewrite !orb_true_iff, !contains_spec.
    split.
    + intros [[H|H]|H]; [left|right; left; exact H|right; right; exact H].
      destruct language as [l|]; [|discriminate]. apply String.eqb_eq in H. congruence.
    + intros [H|[H|H]]; [left; left|left; right; exact H|right; exact H].
      subst. reflexivity.
  - intros flag w calls r. subst calls r.
    destruct w as [st h]. unfold preprocess_audio, new_events.
    destruct flag; eff_run.
    + destruct (librosa_load L h path) as [a0|e0] eqn:?; eff_run;
        [|split; [exists 1%nat; rewrite drop_app_length; reflexivity|discriminate]].
      destruct (librosa_normalize L a0) as [a1|e1] eqn:?; eff_run;
        [|split; [exists 2%nat; rewrite <- !app_assoc, drop_app_length; reflexivity|discriminate]].
      destruct (librosa_preemphasis L (Some 0.95%Q) a1) as [a2|e2] eqn:?; eff_run;
        [|split; [exists 3%nat; rewrite <- !app_assoc, drop_app_length; reflexivity|discriminate]].
      destruct (librosa_trim L 10 a2) as [a3|e3] eqn:?; eff_run;
        [|split; [exists 4%nat; rewrite <- !app_assoc, drop_app_length; reflexivity|discriminate]].
      split; [exists 4%nat; rewrite <- !app_assoc, drop_app_length; reflexivity|].
      intros audio E. inversion E; subst.
      split; [rewrite <- !app_assoc, drop_app_length; reflexivity|eauto 10].
    + destruct (librosa_load L h path) as [a0|e0] eqn:?; eff_run;
        [|split; [exists 1%nat; rewrite drop_app_length; reflexivity|discriminate]].
      destruct (librosa_normalize L a0) as [a1|e1] eqn:?; eff_run;
        [|split; [exists 2%nat; rewrite <- !app_assoc, drop_app_length; reflexivity|discriminate]].
      destruct (librosa_trim L 20 a1) as [a2|e2] eqn:?; eff_run;
        [|split; [exists 3%nat; rewrite <- !app_assoc, drop_app_length; reflexivity|discriminate]].
      destruct (librosa_preemphasis L None a2) as [a3|e3] eqn:?; eff_run;
        [|split; [exists 4%nat; rewrite <- !app_assoc, drop_app_length; reflexivity|discriminate]].
      split; [exists 4%nat; rewrite <- !app_assoc, drop_app_length; reflexivity|].
      intros audio E. inversion E; subst.
      split; [rewrite <- !app_assoc, drop_app_length; reflexivity|eauto 10].
  - intros model_size high_accuracy w.
    eapply Forall_impl;
      [apply extends_new_events, (transcribe_audio_extends L path language model_size high_accuracy)|].
    intros ev Hev. destruct ev; simpl in *; try exact I.
    + destruct Hev as [[]|H]; exact H.
    + destruct Hev as [[]|H]; exact H.
Qed.

Lemma preprocessing_mode_witness :
  preserve_full "/tmp/Surah_Yasin.wav" (Some "en") = true /\
  new_events (boot sample_lib)
             (snd (preprocess_audio sample_lib "/tmp/Surah_Yasin.wav" true (boot sample_lib)))
  = [EvLibrosaLoad "/tmp/Surah_Yasin.wav" 16000 true; EvNormalize;
     EvPreemphasis (Some 0.95%Q); EvTrim 10].
Proof.
  split.
  - apply (proj1 (preprocessing_mode sample_lib "/tmp/Surah_Yasin.wav" (Some "en"))).
    right. right. exists "/tmp/", "_yasin.wav". reflexivity.
  - apply (proj2 (proj1 (proj2 (preprocessing_mode sample_lib "/tmp/Surah_Yasin.wav" None))
                        true (boot sample_lib))
                 [0.5%Q; 0.25%Q; (-0.5)%Q]).
    reflexivity.
Defined.

(** ** Loading and selecting a model *)

Lemma in_dict_lookup {V} (key : string) (d : gmap string V) (v : V) :
  d !! key = Some v -> in_dict key d = true.
Proof. unfold in_dict. intros ->. reflexivity. Qed.

(** A name outside the dictionary is treated as ['base'] from the first
    statement on. *)
Lemma _load_model_unknown (L : Lib) (name : string) (w : World) :
  in_dict name (self_models (whisper_stt w)) = false ->
  _load_model L name w = _load_model L "base" w.
Proof.
  intros Hname. destruct w as [[ms cur size] h]. simpl in Hname.
  unfold _load_model. eff_run. rewrite Hname. eff_run.
  destruct (in_dict "base" ms); reflexivity.
Qed.

(** A model the dictionary holds is selected without a library call. *)
Lemma _load_model_cached (L : Lib) (name : string) (w : World) (m : Model) :
  self_models (whisper_stt w) !! name = Some (Some m) ->
  _load_model L name w =
    (Ret true, MkWorld (MkWhisperSTT (self_models (whisper_stt w)) (Some m) name) (trace w)).
Proof.
  intros Hm. destruct w as [[ms cur size] h]. simpl in Hm |- *.
  unfold _load_model. eff_run. rewrite (in_dict_lookup _ _ _ Hm). eff_run.
  rewrite Hm. eff_run. rewrite Hm. reflexivity.
Qed.

(** A model the dictionary lacks is loaded, stored and selected. *)
Lemma _load_model_loads (L : Lib) (name : string) (w : World) (m : Model) :
  self_models (whisper_stt w) !! name = Some None ->
  whisper_load_model L (trace w) name (device_of L) = Ret m ->
  _load_model L name w =
    (Ret true,
     MkWorld (MkWhisperSTT (<[name := Some m]> (self_models (whisper_stt w))) (Some m) name)
             (trace w ++ [EvLoadModel name (device_of L)])).
Proof.
  intros Hnone Hload. destruct w as [[ms cur size] h]. simpl in Hnone, Hload |- *.
  unfold _load_model. eff_run. rewrite (in_dict_lookup _ _ _ Hnone). eff_run.
  rewrite Hnone. unfold load_into. eff_run. rewrite Hload. eff_run.
  rewrite lookup_insert_eq. reflexivity.
Qed.

(** When ['base'] cannot be loaded, the first of ['tiny'] and ['small']
    that loads is stored and selected in its place. *)
Lemma _load_model_base_falls_back (L : Lib) (w : World) (e : PyExn) :
  self_models (whisper_stt w) !! "base" = Some None ->
  whisper_load_model L (trace w) "base" (device_of L) = Raise e ->
  let device := device_of L in
  let h1 := trace w ++ [EvLoadModel "base" device] in
  let h2 := h1 ++ [EvLoadModel "tiny" device] in
  (forall m, whisper_load_model L h1 "tiny" device = Ret m ->
     _load_model L "base" w =
       (Ret true,
        MkWorld (MkWhisperSTT (<["tiny" := Some m]> (self_models (whisper_stt w))) (Some m) "tiny")
                h2)) /\
  (forall e' m, whisper_load_model L h1 "tiny" device = Raise e' ->
     whisper_load_model L h2 "small" device = Ret m ->
     _load_model L "base" w =
       (Ret true,
        MkWorld (MkWhisperSTT (<["small" := Some m]> (self_models (whisper_stt w))) (Some m) "small")
                (h2 ++ [EvLoadModel "small" device]))).
Proof.
  intros Hnone Hload device h1 h2. subst h1 h2 device.
  destruct w as [[ms cur size] h]. simpl in Hnone, Hload |- *.
  split.
  - intros m Htiny.
    unfold _load_model. eff_run. rewrite (in_dict_lookup _ _ _ Hnone). eff_run.
    rewrite Hnone. unfold load_into. eff_run. rewrite Hload. eff_run.
    simpl load_fallback. unfold load_into. eff_run. rewrite Htiny. eff_run.
    rewrite lookup_insert_eq. reflexivity.
  - intros e' m Htiny Hsmall.
    unfold _load_model. eff_run. rewrite (in_dict_lookup _ _ _ Hnone). eff_run.
    rewrite Hnone. unfold load_into. eff_run. rewrite Hload. eff_run.
    simpl load_fallback. unfold load_into. eff_run. rewrite Htiny. eff_run.
    rewrite Hsmall. eff_run.
    rewrite lookup_insert_eq. reflexivity.
Qed.

(** ** The keys of [self.models] *)

Lemma in_list_keys {V} (name : string) (d : gmap string V) :
  in_list name (map fst (map_to_list d)) = in_dict name d.
Proof.
  unfold in_dict. destruct (d !! name) as [v|] eqn:E.
  - apply in_list_elem_of. apply list_elem_of_fmap. exists (name, v).
    split; [reflexivity|]. apply elem_of_map_to_list. exact E.
  - apply in_list_not_elem_of. intros H. apply list_elem_of_fmap in H as ([k v] & -> & H).
    apply elem_of_map_to_list in H. simpl in E. congruence.
Qed.

Lemma in_dict_list_to_map {V} (v : V) (names : list string) (name : string) :
  in_dict name (list_to_map (M := gmap string V) (map (fun n => (n, v)) names))
  = in_list name names.
Proof.
  unfold in_dict, in_list. induction names as [|n names IH]; [reflexivity|].
  cbn [map list_to_map foldr existsb fst snd uncurry].
  change (foldr (uncurry insert) ∅ (map (fun n => (n, v)) names))
      with (list_to_map (M := gmap string V) (map (fun n => (n, v)) names)).
  destruct (String.eqb_spec name n) as [->|Hne].
  - rewrite lookup_insert_eq. reflexivity.
  - rewrite lookup_insert_ne by congruence. exact IH.
Qed.

Lemma keys_ok_fresh : keys_ok fresh_stt.
Proof. intros name. apply in_dict_list_to_map. Qed.

Lemma in_dict_insert {V} (d : gmap string V) (key name : string) (v : V) :
  in_dict key d = true -> in_dict name (<[key := v]> d) = in_dict name d.
Proof.
  unfold in_dict. intros Hin.
  destruct (decide (key = name)) as [->|Hne].
  - rewrite lookup_insert_eq. destruct (d !! name); [reflexivity|discriminate].
  - rewrite lookup_insert_ne by exact Hne. reflexivity.
Qed.

(** [_load_model] never adds a key to [self.models] nor removes one. *)
Lemma _load_model_keys (L : Lib) (name : string) (w : World) :
  keys_ok (whisper_stt w) -> keys_ok (whisper_stt (snd (_load_model L name w))).
Proof.
  intros Hk. destruct w as [[ms cur size] h]. unfold keys_ok in *. cbn [whisper_stt self_models] in Hk.
  assert (Hb : in_dict "base" ms = true) by exact (Hk "base").
  assert (Ht : in_dict "tiny" ms = true) by exact (Hk "tiny").
  assert (Hs : in_dict "small" ms = true) by exact (Hk "small").
  set (key := if negb (in_dict name ms) then "base" else name).
  assert (Hkey : in_dict key ms = true).
  { subst key. destruct (in_dict name ms) eqn:E; simpl; assumption. }
  unfold _load_model. eff_run. fold key.
  destruct (ms !! key) as [[m|]|] eqn:Em; eff_run.
  - rewrite Em. eff_run. exact Hk.
  - unfold load_into. eff_run.
    destruct (whisper_load_model L h key (device_of L)) as [m|e]; eff_run.
    { rewrite lookup_insert_eq. eff_run.
      intros nm. rewrite in_dict_insert by exact Hkey. apply Hk. }
    cbn [load_fallback]. unfold load_into.
    repeat (match goal with
            | |- context [if negb (String.eqb ?a ?b) then _ else _] => destruct (String.eqb a b)
            | |- context [whisper_load_model L ?h ?n ?d] => destruct (whisper_load_model L h n d)
            | |- context [<[?k := ?v]> ?m !! ?k] => rewrite lookup_insert_eq
            | |- context [ms !! key] => rewrite Em
            end; eff_run);
      intros nm; rewrite ?in_dict_insert by assumption; apply Hk.
  - exact Hk.
Qed.

Lemma keys_ok_boot (L : Lib) : keys_ok (whisper_stt (boot L)).
Proof. unfold boot, init_stt. eff_run. apply _load_model_keys. exact keys_ok_fresh. Qed.

(** ** The request handler, step by step *)

Section HandlerSteps.

Context (L : Lib) (audio_file : UploadFile) (language model_size : string)
        (high_accuracy : bool).
Context (RF : Frame -> Frame -> Prop)
        (RF_refl : forall f, RF f f)
        (RF_trans : forall f1 f2 f3, RF f1 f2 -> RF f2 f3 -> RF f1 f3).
Context (RF_call : forall A ev (f : list Event -> Outcome A),
            direct_call ev -> steps RF (in_world (call ev f))).
(** Creating a file and recording its path is one step: nothing can
    raise between [mkstemp] and [temp_files.append]. *)
Context (RF_created : forall A suffix prefix (k : Z -> string -> Eff.t Frame A),
            (forall fd path, steps RF (k fd path)) ->
            steps RF (let! (fd, path) := in_world (mkstemp L suffix prefix) in
                      temp_files_append path ;; k fd path)).
Context (RF_created_closed : forall A suffix prefix (k : Z -> string -> Eff.t Frame A),
            (forall fd path, steps RF (k fd path)) ->
            steps RF (let! (fd, path) := in_world (mkstemp L suffix prefix) in
                      in_world (call (EvClose fd) (fun _ => Ret tt)) ;;
                      temp_files_append path ;; k fd path)).
Context (RF_transcribe : forall path,
            steps RF (in_world (transcribe_audio L path (Some language) model_size
                                                 high_accuracy))).

Ltac handler_leaf :=
  first [ apply RF_call; exact I
        | apply RF_transcribe ].

Ltac handler_steps := steps_all RF_refl RF_trans handler_leaf.

Lemma stamped_steps (prefix : string) : steps RF (stamped L prefix).
Proof. unfold stamped. handler_steps. Qed.

Lemma convert_upload_steps (temp_file_path file_extension : string) :
  steps RF (convert_upload L temp_file_path file_extension).
Proof.
  unfold convert_upload.
  destruct (negb (in_list file_extension [".wav"; ".flac"])); [|handler_steps].
  apply (steps_try_except _ RF_trans); [|intros e; handler_steps].
  apply (steps_bind _ RF_trans); [apply stamped_steps|intros prefix _].
  apply RF_created_closed. intros fd path. handler_steps.
Qed.

Lemma process_upload_steps (content : list Byte.byte) (temp_fd : Z)
    (temp_file_path file_extension : string) :
  steps RF (process_upload L audio_file content language model_size high_accuracy
                           temp_fd temp_file_path file_extension).
Proof.
  unfold process_upload.
  apply (steps_try_except _ RF_trans); [|intros e; handler_steps].
  apply (steps_bind _ RF_trans); [handler_steps|intros _ _].
  apply (steps_bind _ RF_trans); [apply convert_upload_steps|intros converted _].
  handler_steps.
Qed.

Lemma handle_validated_steps :
  steps RF (handle_validated L audio_file language model_size high_accuracy).
Proof.
  unfold handle_validated.
  apply (steps_bind _ RF_trans); [handler_steps|intros content _].
  destruct (upload_limit <? Z.of_nat (length content)); [handler_steps|].
  apply (steps_bind _ RF_trans); [apply stamped_steps|intros prefix _].
  apply RF_created. intros fd path. apply process_upload_steps.
Qed.

End HandlerSteps.

(** ** Deleting the temporary files *)

Lemma delete_call_own (ev : Event) : delete_call ev -> own_call ev.
Proof. destruct ev; simpl; tauto. Qed.

Lemma delete_calls_plain (evs : list Event) :
  Forall delete_call evs -> created_files evs = [] /\ safe_deleted evs = [].
Proof.
  induction 1 as [|ev evs Hev _ [IH1 IH2]]; [split; reflexivity|].
  unfold created_files, safe_deleted in *. simpl. rewrite IH1, IH2.
  destruct ev; simpl in Hev; try contradiction; split; reflexivity.
Qed.

(** Brings a trace into the form [h ++ [ev1; ...; evn] ++ rest]. *)
Ltac norm_trace := rewrite <- ?app_assoc; cbn [app].

(** The retry loop always comes to an end with [True] or [False], and
    touches nothing but the file. *)
Lemma safe_delete_loop_spec (L : Lib) (file_path : string) (max_retries : Z) (delay : Q)
    (attempts : list Z) (w : World) :
  exists deleted evs,
    safe_delete_loop L file_path max_retries delay attempts w =
      (Ret deleted, MkWorld (whisper_stt w) (trace w ++ evs)) /\
    Forall delete_call evs.
Proof.
  revert w. induction attempts as [|attempt rest IH]; intros [st h].
  - exists false, []. split; [simpl; eff_run; rewrite app_nil_r; reflexivity|constructor].
  - assert (Hend : forall (b : bool) (evs : list Event),
               Forall delete_call evs ->
               exists deleted evs',
                 (Ret b, MkWorld st (h ++ evs)) =
                   (Ret deleted, MkWorld st (h ++ evs')) /\ Forall delete_call evs')
      by (intros b evs F; exists b, evs; split; [reflexivity|exact F]).
    assert (Hrec : forall evs : list Event,
               Forall delete_call evs ->
               exists deleted evs',
                 safe_delete_loop L file_path max_retries delay rest (MkWorld st (h ++ evs)) =
                   (Ret deleted, MkWorld st (h ++ evs')) /\ Forall delete_call evs').
    { intros evs F. destruct (IH (MkWorld st (h ++ evs))) as (b & evs' & E & F').
      exists b, (evs ++ evs'). cbn [whisper_stt trace] in E. rewrite E.
      split; [rewrite <- app_assoc; reflexivity|apply Forall_app; split; assumption]. }
    cbn [safe_delete_loop whisper_stt trace]. eff_run.
    destruct (os_path_exists L h file_path); eff_run;
      [|apply Hend; repeat constructor].
    match goal with
    | |- context [os_chmod L ?h' file_path 511] =>
        destruct (os_chmod L h' file_path 511) as [[]|e]
    end; eff_run; norm_trace.
    + match goal with
      | |- context [os_unlink L ?h' file_path] =>
          destruct (os_unlink L h' file_path) as [[]|e]
      end; eff_run; norm_trace; [apply Hend; repeat constructor|].
      destruct (is_permission_error e); eff_run; [|apply Hend; repeat constructor].
      destruct (attempt <? max_retries - 1); eff_run; norm_trace;
        apply Hrec; repeat constructor.
    + destruct (is_permission_error e); eff_run; [|apply Hend; repeat constructor].
      destruct (attempt <? max_retries - 1); eff_run; norm_trace;
        apply Hrec; repeat constructor.
Qed.

(** [safe_delete_file] is entered, returns, and leaves [whisper_stt] as
    it was. *)
Lemma safe_delete_file_spec (L : Lib) (file_path : string) (w : World) :
  exists deleted evs,
    safe_delete_file L file_path w =
      (Ret deleted, MkWorld (whisper_stt w) (trace w ++ EvSafeDelete file_path :: evs)) /\
    Forall delete_call evs.
Proof.
  destruct w as [st h]. unfold safe_delete_file. eff_run.
  destruct (safe_delete_loop_spec L file_path 5 0.1%Q (range 5)
              (MkWorld st (h ++ [EvSafeDelete file_path]))) as (b & evs & E & F).
  rewrite E. exists b, evs. cbn [whisper_stt trace]. rewrite <- app_assoc. split; [reflexivity|exact F].
Qed.

(** The loop of the [finally] clause calls [safe_delete_file] on every
    path, in order, creates nothing and cannot raise. *)
Lemma cleanup_loop_spec (L : Lib) (paths all : list string) (w : World) :
  exists evs,
    Eff.for_each paths
      (fun temp_file => in_world (safe_delete_file L temp_file) ;; Eff.ret tt)
      (MkFrame w all) =
      (Ret tt, MkFrame (MkWorld (whisper_stt w) (trace w ++ evs)) all) /\
    safe_deleted evs = paths /\
    created_files evs = [] /\
    Forall own_call evs.
Proof.
  set (body := fun temp_file => in_world (safe_delete_file L temp_file) ;; Eff.ret tt).
  revert w. induction paths as [|p paths IH]; intros w.
  - exists []. destruct w. cbn [Eff.for_each]. unfold Eff.ret.
    cbn [whisper_stt trace]. rewrite app_nil_r. repeat split. constructor.
  - cbn [Eff.for_each]. unfold Eff.bind at 1.
    destruct (safe_delete_file_spec L p w) as (b & evs & E & F).
    assert (Ebody : body p (MkFrame w all) =
                    (Ret tt, MkFrame (MkWorld (whisper_stt w)
                                              (trace w ++ EvSafeDelete p :: evs)) all)).
    { unfold body. eff_run. rewrite E. reflexivity. }
    rewrite Ebody.
    destruct (IH (MkWorld (whisper_stt w) (trace w ++ EvSafeDelete p :: evs)))
      as (evs' & E' & Hd & Hc & Ho).
    rewrite E'. cbn [whisper_stt trace].
    destruct (delete_calls_plain evs F) as [Hcf Hsd].
    exists ([EvSafeDelete p] ++ evs ++ evs'). split; [|split; [|split]].
    + rewrite <- app_assoc. reflexivity.
    + rewrite !safe_deleted_app, Hsd, Hd. reflexivity.
    + rewrite !created_files_app, Hcf, Hc. reflexivity.
    + apply Forall_app; split; [repeat constructor|].
      apply Forall_app; split; [|exact Ho].
      eapply Forall_impl; [exact F|]. apply delete_call_own.
Qed.

Lemma cleanup_spec (L : Lib) (f : Frame) :
  exists evs,
    cleanup L f =
      (Ret tt, MkFrame (MkWorld (whisper_stt (frame_world f)) (trace (frame_world f) ++ evs))
                       (temp_files f)) /\
    safe_deleted evs = temp_files f /\
    created_files evs = [] /\
    Forall own_call evs.
Proof.
  destruct f as [w paths]. unfold cleanup.
  unfold Eff.bind at 1, Eff.gets. cbn [temp_files frame_world].
  apply cleanup_loop_spec.
Qed.

(** ** The handler's frame *)

Lemma tracked_refl (f : Frame) : tracked f f.
Proof. exists []. rewrite !app_nil_r. repeat split. Qed.

Lemma tracked_trans (f1 f2 f3 : Frame) : tracked f1 f2 -> tracked f2 f3 -> tracked f1 f3.
Proof.
  intros (e1 & T1 & F1 & D1) (e2 & T2 & F2 & D2). exists (e1 ++ e2).
  rewrite T2, T1, F2, F1, created_files_app, safe_deleted_app, D1, D2, <- !app_assoc.
  repeat split.
Qed.

Lemma plain_events (evs : list Event) :
  Forall plain_event evs -> created_files evs = [] /\ safe_deleted evs = [].
Proof.
  induction 1 as [|ev evs [Hc Hd] _ [IH1 IH2]]; [split; reflexivity|].
  change (ev :: evs) with ([ev] ++ evs).
  rewrite created_files_app, safe_deleted_app, Hc, Hd, IH1, IH2. split; reflexivity.
Qed.

(** A computation on the world that creates and deletes no file keeps the
    frame tracked. *)
Lemma in_world_tracked {A} (m : Eff.t World A) :
  steps (extends plain_event) m -> steps tracked (in_world m).
Proof.
  intros Hm [w paths]. unfold in_world, Eff.zoom. cbn [frame_world temp_files].
  destruct (Hm w) as (evs & E & F). destruct (m w) as [o w']. cbn [snd] in *.
  destruct (plain_events evs F) as [Hc Hd].
  exists evs. cbn [frame_world temp_files]. rewrite Hc, app_nil_r. repeat split; assumption.
Qed.

Lemma temp_files_append_run (path : string) (f : Frame) :
  temp_files_append path f = (Ret tt, MkFrame (frame_world f) (temp_files f ++ [path])).
Proof. reflexivity. Qed.

Lemma in_world_mkstemp_run (L : Lib) (suffix prefix : string) (f : Frame) :
  in_world (mkstemp L suffix prefix) f =
    (tempfile_mkstemp L (trace (frame_world f)) suffix prefix,
     MkFrame (MkWorld (whisper_stt (frame_world f))
                      (trace (frame_world f) ++
                       [EvMkstemp suffix prefix
                          (match tempfile_mkstemp L (trace (frame_world f)) suffix prefix with
                           | Ret p => Some (snd p)
                           | Raise _ => None
                           end)]))
             (temp_files f)).
Proof. reflexivity. Qed.

Section Tracked.

Context (L : Lib).

Lemma tracked_call {A} (ev : Event) (f : list Event -> Outcome A) :
  direct_call ev -> steps tracked (in_world (call ev f)).
Proof.
  intros Hev. apply in_world_tracked, call_extends.
  destruct ev; simpl in Hev; try contradiction; split; reflexivity.
Qed.

Lemma tracked_created {A} (suffix prefix : string) (k : Z -> string -> Eff.t Frame A) :
  (forall fd path, steps tracked (k fd path)) ->
  steps tracked (let! (fd, path) := in_world (mkstemp L suffix prefix) in
                 temp_files_append path ;; k fd path).
Proof.
  intros Hk f. unfold Eff.bind at 1. rewrite in_world_mkstemp_run.
  destruct (tempfile_mkstemp L (trace (frame_world f)) suffix prefix) as [[fd path]|e].
  - unfold Eff.bind at 1. rewrite temp_files_append_run.
    cbn [frame_world temp_files snd].
    eapply tracked_trans; [|apply Hk].
    exists [EvMkstemp suffix prefix (Some path)]. repeat split.
  - exists [EvMkstemp suffix prefix None]. cbn [snd frame_world temp_files trace].
    rewrite app_nil_r. repeat split.
Qed.

Lemma tracked_created_closed {A} (suffix prefix : string) (k : Z -> string -> Eff.t Frame A) :
  (forall fd path, steps tracked (k fd path)) ->
  steps tracked (let! (fd, path) := in_world (mkstemp L suffix prefix) in
                 in_world (call (EvClose fd) (fun _ => Ret tt)) ;;
                 temp_files_append path ;; k fd path).
Proof.
  intros Hk f. unfold Eff.bind at 1. rewrite in_world_mkstemp_run.
  destruct (tempfile_mkstemp L (trace (frame_world f)) suffix prefix) as [[fd path]|e].
  - unfold Eff.bind at 1. unfold in_world at 1, Eff.zoom, call.
    cbn [frame_world temp_files trace whisper_stt].
    unfold Eff.bind at 1. rewrite temp_files_append_run.
    cbn [frame_world temp_files snd].
    eapply tracked_trans; [|apply Hk].
    exists [EvMkstemp suffix prefix (Some path); EvClose fd].
    cbn [frame_world temp_files trace]. rewrite <- app_assoc. repeat split.
  - exists [EvMkstemp suffix prefix None]. cbn [snd frame_world temp_files trace].
    rewrite app_nil_r. repeat split.
Qed.

Lemma transcribe_event_plain (path : string) (language : option string) (model_size : string)
    (high_accuracy : bool) (ev : Event) :
  transcribe_event L path language model_size high_accuracy ev -> plain_event ev.
Proof.
  destruct ev; simpl; intros H; try (split; reflexivity);
    destruct H as [[]|[]].
Qed.

Lemma tracked_transcribe (path : string) (language : option string) (model_size : string)
    (high_accuracy : bool) :
  steps tracked (in_world (transcribe_audio L path language model_size high_accuracy)).
Proof.
  apply in_world_tracked. intros w.
  eapply extends_impl; [apply transcribe_event_plain|apply transcribe_audio_extends].
Qed.

(** The body of the handler appends to [temp_files] the path of every
    file it creates, and never calls [safe_delete_file]. *)
Lemma handle_upload_tracked (req : TranscribeRequest) : steps tracked (handle_upload L req).
Proof.
  unfold handle_upload.
  apply (steps_try_except _ tracked_trans); [|intros e; apply (steps_ret _ tracked_refl)].
  apply (steps_bind _ tracked_trans).
  - apply in_world_tracked. apply (steps_gets _ (extends_refl plain_event)).
  - intros st _.
    apply (handle_validated_steps L _ _ _ _ tracked tracked_refl tracked_trans).
    + intros A ev f. apply tracked_call.
    + intros A. apply tracked_created.
    + intros A. apply tracked_created_closed.
    + intros path. apply tracked_transcribe.
Qed.

End Tracked.

(** ** The handler's responses *)

Ltac returns_step leaf :=
  first
    [ apply returns_ret; leaf
    | apply returns_bind; intros ? ?
    | apply returns_try_except; [|intros ?]
    | match goal with
      | |- returns _ (if ?b then _ else _) => destruct b
      | |- returns _ (match ?x with _ => _ end) => destruct x
      end ].

Lemma convert_upload_returns (L : Lib) (temp_file_path file_extension : string) :
  returns (fun r => forall response, r = inr response ->
             exists message,
               response = MkResponse 400 false (Some "Audio conversion failed") message None)
          (convert_upload L temp_file_path file_extension).
Proof.
  unfold convert_upload.
  repeat returns_step ltac:(intros r E; inversion E; subst; eauto).
Qed.

Section HandlerReturns.

Context (L : Lib) (audio_file : UploadFile) (language model_size : string)
        (high_accuracy : bool).
Context (Q : Response -> Prop).
Context (Q_failure : forall code error message,
            code = 400 \/ code = 500 -> Q (MkResponse code false (Some error) message None)).
Context (Q_success : forall er time info message,
            (exists path w w',
               transcribe_audio L path (Some language) model_size high_accuracy w
               = (Ret (Some er), w')) ->
            Q (MkResponse 200 true None message (Some (er, time, info)))).

Lemma process_upload_returns (content : list Byte.byte) (temp_fd : Z)
    (temp_file_path file_extension : string) :
  returns Q (process_upload L audio_file content language model_size high_accuracy
                            temp_fd temp_file_path file_extension).
Proof.
  unfold process_upload.
  apply returns_try_except; [|intros e; apply returns_ret; apply Q_failure; auto].
  apply returns_bind; intros _ _.
  apply returns_bind; intros converted (s & s' & Hc).
  destruct converted as [final_audio_path|response].
  - apply returns_bind; intros start_time _.
    apply returns_bind; intros result (f & f' & Hr).
    apply returns_bind; intros end_time _.
    destruct result as [er|]; apply returns_ret; [|apply Q_failure; auto].
    apply Q_success. unfold in_world, Eff.zoom in Hr.
    destruct (transcribe_audio L final_audio_path (Some language) model_size high_accuracy
                               (frame_world f)) as [o w'] eqn:E.
    inversion Hr; subst. eauto.
  - apply returns_ret.
    destruct (convert_upload_returns L _ _ _ _ _ Hc response eq_refl) as [message ->].
    apply Q_failure; auto.
Qed.

Lemma handle_validated_returns :
  returns Q (handle_validated L audio_file language model_size high_accuracy).
Proof.
  unfold handle_validated.
  apply returns_bind; intros content _.
  destruct (upload_limit <? Z.of_nat (length content));
    [apply returns_ret; apply Q_failure; auto|].
  apply returns_bind; intros prefix _.
  apply returns_bind; intros [fd path] _.
  apply returns_bind; intros _ _.
  apply process_upload_returns.
Qed.

End HandlerReturns.

(** The body of the handler always ends in a response. *)
Lemma handle_upload_total (L : Lib) (req : TranscribeRequest) (f : Frame) :
  exists response, fst (handle_upload L req f) = Ret response.
Proof.
  unfold handle_upload, Eff.try_except.
  match goal with |- context [match ?m f with _ => _ end] => destruct (m f) as [[r|e] f'] end;
    eexists; reflexivity.
Qed.

(** The status code of a response is 200, 400 or 500, and it is 200
    exactly for a success. *)
Lemma handle_upload_status (L : Lib) (req : TranscribeRequest) :
  returns (fun response =>
             (status_code response = 200 /\ resp_success response = true) \/
             ((status_code response = 400 \/ status_code response = 500) /\
              resp_success response = false))
          (handle_upload L req).
Proof.
  unfold handle_upload.
  apply returns_try_except; [|intros e; apply returns_ret; right; split; auto].
  apply returns_bind; intros st _.
  apply handle_validated_returns.
  - intros code error message Hcode. right. split; [exact Hcode|reflexivity].
  - intros er time info message _. left. split; reflexivity.
Qed.


(** C8. An upload of more than 25 * 1024 * 1024 bytes is answered with
    status 400, [success] false and the error 'File too large'; the only
    library call the handler made is the read of the upload, so no
    temporary file was created and nothing was transcribed. *)
Theorem upload_limit_enforced (L : Lib) (req : TranscribeRequest) (w : World)
    (content : list Byte.byte) :
  upload_read L (trace w) (req_audio_file req) = Ret content ->
  25 * 1024 * 1024 < Z.of_nat (length content) ->
  let done := transcribe_endpoint L req w in
  done =
    (Ret (MkResponse 400 false (Some "File too large") "Audio file must be less than 25MB" None),
     MkWorld (whisper_stt w) (trace w ++ [EvRead (filename (req_audio_file req))])) /\
  created_files (new_events w (snd done)) = [] /\
  transcribe_calls (new_events w (snd done)) = [] /\
  load_calls (new_events w (snd done)) = [].
Proof.
  intros Hread Hbig. cbv zeta.
  assert (Hlimit : (upload_limit <? Z.of_nat (length content)) = true).
  { apply Z.ltb_lt. unfold upload_limit. exact Hbig. }
  assert (E : transcribe_endpoint L req w =
              (Ret (MkResponse 400 false (Some "File too large")
                      "Audio file must be less than 25MB" None),
               MkWorld (whisper_stt w) (trace w ++ [EvRead (filename (req_audio_file req))]))).
  { destruct w as [st h]. cbn [trace whisper_stt] in *.
    unfold transcribe_endpoint, handle_upload, handle_validated, cleanup. eff_run.
    rewrite Hread. eff_run. rewrite Hlimit. eff_run. cbn [Eff.for_each]. eff_run.
    reflexivity. }
  rewrite E. cbn [snd].
  rewrite (new_events_app w
             (MkWorld (whisper_stt w) (trace w ++ [EvRead (filename (req_audio_file req))]))
             [EvRead (filename (req_audio_file req))] eq_refl).
  repeat split.
Qed.

Lemma upload_limit_enforced_witness :
  let req := MkTranscribeRequest big_upload "auto" "base" true in
  let done := transcribe_endpoint sample_lib req (boot sample_lib) in
  done =
    (Ret (MkResponse 400 false (Some "File too large") "Audio file must be less than 25MB" None),
     MkWorld (whisper_stt (boot sample_lib)) (trace (boot sample_lib) ++ [EvRead "long.wav"])) /\
  created_files (new_events (boot sample_lib) (snd done)) = [] /\
  transcribe_calls (new_events (boot sample_lib) (snd done)) = [] /\
  load_calls (new_events (boot sample_lib) (snd done)) = [].
Proof.
  apply (upload_limit_enforced sample_lib (MkTranscribeRequest big_upload "auto" "base" true)
           (boot sample_lib) (upload_content big_upload)).
  - reflexivity.
  - unfold big_upload, upload_content. rewrite repeat_length, Z2Nat.id; lia.
Defined.

(** ** What a request does to [whisper_stt] *)

Ltac same_stt_leaf := apply call_same_stt.
Ltac same_stt_steps := steps_all same_stt_refl same_stt_trans same_stt_leaf.

Lemma preprocess_audio_same_stt (L : Lib) (path : string) (flag : bool) :
  steps same_stt (preprocess_audio L path flag).
Proof. unfold preprocess_audio. same_stt_steps. Qed.

Lemma the_current_model_same_stt : steps same_stt the_current_model.
Proof. unfold the_current_model, get_stt. same_stt_steps. Qed.

Lemma detect_language_same_stt (L : Lib) (audio : Audio) :
  steps same_stt (detect_language L audio).
Proof. unfold detect_language. same_stt_steps; apply the_current_model_same_stt. Qed.

(** Once the model is in place, [transcribe_audio] only reads
    [whisper_stt]. *)
Lemma transcribe_loaded_same_stt (L : Lib) (path : string) (language : option string)
    (model_size : string) (high_accuracy : bool) :
  steps same_stt (transcribe_loaded L path language model_size high_accuracy).
Proof.
  unfold transcribe_loaded.
  same_stt_steps;
    first [ apply preprocess_audio_same_stt
          | apply detect_language_same_stt
          | apply the_current_model_same_stt ].
Qed.

(** [transcribe_audio] changes [whisper_stt] through [_load_model] only,
    which it calls exactly when the requested size is not the current
    one. *)
Lemma transcribe_audio_state (L : Lib) (path : string) (language : option string)
    (model_size : string) (high_accuracy : bool) (w : World) :
  whisper_stt (snd (transcribe_audio L path language model_size high_accuracy w)) =
    if String.eqb model_size (self_model_size (whisper_stt w))
    then whisper_stt w
    else whisper_stt (snd (_load_model L model_size w)).
Proof.
  pose proof (transcribe_loaded_same_stt L path language model_size high_accuracy) as Hs.
  unfold transcribe_audio. eff_run.
  destruct (String.eqb model_size (self_model_size (whisper_stt w))); eff_run.
  - specialize (Hs w). unfold same_stt in Hs.
    destruct (transcribe_loaded L path language model_size high_accuracy w) as [[r|e] w'];
      exact Hs.
  - destruct (_load_model L model_size w) as [[[]|e] w1]; eff_run; try reflexivity.
    specialize (Hs w1). unfold same_stt in Hs.
    destruct (transcribe_loaded L path language model_size high_accuracy w1) as [[r|e] w'];
      exact Hs.
Qed.

Section OnWorld.

Context (L : Lib) (R : World -> World -> Prop)
        (R_refl : forall w, R w w)
        (R_trans : forall w1 w2 w3, R w1 w2 -> R w2 w3 -> R w1 w3).
(** [R] allows the handler's own calls. *)
Context (R_own : forall w evs,
            Forall own_call evs -> R w (MkWorld (whisper_stt w) (trace w ++ evs))).

Lemma on_world_refl (f : Frame) : on_world R f f.
Proof. apply R_refl. Qed.

Lemma on_world_trans (f1 f2 f3 : Frame) :
  on_world R f1 f2 -> on_world R f2 f3 -> on_world R f1 f3.
Proof. apply R_trans. Qed.

Lemma in_world_on_world {A} (m : Eff.t World A) :
  steps R m -> steps (on_world R) (in_world m).
Proof.
  intros Hm [w paths]. unfold on_world, in_world, Eff.zoom. cbn [frame_world temp_files].
  specialize (Hm w). destruct (m w) as [o w']. exact Hm.
Qed.

Lemma own_call_steps {A} (ev : Event) (f : list Event -> Outcome A) :
  own_call ev -> steps R (call ev f).
Proof. intros Hev w. apply (R_own w [ev]). constructor; [exact Hev|constructor]. Qed.

Lemma on_world_created {A} (suffix prefix : string) (k : Z -> string -> Eff.t Frame A) :
  (forall fd path, steps (on_world R) (k fd path)) ->
  steps (on_world R) (let! (fd, path) := in_world (mkstemp L suffix prefix) in
                      temp_files_append path ;; k fd path).
Proof.
  intros Hk.
  apply (steps_bind _ on_world_trans).
  - apply in_world_on_world. intros w. unfold mkstemp. apply own_call_steps. exact I.
  - intros [fd path] _. apply (steps_bind _ on_world_trans); [|intros _ _; apply Hk].
    intros f. apply R_refl.
Qed.

Lemma on_world_created_closed {A} (suffix prefix : string)
    (k : Z -> string -> Eff.t Frame A) :
  (forall fd path, steps (on_world R) (k fd path)) ->
  steps (on_world R) (let! (fd, path) := in_world (mkstemp L suffix prefix) in
                      in_world (call (EvClose fd) (fun _ => Ret tt)) ;;
                      temp_files_append path ;; k fd path).
Proof.
  intros Hk.
  apply (steps_bind _ on_world_trans).
  - apply in_world_on_world. intros w. unfold mkstemp. apply own_call_steps. exact I.
  - intros [fd path] _. apply (steps_bind _ on_world_trans).
    + apply in_world_on_world, own_call_steps. exact I.
    + intros _ _. apply (steps_bind _ on_world_trans); [|intros _ _; apply Hk].
      intros f. apply R_refl.
Qed.

(** The handler relates the world it starts in to the world it ends in
    when [transcribe_audio], called with the validated form, does. *)
Lemma transcribe_endpoint_on_world (req : TranscribeRequest) (w : World) :
  (forall path,
     steps R (transcribe_audio L path (Some (validated_language (req_language req)))
                               (validated_model_size (whisper_stt w) (req_model_size req))
                               (req_high_accuracy req))) ->
  R w (snd (transcribe_endpoint L req w)).
Proof.
  intros Ht. unfold transcribe_endpoint, Eff.try_finally.
  assert (Hbody : on_world R (MkFrame w []) (snd (handle_upload L req (MkFrame w [])))).
  { unfold handle_upload, Eff.try_except.
    unfold Eff.bind at 1. unfold in_world at 1, Eff.zoom, get_stt, Eff.gets.
    cbn [frame_world temp_files].
    pose proof (handle_validated_steps L (req_audio_file req)
                  (validated_language (req_language req))
                  (validated_model_size (whisper_stt w) (req_model_size req))
                  (req_high_accuracy req) (on_world R) on_world_refl on_world_trans) as Hv.
    assert (Hs : steps (on_world R)
                   (handle_validated L (req_audio_file req)
                      (validated_language (req_language req))
                      (validated_model_size (whisper_stt w) (req_model_size req))
                      (req_high_accuracy req))).
    { apply Hv.
      - intros A ev f Hev. apply in_world_on_world, own_call_steps.
        destruct ev; simpl in Hev; try contradiction; exact I.
      - intros A. apply on_world_created.
      - intros A. apply on_world_created_closed.
      - intros path. apply in_world_on_world, Ht. }
    specialize (Hs (MkFrame w [])).
    destruct (handle_validated L (req_audio_file req) (validated_language (req_language req))
                (validated_model_size (whisper_stt w) (req_model_size req))
                (req_high_accuracy req) (MkFrame w [])) as [[r|e] f']; exact Hs. }
  destruct (handle_upload L req (MkFrame w [])) as [o f]. cbn [snd] in Hbody.
  destruct (cleanup_spec L f) as (evs & Ec & _ & _ & Hown).
  rewrite Ec. cbn [snd frame_world].
  eapply R_trans; [exact Hbody|]. apply R_own. exact Hown.
Qed.

End OnWorld.

Lemma stays_refl (model_size : string) (w : World) : stays model_size w w.
Proof. intros _. reflexivity. Qed.

Lemma stays_trans (model_size : string) (w1 w2 w3 : World) :
  stays model_size w1 w2 -> stays model_size w2 w3 -> stays model_size w1 w3.
Proof.
  unfold stays. intros H12 H23 H1. rewrite <- (H12 H1). apply H23. rewrite (H12 H1). exact H1.
Qed.

Lemma transcribe_audio_stays (L : Lib) (path : string) (language : option string)
    (model_size : string) (high_accuracy : bool) :
  steps (stays model_size) (transcribe_audio L path language model_size high_accuracy).
Proof.
  intros w Hsize. rewrite transcribe_audio_state, Hsize, String.eqb_refl. reflexivity.
Qed.

Lemma endpoint_outcome (L : Lib) (req : TranscribeRequest) (w : World) :
  fst (transcribe_endpoint L req w) = fst (handle_upload L req (MkFrame w [])).
Proof.
  unfold transcribe_endpoint, Eff.try_finally.
  destruct (handle_upload L req (MkFrame w [])) as [o f].
  destruct (cleanup_spec L f) as (evs & Ec & _). rewrite Ec. reflexivity.
Qed.

Lemma enhance_result_model_size (result : RawResult) (audio : Audio) (language : string)
    (detected : option string) (confidence : Q) (model_size : string) (er : EnhancedResult) :
  enhance_result result audio language detected confidence model_size = Ret er ->
  result_model_size er = model_size.
Proof.
  unfold enhance_result.
  destruct (collect_segments (default [] (raw_result_segments result))) as [[segs total] count].
  unfold Py.and_then.
  repeat match goal with
         | |- context [match ?o with Ret _ => _ | Raise _ => _ end = _] =>
             destruct o; [|discriminate]
         end.
  intros E. inversion E. reflexivity.
Qed.




(** ** Unknown model sizes *)

Lemma validated_unknown (st : WhisperSTT) (name : string) :
  keys_ok st -> in_list name model_names = false -> validated_model_size st name = "base".
Proof.
  intros Hk Hname. unfold validated_model_size.
  rewrite in_list_keys, (Hk name), Hname. reflexivity.
Qed.

Lemma handle_upload_run (L : Lib) (req : TranscribeRequest) (w : World) :
  handle_upload L req (MkFrame w []) =
    Eff.try_except
      (handle_validated L (req_audio_file req) (validated_language (req_language req))
         (validated_model_size (whisper_stt w) (req_model_size req)) (req_high_accuracy req))
      (fun e => Eff.ret (MkResponse 500 false (Some (exn_msg e)) "Internal server error" None))
      (MkFrame w []).
Proof. reflexivity. Qed.

(** C3 (as amended). A model size outside the twelve keys is replaced by
    ['base']: the handler transcribes with ['base'] and reports it, and
    [_load_model] goes on as for ['base'].  It then selects the base
    model when [self.models] holds it or [whisper.load_model('base')]
    succeeds; when that call raises, it selects instead the first of
    ['tiny'] and ['small'] that loads. *)
Theorem unknown_model_falls_back (L : Lib) (name : string) (w : World) :
  keys_ok (whisper_stt w) ->
  in_list name model_names = false ->
  let st := whisper_stt w in
  let device := device_of L in
  (forall req, req_model_size req = name ->
     validated_model_size st name = "base" /\
     Forall (served_as_base L (req_high_accuracy req))
            (new_events w (snd (transcribe_endpoint L req w))) /\
     (forall response er time info,
        fst (transcribe_endpoint L req w) = Ret response ->
        resp_result response = Some (er, time, info) ->
        result_model_size er = "base")) /\
  _load_model L name w = _load_model L "base" w /\
  (forall m, self_models st !! "base" = Some (Some m) ->
     _load_model L name w =
       (Ret true, MkWorld (MkWhisperSTT (self_models st) (Some m) "base") (trace w))) /\
  (forall m, self_models st !! "base" = Some None ->
     whisper_load_model L (trace w) "base" device = Ret m ->
     _load_model L name w =
       (Ret true,
        MkWorld (MkWhisperSTT (<["base" := Some m]> (self_models st)) (Some m) "base")
                (trace w ++ [EvLoadModel "base" device]))) /\
  (forall e, self_models st !! "base" = Some None ->
     whisper_load_model L (trace w) "base" device = Raise e ->
     let h1 := trace w ++ [EvLoadModel "base" device] in
     let h2 := h1 ++ [EvLoadModel "tiny" device] in
     (forall m, whisper_load_model L h1 "tiny" device = Ret m ->
        _load_model L name w =
          (Ret true,
           MkWorld (MkWhisperSTT (<["tiny" := Some m]> (self_models st)) (Some m) "tiny") h2)) /\
     (forall e' m, whisper_load_model L h1 "tiny" device = Raise e' ->
        whisper_load_model L h2 "small" device = Ret m ->
        _load_model L name w =
          (Ret true,
           MkWorld (MkWhisperSTT (<["small" := Some m]> (self_models st)) (Some m) "small")
                   (h2 ++ [EvLoadModel "small" device])))).
Proof.
  intros Hk Hname st device. subst st device.
  assert (Hdict : in_dict name (self_models (whisper_stt w)) = false)
    by (rewrite (Hk name); exact Hname).
  pose proof (_load_model_unknown L name w Hdict) as Hbase.
  split; [|split; [exact Hbase|rewrite Hbase; split; [|split]]].
  - intros req Hreq.
    pose proof (validated_unknown (whisper_stt w) name Hk Hname) as Hv.
    split; [exact Hv|split].
    + set (P := served_as_base L (req_high_accuracy req)).
      apply extends_new_events.
      apply (transcribe_endpoint_on_world L (extends P) (extends_refl P) (extends_trans P)).
      * intros w0 evs Hown. exists evs. split; [reflexivity|].
        eapply Forall_impl; [exact Hown|].
        intros ev Hev. destruct ev; simpl in Hev; try contradiction; exact I.
      * intros path w0. rewrite Hreq, Hv.
        eapply extends_impl; [|apply transcribe_audio_extends].
        intros ev Hev. destruct ev; try exact I.
        destruct Hev as (lang & _ & ->). exists lang. reflexivity.
    + intros response er time info Hresp Hresult.
      rewrite endpoint_outcome, handle_upload_run, Hreq, Hv in Hresp.
      destruct (Eff.try_except
                  (handle_validated L (req_audio_file req)
                     (validated_language (req_language req)) "base" (req_high_accuracy req))
                  (fun e => Eff.ret (MkResponse 500 false (Some (exn_msg e))
                                       "Internal server error" None))
                  (MkFrame w [])) as [o f] eqn:E.
      cbn [fst] in Hresp. subst o.
      revert er time info Hresult.
      refine (returns_try_except
                (fun r => forall er time info,
                   resp_result r = Some (er, time, info) -> result_model_size er = "base")
                _ _ _ _ _ _ _ E).
      * apply handle_validated_returns.
        -- intros code error message _ er time info Hr. discriminate.
        -- intros er time info message (path & w1 & w2 & Ht) er' time' info' Hr.
           inversion Hr; subst.
           destruct (transcribe_audio_returns _ _ _ _ _ _ _ _ Ht er' eq_refl)
             as (h & m & audio & options & result & lang & det & conf & _ & He).
           exact (enhance_result_model_size _ _ _ _ _ _ _ He).
      * intros e. apply returns_ret. discriminate.
  - intros m Hm. apply _load_model_cached. exact Hm.
  - intros m Hnone Hload. apply _load_model_loads; assumption.
  - intros e Hnone Hload. apply _load_model_base_falls_back with (e := e); assumption.
Qed.

Lemma unknown_model_falls_back_witness :
  _load_model sample_lib "huge" (boot sample_lib) =
    (Ret true,
     MkWorld (MkWhisperSTT (self_models (whisper_stt (boot sample_lib)))
                           (Some (MkModel "base" "cpu")) "base")
             (trace (boot sample_lib))).
Proof.
  apply (proj1 (proj2 (proj2 (unknown_model_falls_back sample_lib "huge" (boot sample_lib)
                                (keys_ok_boot sample_lib) eq_refl)))).
  vm_compute. reflexivity.
Defined.

(** C3 as stated fails: on a server whose base model cannot be loaded,
    [_load_model] called with an unknown size selects ['tiny'], and
    ['base'] stays unloaded. *)
Lemma unknown_model_selects_base_counterexample :
  let w := boot flaky_lib in
  let done := _load_model flaky_lib "huge" w in
  in_list "huge" model_names = false /\
  fst done = Ret true /\
  self_model_size (whisper_stt (snd done)) = "tiny" /\
  self_current_model (whisper_stt (snd done)) = Some (MkModel "tiny" "cpu") /\
  self_models (whisper_stt (snd done)) !! "base" = Some None /\
  load_calls (new_events w (snd done)) = ["base"; "tiny"].
Proof. cbv zeta. repeat split; vm_compute; reflexivity. Qed.

(** * Sample runs *)

Example strip_sample : Py.strip "  peace be  " = "peace be".
Proof. reflexivity. Qed.

Example split_sample : Py.split "  peace  be upon you " = ["peace"; "be"; "upon"; "you"].
Proof. reflexivity. Qed.

Example lower_contains_sample : Py.contains "quran" (Py.lower "/tmp/Al-QURAN_01.mp3") = true.
Proof. reflexivity. Qed.

Example truediv_by_zero : Py.truediv 1 0 = Raise Py.ZeroDivisionError.
Proof. reflexivity. Qed.

Example max_key_first_of_equals : max_key [("en", 0.4%Q); ("ar", 0.4%Q); ("id", 0.2%Q)] = Ret "en".
Proof. reflexivity. Qed.

Example max_key_empty : max_key [] = Raise (Py.ValueError "max() arg is an empty sequence").
Proof. reflexivity. Qed.

(** A converted upload: two files are created, and both are handed to
    [safe_delete_file] after the transcription. *)
Example sample_request_cleans_up :
  let req := MkTranscribeRequest sample_upload "auto" "tiny" true in
  let w := boot sample_lib in
  let evs := new_events w (snd (transcribe_endpoint sample_lib req w)) in
  created_files evs =
    ["/tmp/whisper_1700000002_3.mp3"; "/tmp/whisper_converted_1700000005_6.wav"] /\
  safe_deleted evs = created_files evs /\
  load_calls evs = ["tiny"].
Proof. cbv zeta. repeat split; vm_compute; reflexivity. Qed.

(** * Further properties *)

(** ** [safe_delete_file]: retries and back-off *)

Lemma unlink_calls_app (a b : list Event) :
  unlink_calls (a ++ b) = unlink_calls a ++ unlink_calls b.
Proof. apply flat_map_app. Qed.

Lemma exists_calls_app (a b : list Event) :
  exists_calls (a ++ b) = exists_calls a ++ exists_calls b.
Proof. apply flat_map_app. Qed.

Lemma sleeps_app (a b : list Event) : sleeps (a ++ b) = sleeps a ++ sleeps b.
Proof. apply flat_map_app. Qed.

(** The loop from attempt [a] on, with [k] attempts left of five: it
    sleeps after the attempts [a], ..., [a + n - 1] only, none of them the
    last one, and looks for the file at most [k] times. *)
Lemma safe_delete_loop_schedule (L : Lib) (file_path : string) (k : nat) :
  forall (a : nat) (w : World),
    (a + k = 5)%nat ->
    exists deleted evs n,
      safe_delete_loop L file_path 5 0.1%Q (map Z.of_nat (seq a k)) w =
        (Ret deleted, MkWorld (whisper_stt w) (trace w ++ evs)) /\
      (n = 0 \/ a + n <= 4)%nat /\
      sleeps evs = map (fun i => (0.1 * pow2 (Z.of_nat i))%Q) (seq a n) /\
      (length (exists_calls evs) <= k)%nat /\
      (length (unlink_calls evs) <= length (exists_calls evs))%nat /\
      Forall (eq file_path) (unlink_calls evs).
Proof.
  induction k as [|k IH]; intros a [st h] Hak.
  - exists false, [], 0%nat. cbn [seq map safe_delete_loop whisper_stt trace]. eff_run.
    rewrite app_nil_r. repeat split; auto.
  - assert (Hend : forall (b : bool) (evs : list Event),
               sleeps evs = [] ->
               (length (exists_calls evs) <= 1)%nat ->
               (length (unlink_calls evs) <= length (exists_calls evs))%nat ->
               Forall (eq file_path) (unlink_calls evs) ->
               exists deleted evs' n,
                 (Ret b, MkWorld st (h ++ evs)) = (Ret deleted, MkWorld st (h ++ evs')) /\
                 (n = 0 \/ a + n <= 4)%nat /\
                 sleeps evs' = map (fun i => (0.1 * pow2 (Z.of_nat i))%Q) (seq a n) /\
                 (length (exists_calls evs') <= S k)%nat /\
                 (length (unlink_calls evs') <= length (exists_calls evs'))%nat /\
                 Forall (eq file_path) (unlink_calls evs')).
    { intros b evs Hs He Hu Hf. exists b, evs, 0%nat.
      repeat split; auto. lia. }
    assert (Hrec : forall (evs : list Event) (slept : bool),
               sleeps evs = (if slept then [(0.1 * pow2 (Z.of_nat a))%Q] else []) ->
               (if slept then (a < 4)%nat else (4 <= a)%nat) ->
               length (exists_calls evs) = 1%nat ->
               (length (unlink_calls evs) <= 1)%nat ->
               Forall (eq file_path) (unlink_calls evs) ->
               exists deleted evs' n,
                 safe_delete_loop L file_path 5 0.1%Q (map Z.of_nat (seq (S a) k))
                                  (MkWorld st (h ++ evs)) =
                   (Ret deleted, MkWorld st (h ++ evs')) /\
                 (n = 0 \/ a + n <= 4)%nat /\
                 sleeps evs' = map (fun i => (0.1 * pow2 (Z.of_nat i))%Q) (seq a n) /\
                 (length (exists_calls evs') <= S k)%nat /\
                 (length (unlink_calls evs') <= length (exists_calls evs'))%nat /\
                 Forall (eq file_path) (unlink_calls evs')).
    { intros evs slept Hs Ha He Hu Hf.
      destruct (IH (S a) (MkWorld st (h ++ evs))) as (b & evs' & n & E & Hn & Hs' & He' & Hu' & Hf');
        [lia|].
      cbn [whisper_stt trace] in E. rewrite E, <- app_assoc.
      destruct slept.
      - exists b, (evs ++ evs'), (S n).
        rewrite sleeps_app, exists_calls_app, unlink_calls_app, !length_app, Hs, Hs', He.
        repeat split; auto; try lia.
        apply Forall_app; split; assumption.
      - assert (n = 0)%nat as -> by lia.
        exists b, (evs ++ evs'), 0%nat.
        rewrite sleeps_app, exists_calls_app, unlink_calls_app, !length_app, Hs, Hs', He.
        repeat split; auto; try lia.
        apply Forall_app; split; assumption. }
    cbn [seq map safe_delete_loop whisper_stt trace]. eff_run.
    destruct (os_path_exists L h file_path); eff_run;
      [|apply Hend; simpl; auto].
    match goal with
    | |- context [os_chmod L ?h' file_path 511] =>
        destruct (os_chmod L h' file_path 511) as [[]|e]
    end; eff_run; norm_trace.
    + match goal with
      | |- context [os_unlink L ?h' file_path] =>
          destruct (os_unlink L h' file_path) as [[]|e]
      end; eff_run; norm_trace; [apply Hend; simpl; auto|].
      destruct (is_permission_error e); eff_run; [|apply Hend; simpl; auto].
      destruct (Z.ltb_spec (Z.of_nat a) (5 - 1)); eff_run; norm_trace.
      * apply (Hrec _ true); simpl; auto. lia.
      * apply (Hrec _ false); simpl; auto. lia.
    + destruct (is_permission_error e); eff_run; [|apply Hend; simpl; auto].
      destruct (Z.ltb_spec (Z.of_nat a) (5 - 1)); eff_run; norm_trace.
      * apply (Hrec _ true); simpl; auto. lia.
      * apply (Hrec _ false); simpl; auto. lia.
Qed.

(** X1. Whatever the file system does, [safe_delete_file] looks for the
    file at most five times and calls [os.unlink] at most as often, always
    on the path it was given; it sleeps at most four times, for 0.1, 0.2,
    0.4 and 0.8 seconds in that order, so for at most 1.5 seconds. *)
Theorem safe_delete_file_bounded (L : Lib) (file_path : string) (w : World) :
  let evs := new_events w (snd (safe_delete_file L file_path w)) in
  exists n,
    (n <= 4)%nat /\
    sleeps evs = map (fun i => (0.1 * pow2 (Z.of_nat i))%Q) (seq 0 n) /\
    (Qsum (sleeps evs) <= 1.5)%Q /\
    (length (exists_calls evs) <= 5)%nat /\
    (length (unlink_calls evs) <= length (exists_calls evs))%nat /\
    Forall (eq file_path) (unlink_calls evs).
Proof.
  cbv zeta. destruct w as [st h]. unfold safe_delete_file. eff_run.
  change (range 5) with (map Z.of_nat (seq 0 5)).
  destruct (safe_delete_loop_schedule L file_path 5 0
              (MkWorld st (h ++ [EvSafeDelete file_path])) eq_refl)
    as (b & evs & n & E & Hn & Hs & He & Hu & Hf).
  rewrite E. cbn [snd whisper_stt trace].
  rewrite (new_events_app (MkWorld st h) (MkWorld st ((h ++ [EvSafeDelete file_path]) ++ evs))
             ([EvSafeDelete file_path] ++ evs))
    by (cbn [trace]; rewrite <- app_assoc; reflexivity).
  rewrite sleeps_app, exists_calls_app, unlink_calls_app. cbn [sleeps exists_calls unlink_calls
    flat_map app].
  exists n. repeat split; try assumption; [lia| ].
  rewrite Hs. assert (Hn4 : (n <= 4)%nat) by lia.
  destruct n as [|[|[|[|[|n]]]]]; try lia; vm_compute; discriminate.
Qed.

(** X2. While the file exists and [os.unlink] keeps raising
    [PermissionError], [safe_delete_file] makes all five attempts, sleeps
    after each but the last, doubling the delay from 0.1 seconds, collects
    garbage after each sleep, and returns [False]. *)
Theorem safe_delete_file_gives_up (L : Lib) (file_path : string) (w : World) :
  (forall h, os_path_exists L h file_path = true) ->
  (forall h, os_chmod L h file_path 511 = Ret tt) ->
  (forall h, exists e, os_unlink L h file_path = Raise e /\ is_permission_error e = true) ->
  let attempt := [EvExists file_path; EvChmod file_path 511; EvUnlink file_path] in
  let retry (i : Z) := attempt ++ [EvSleep (0.1 * pow2 i)%Q; EvGcCollect] in
  safe_delete_file L file_path w =
    (Ret false,
     MkWorld (whisper_stt w)
             (trace w ++ EvSafeDelete file_path ::
                retry 0 ++ retry 1 ++ retry 2 ++ retry 3 ++ attempt)).
Proof.
  intros Hex Hch Hun. cbv zeta. destruct w as [st h]. unfold safe_delete_file. eff_run.
  change (range 5) with [0; 1; 2; 3; 4]. cbn [safe_delete_loop].
  repeat (eff_run; norm_trace;
          first [ rewrite Hex
                | rewrite Hch
                | match goal with
                  | |- context [?a <? 5 - 1] =>
                      let b := eval vm_compute in (a <? 5 - 1) in
                      change (a <? 5 - 1) with b
                  end
                | match goal with
                  | |- context [os_unlink L ?h' file_path] =>
                      let e := fresh "e" in
                      let E := fresh "E" in
                      let P := fresh "P" in
                      destruct (Hun h') as (e & E & P); rewrite E; eff_run; rewrite P
                  end ]).
  eff_run. norm_trace. reflexivity.
Qed.

Lemma safe_delete_file_gives_up_witness :
  let file_path := "/tmp/whisper_1700000002_3.wav" in
  let attempt := [EvExists file_path; EvChmod file_path 511; EvUnlink file_path] in
  let retry (i : Z) := attempt ++ [EvSleep (0.1 * pow2 i)%Q; EvGcCollect] in
  safe_delete_file stubborn_lib file_path (boot stubborn_lib) =
    (Ret false,
     MkWorld (whisper_stt (boot stubborn_lib))
             (trace (boot stubborn_lib) ++ EvSafeDelete file_path ::
                retry 0 ++ retry 1 ++ retry 2 ++ retry 3 ++ attempt)).
Proof.
  apply (safe_delete_file_gives_up stubborn_lib "/tmp/whisper_1700000002_3.wav"
           (boot stubborn_lib)).
  - intros h. reflexivity.
  - intros h. reflexivity.
  - intros h. eexists. split; reflexivity.
Defined.

(** X3. [safe_delete_file] does not retry when there is nothing to retry:
    a file that is not there counts as deleted after the one look for it,
    and an exception of [os.unlink] other than [PermissionError] ends the
    call with [False] after the first attempt, without a sleep. *)
Theorem safe_delete_file_stops_at_once (L : Lib) (file_path : string) (w : World) :
  let h := trace w ++ [EvSafeDelete file_path] in
  (os_path_exists L h file_path = false ->
   safe_delete_file L file_path w =
     (Ret true, MkWorld (whisper_stt w) (h ++ [EvExists file_path]))) /\
  (forall e,
     os_path_exists L h file_path = true ->
     os_chmod L (h ++ [EvExists file_path]) file_path 511 = Ret tt ->
     os_unlink L (h ++ [EvExists file_path; EvChmod file_path 511]) file_path = Raise e ->
     is_permission_error e = false ->
     safe_delete_file L file_path w =
       (Ret false,
        MkWorld (whisper_stt w)
                (h ++ [EvExists file_path; EvChmod file_path 511; EvUnlink file_path]))).
Proof.
  cbv zeta. destruct w as [st h]. cbn [whisper_stt trace]. split.
  - intros Hex. unfold safe_delete_file. eff_run.
    change (range 5) with [0; 1; 2; 3; 4]. cbn [safe_delete_loop]. eff_run.
    rewrite Hex. eff_run. reflexivity.
  - intros e Hex Hch Hun Hperm. unfold safe_delete_file. eff_run.
    change (range 5) with [0; 1; 2; 3; 4]. cbn [safe_delete_loop]. eff_run.
    rewrite Hex. eff_run. rewrite Hch. eff_run. norm_trace.
    rewrite <- ?app_assoc in Hun. cbn [app] in Hun. rewrite Hun. eff_run.
    rewrite Hperm. eff_run. norm_trace. reflexivity.
Qed.

Lemma safe_delete_file_stops_at_once_witness :
  let file_path := "/tmp/whisper_1700000002_3.wav" in
  safe_delete_file vanishing_lib file_path (boot vanishing_lib) =
    (Ret true,
     MkWorld (whisper_stt (boot vanishing_lib))
             ((trace (boot vanishing_lib) ++ [EvSafeDelete file_path]) ++ [EvExists file_path])) /\
  safe_delete_file failing_disk_lib file_path (boot failing_disk_lib) =
    (Ret false,
     MkWorld (whisper_stt (boot failing_disk_lib))
             ((trace (boot failing_disk_lib) ++ [EvSafeDelete file_path]) ++
              [EvExists file_path; EvChmod file_path 511; EvUnlink file_path])).
Proof.
  split.
  - apply (proj1 (safe_delete_file_stops_at_once vanishing_lib "/tmp/whisper_1700000002_3.wav"
                    (boot vanishing_lib))).
    reflexivity.
  - apply (proj2 (safe_delete_file_stops_at_once failing_disk_lib
                    "/tmp/whisper_1700000002_3.wav" (boot failing_disk_lib))
                 (MkExn "OSError" "input/output error")); reflexivity.
Defined.

(** ** [_load_model]: what is selected, and what is loaded for it *)

Lemma new_events_mk (st st' : WhisperSTT) (h evs : list Event) :
  new_events (MkWorld st h) (MkWorld st' (h ++ evs)) = evs.
Proof. unfold new_events. cbn [trace]. apply drop_app_length. Qed.

Lemma new_events_same (st st' : WhisperSTT) (h : list Event) :
  new_events (MkWorld st h) (MkWorld st' h) = [].
Proof. unfold new_events. cbn [trace]. apply drop_all. Qed.

(** Runs [_load_model] on a world given by its parts, through every
    outcome of the loads it tries; [key] is the name it goes for. *)
Ltac load_model_cases L ms h key Em :=
  unfold _load_model; eff_run; fold key;
  destruct (ms !! key) as [[?m|]|] eqn:Em; eff_run;
  [ rewrite Em; eff_run
  | unfold load_into; eff_run;
    destruct (whisper_load_model L h key (device_of L)) as [?m|?e]; eff_run;
    [ rewrite lookup_insert_eq; eff_run
    | cbn [load_fallback]; unfold load_into;
      repeat (match goal with
              | |- context [String.eqb ?a key] => destruct (String.eqb a key)
              | |- context [whisper_load_model L ?h' ?n ?d] =>
                  destruct (whisper_load_model L h' n d) as [?m|?e]
              | |- context [<[?k := ?v]> ?m !! ?k] => rewrite lookup_insert_eq
              | |- context [ms !! key] => rewrite Em
              end; eff_run) ]
  | idtac ].

(** X4. [_load_model] fails only when the name it goes for (the requested
    one, or ['base'] for a name that is no key) is not in [self.models],
    and then changes nothing.  Otherwise it returns [True], the model it
    selects is the one stored under the selected size, the selected size is
    the name it went for or a fallback, and the loads it asked for are an
    initial part of: that name, then ['base'], ['tiny'], ['small'] without
    that name. *)
Theorem _load_model_outcome (L : Lib) (name : string) (w : World) :
  let key := if negb (in_dict name (self_models (whisper_stt w))) then "base" else name in
  let done := _load_model L name w in
  (self_models (whisper_stt w) !! key = None -> done = (Ret false, w)) /\
  (is_Some (self_models (whisper_stt w) !! key) ->
     fst done = Ret true /\
     coherent (whisper_stt (snd done)) /\
     self_model_size (whisper_stt (snd done)) ∈ load_plan key /\
     exists n, load_calls (new_events w (snd done)) = take n (load_plan key)).
Proof.
  destruct w as [[ms cur size] h]. cbv zeta. cbn [whisper_stt self_models].
  set (key := if negb (in_dict name ms) then "base" else name).
  unfold coherent, load_plan. cbn [List.filter].
  load_model_cases L ms h key Em.
  all: split; [intros Hnone; try discriminate; try reflexivity|intros [v Hv]; try discriminate].
  all: cbn [fst snd whisper_stt self_models self_model_size self_current_model].
  all: norm_trace; rewrite ?new_events_mk, ?new_events_same.
  all: cbn [load_plan List.filter negb load_calls flat_map app].
  all: repeat split;
    try (rewrite ?lookup_insert_eq; first [reflexivity | assumption]);
    try (repeat first [apply list_elem_of_here | apply list_elem_of_further]; fail).
  all: first [ exists 0%nat; reflexivity | exists 1%nat; reflexivity | exists 2%nat; reflexivity
             | exists 3%nat; reflexivity | exists 4%nat; reflexivity ].
Qed.

Lemma _load_model_outcome_witness :
  let done := _load_model flaky_lib "huge" (boot flaky_lib) in
  fst done = Ret true /\
  coherent (whisper_stt (snd done)) /\
  self_model_size (whisper_stt (snd done)) ∈ load_plan "base" /\
  exists n, load_calls (new_events (boot flaky_lib) (snd done)) = take n (load_plan "base").
Proof.
  apply (proj2 (_load_model_outcome flaky_lib "huge" (boot flaky_lib))).
  exists None. vm_compute. reflexivity.
Defined.

(** X5. When [whisper.load_model] raises for every model, [_load_model]
    still returns [True]: it has asked for the name it went for and for
    each fallback in turn, [self.models] is as before, the selected size is
    the name it went for, and no model is selected. *)
Theorem _load_model_without_any_model (L : Lib) (name : string) (w : World) :
  (forall h n d, exists e, whisper_load_model L h n d = Raise e) ->
  let key := if negb (in_dict name (self_models (whisper_stt w))) then "base" else name in
  self_models (whisper_stt w) !! key = Some None ->
  let done := _load_model L name w in
  fst done = Ret true /\
  whisper_stt (snd done) = MkWhisperSTT (self_models (whisper_stt w)) None key /\
  load_calls (new_events w (snd done)) = load_plan key.
Proof.
  intros Hfail. destruct w as [[ms cur size] h]. cbv zeta. cbn [whisper_stt self_models].
  set (key := if negb (in_dict name ms) then "base" else name). intros Em.
  unfold load_plan. cbn [List.filter].
  unfold _load_model. eff_run. fold key. rewrite Em. eff_run.
  unfold load_into. eff_run.
  destruct (Hfail h key (device_of L)) as [e0 E0]. rewrite E0. eff_run.
  cbn [load_fallback]. unfold load_into.
  repeat (match goal with
          | |- context [String.eqb ?a key] => destruct (String.eqb a key)
          | |- context [whisper_load_model L ?h' ?n ?d] =>
              let e := fresh "e" in
              let E := fresh "E" in
              destruct (Hfail h' n d) as [e E]; rewrite E
          | |- context [ms !! key] => rewrite Em
          end; eff_run).
  all: cbn [fst snd whisper_stt]; norm_trace; rewrite ?new_events_mk.
  all: repeat split.
Qed.

Lemma _load_model_without_any_model_witness :
  let done := _load_model deaf_lib "small" (boot deaf_lib) in
  fst done = Ret true /\
  whisper_stt (snd done) = MkWhisperSTT (self_models (whisper_stt (boot deaf_lib))) None "small" /\
  load_calls (new_events (boot deaf_lib) (snd done)) = load_plan "small".
Proof.
  apply (_load_model_without_any_model deaf_lib "small" (boot deaf_lib)).
  - intros h n d. eexists. reflexivity.
  - vm_compute. reflexivity.
Defined.

(** ** [transcribe_audio]: one transcription at most *)

Lemma transcribe_calls_before (language : option string) (evs : list Event) :
  Forall (before_transcribe language) evs -> transcribe_calls evs = [].
Proof.
  induction 1 as [|ev evs [Hev _] _ IH]; [reflexivity|].
  change (ev :: evs) with ([ev] ++ evs). rewrite transcribe_calls_app, Hev, IH. reflexivity.
Qed.

Lemma detect_calls_app (a b : list Event) :
  detect_calls (a ++ b) = detect_calls a ++ detect_calls b.
Proof. apply flat_map_app. Qed.

Lemma detect_calls_before (language : option string) (evs : list Event) :
  explicit_language language ->
  Forall (before_transcribe language) evs -> detect_calls evs = [].
Proof.
  intros He. induction 1 as [|ev evs [_ Hev] _ IH]; [reflexivity|].
  change (ev :: evs) with ([ev] ++ evs). rewrite detect_calls_app, (Hev He), IH. reflexivity.
Qed.

Lemma run_bind {S A B} (m : Eff.t S A) (k : A -> Eff.t S B) (s : S) :
  Eff.bind m k s =
    match m s with
    | (Ret a, s') => k a s'
    | (Raise e, s') => (Raise e, s')
    end.
Proof. reflexivity. Qed.

Lemma run_the_current_model (w : World) :
  the_current_model w =
    match self_current_model (whisper_stt w) with
    | Some m => (Ret m, w)
    | None => (Raise (AttributeError "'NoneType' object has no attribute"), w)
    end.
Proof.
  unfold the_current_model. rewrite run_bind. unfold get_stt, Eff.gets.
  destruct (self_current_model (whisper_stt w)); reflexivity.
Qed.

Lemma run_call {A} (ev : Event) (f : list Event -> Outcome A) (w : World) :
  call ev f w = (f (trace w), MkWorld (whisper_stt w) (trace w ++ [ev])).
Proof. reflexivity. Qed.

(** [transcribe_audio] after the model is in place: the calls before
    [model.transcribe], then that call if a model is selected, then
    nothing. *)
Lemma transcribe_loaded_shape (L : Lib) (path : string) (language : option string)
    (model_size : string) (high_accuracy : bool) (w : World) :
  let r := transcribe_loaded L path language model_size high_accuracy w in
  whisper_stt (snd r) = whisper_stt w /\
  exists pre,
    Forall (before_transcribe language) pre /\
    ((trace (snd r) = trace w ++ pre /\ forall er, fst r <> Ret (Some er)) \/
     (exists m audio lang detected confidence,
        self_current_model (whisper_stt w) = Some m /\
        trace (snd r) =
          trace w ++ pre ++
          [EvTranscribe m audio (decode_options L lang model_size high_accuracy)] /\
        (explicit_language language ->
           detected = None /\ confidence = 0.0%Q /\ language = Some lang) /\
        (~ explicit_language language -> detected = Some lang) /\
        forall er, fst r = Ret (Some er) ->
          exists result,
            enhance_result result audio lang detected confidence model_size = Ret er)).
Proof.
  cbv zeta.
  split; [apply (transcribe_loaded_same_stt L path language model_size high_accuracy w)|].
  unfold transcribe_loaded. rewrite run_bind.
  pose proof (preprocess_audio_extends L path (preserve_full path language) w) as (pre1 & T1 & F1).
  pose proof (preprocess_audio_same_stt L path (preserve_full path language) w) as S1.
  assert (B1 : Forall (before_transcribe language) pre1).
  { eapply Forall_impl; [exact F1|]. intros ev Hev.
    destruct ev; simpl in Hev; try contradiction; split; reflexivity. }
  destruct (preprocess_audio L path (preserve_full path language) w) as [[[audio|]|e] w1];
    cbn [snd] in T1, S1; unfold same_stt in S1.
  2: { exists pre1. split; [exact B1|]. left. split; [exact T1|]. intros er. discriminate. }
  2: { exists pre1. split; [exact B1|]. left. split; [exact T1|]. intros er. discriminate. }
  cbv zeta. rewrite run_bind.
  set (detect := let! (detected, confidence) := detect_language L audio in
                 Eff.ret (detected, Some detected, confidence)).
  assert (Hdetect : forall w0,
             exists evs,
               trace (snd (detect w0)) = trace w0 ++ evs /\
               whisper_stt (snd (detect w0)) = whisper_stt w0 /\
               Forall (fun ev => transcribe_calls [ev] = []) evs /\
               forall lang det conf, fst (detect w0) = Ret (lang, det, conf) -> det = Some lang).
  { intros w0. subst detect. rewrite run_bind.
    pose proof (detect_language_extends quiet (fun ev H => H) L audio w0) as (evs & T & F).
    pose proof (detect_language_same_stt L audio w0) as S0. unfold same_stt in S0.
    destruct (detect_language L audio w0) as [[[d c]|e] w0']; cbn [snd fst] in *.
    - exists evs. repeat split; try assumption.
      + eapply Forall_impl; [exact F|]. intros ev Hev.
        destruct ev; simpl in Hev; try contradiction; reflexivity.
      + intros lang det conf E. inversion E. reflexivity.
    - exists evs. repeat split; try assumption.
      + eapply Forall_impl; [exact F|]. intros ev Hev.
        destruct ev; simpl in Hev; try contradiction; reflexivity.
      + intros lang det conf E. discriminate. }
  assert (Hresolve :
            exists evs,
              let r2 := match language with
                        | Some l => if String.eqb l "auto" then detect
                                    else Eff.ret (l, None, 0.0%Q)
                        | None => detect
                        end w1 in
              trace (snd r2) = trace w1 ++ evs /\
              whisper_stt (snd r2) = whisper_stt w1 /\
              Forall (before_transcribe language) evs /\
              forall lang det conf, fst r2 = Ret (lang, det, conf) ->
                (explicit_language language ->
                   det = None /\ conf = 0.0%Q /\ language = Some lang) /\
                (~ explicit_language language -> det = Some lang)).
  { destruct language as [l|]; [destruct (String.eqb l "auto") eqn:El|].
    - destruct (Hdetect w1) as (evs & T & S0 & F & Hd). exists evs. cbv zeta.
      repeat split; try assumption.
      + eapply Forall_impl; [exact F|]. intros ev Hev. split; [exact Hev|].
        unfold explicit_language. rewrite El. discriminate.
      + unfold explicit_language in H0. rewrite El in H0. discriminate.
      + unfold explicit_language in H0. rewrite El in H0. discriminate.
      + unfold explicit_language in H0. rewrite El in H0. discriminate.
      + intros _. eapply Hd. eassumption.
    - exists []. cbv zeta. unfold Eff.ret. cbn [fst snd]. rewrite app_nil_r.
      repeat split; try constructor; inversion H; subst; try reflexivity.
      intros Hne. exfalso. apply Hne. exact El.
    - destruct (Hdetect w1) as (evs & T & S0 & F & Hd). exists evs. cbv zeta.
      repeat split; try assumption.
      + eapply Forall_impl; [exact F|]. intros ev Hev. split; [exact Hev|].
        intros [].
      + destruct H0.
      + destruct H0.
      + destruct H0.
      + intros _. eapply Hd. eassumption. }
  destruct Hresolve as (pre2 & Hr2). cbv zeta in Hr2.
  destruct (match language with
            | Some l => if String.eqb l "auto" then detect else Eff.ret (l, None, 0.0%Q)
            | None => detect
            end w1) as [[[[lang det] conf]|e] w2]; cbn [fst snd] in Hr2;
    destruct Hr2 as (T2 & S2 & B2 & Hl).
  2: { exists (pre1 ++ pre2). split; [apply Forall_app; split; assumption|].
       left. cbn [fst snd]. split; [rewrite T2, T1, app_assoc; reflexivity|intros er; discriminate]. }
  destruct (Hl lang det conf eq_refl) as [Hexp Hauto].
  rewrite run_bind, run_the_current_model, S2, S1.
  destruct (self_current_model (whisper_stt w)) as [m|] eqn:Em.
  2: { exists (pre1 ++ pre2). split; [apply Forall_app; split; assumption|].
       left. cbn [fst snd]. split; [rewrite T2, T1, app_assoc; reflexivity|intros er; discriminate]. }
  rewrite run_bind, run_call.
  exists (pre1 ++ pre2). split; [apply Forall_app; split; assumption|].
  right. exists m, audio, lang, det, conf.
  destruct (model_transcribe L (trace w2) m audio
              (decode_options L lang model_size high_accuracy)) as [result|e];
    cbn [fst snd trace whisper_stt].
  - rewrite run_bind. unfold Eff.lift at 1. cbv iota beta.
    destruct (enhance_result result audio lang det conf model_size) as [er0|e] eqn:Een;
      cbn [fst snd trace Eff.ret].
    + split; [reflexivity|]. split; [rewrite T2, T1, <- !app_assoc; reflexivity|].
      split; [exact Hexp|]. split; [exact Hauto|].
      intros er E. inversion E; subst. exists result. exact Een.
    + split; [reflexivity|]. split; [rewrite T2, T1, <- !app_assoc; reflexivity|].
      split; [exact Hexp|]. split; [exact Hauto|].
      intros er E. discriminate.
  - split; [reflexivity|]. split; [rewrite T2, T1, <- !app_assoc; reflexivity|].
    split; [exact Hexp|]. split; [exact Hauto|].
    intros er E. discriminate.
Qed.

Lemma enhance_result_fields (result : RawResult) (audio : Audio) (language : string)
    (detected : option string) (confidence : Q) (model_size : string) (er : EnhancedResult) :
  enhance_result result audio language detected confidence model_size = Ret er ->
  detected_language er = detected /\ language_confidence er = confidence /\
  result_language er = default language (raw_result_language result) /\
  result_text er = Py.strip (raw_result_text result).
Proof.
  unfold enhance_result.
  destruct (collect_segments (default [] (raw_result_segments result))) as [[segs total] count].
  unfold Py.and_then.
  repeat match goal with
         | |- context [match ?o with Ret _ => _ | Raise _ => _ end = _] =>
             destruct o; [|discriminate]
         end.
  intros E. inversion E. repeat split.
Qed.

Lemma _load_model_only_loads (L : Lib) (model_size : string) :
  steps (extends load_event) (_load_model L model_size).
Proof.
  pose proof (extends_refl load_event) as Hr.
  pose proof (extends_trans load_event) as Ht.
  assert (Hinto : forall name device, steps (extends load_event) (load_into L name device)).
  { intros name device. unfold load_into.
    steps_all Hr Ht ltac:(first [apply call_extends; exact I | apply set_stt_extends]). }
  assert (Hfall : forall device key names,
             steps (extends load_event) (load_fallback L device key names)).
  { intros device key names. induction names as [|n names IH]; simpl.
    - steps_all Hr Ht ltac:(first [apply call_extends; exact I | apply set_stt_extends]).
    - destruct (negb (String.eqb n key)); [|exact IH].
      steps_all Hr Ht ltac:(first [apply call_extends; exact I | apply set_stt_extends]);
        first [apply Hinto | exact IH]. }
  unfold _load_model, get_stt.
  steps_all Hr Ht ltac:(first [apply call_extends; exact I | apply set_stt_extends]);
    first [apply Hinto | apply Hfall].
Qed.

(** What one run of [transcribe_audio] does, given by a run of
    [transcribe_loaded] from the world [w0] the model selection left. *)
Lemma transcribe_audio_tail (L : Lib) (path : string) (language : option string)
    (model_size : string) (high_accuracy : bool) (w w0 : World) (pre0 : list Event) :
  trace w0 = trace w ++ pre0 ->
  Forall (before_transcribe language) pre0 ->
  let r := transcribe_loaded L path language model_size high_accuracy w0 in
  let evs := new_events w (snd r) in
  whisper_stt (snd r) = whisper_stt w0 /\
  (length (transcribe_calls evs) <= 1)%nat /\
  (explicit_language language -> detect_calls evs = []) /\
  (self_current_model (whisper_stt w0) = None ->
     (forall er, fst r <> Ret (Some er)) /\ transcribe_calls evs = []) /\
  forall er, fst r = Ret (Some er) ->
    length (transcribe_calls evs) = 1%nat /\
    self_current_model (whisper_stt w0) <> None /\
    result_model_size er = model_size /\
    (explicit_language language ->
       detected_language er = None /\ language_confidence er = 0.0%Q /\
       exists l, language = Some l /\
         transcribe_calls evs = [decode_options L l model_size high_accuracy]) /\
    (~ explicit_language language ->
       exists l, detected_language er = Some l /\
         transcribe_calls evs = [decode_options L l model_size high_accuracy]).
Proof.
  intros T0 B0.
  pose proof (transcribe_loaded_shape L path language model_size high_accuracy w0) as Hs.
  cbv zeta in Hs |- *.
  destruct (transcribe_loaded L path language model_size high_accuracy w0) as [o w1].
  cbn [fst snd] in Hs |- *.
  destruct Hs as (S1 & pre & B1 & [[T1 Hno]|(m & audio & lang & det & conf & Em & T1 & He & Ha & Hen)]).
  - assert (E : new_events w w1 = pre0 ++ pre).
    { apply new_events_app. rewrite T1, T0, app_assoc. reflexivity. }
    assert (B : Forall (before_transcribe language) (pre0 ++ pre))
      by (apply Forall_app; split; assumption).
    rewrite E. rewrite (transcribe_calls_before language _ B).
    split; [exact S1|]. split; [cbn; lia|].
    split; [intros Hex; apply (detect_calls_before language _ Hex B)|].
    split; [intros _; split; [exact Hno|reflexivity]|].
    intros er Eo. destruct (Hno er Eo).
  - assert (E : new_events w w1 =
                  (pre0 ++ pre) ++
                  [EvTranscribe m audio (decode_options L lang model_size high_accuracy)]).
    { apply new_events_app. rewrite T1, T0, <- !app_assoc. reflexivity. }
    assert (B : Forall (before_transcribe language) (pre0 ++ pre))
      by (apply Forall_app; split; assumption).
    rewrite E. rewrite transcribe_calls_app, detect_calls_app.
    rewrite (transcribe_calls_before language _ B). cbn [transcribe_calls detect_calls flat_map app length].
    split; [exact S1|]. split; [lia|].
    split; [intros Hex; rewrite (detect_calls_before language _ Hex B); reflexivity|].
    split; [intros En; rewrite En in Em; discriminate|].
    intros er Eo. destruct (Hen er Eo) as [result Een].
    destruct (enhance_result_fields _ _ _ _ _ _ _ Een) as (Fd & Fc & _).
    split; [reflexivity|]. split; [rewrite Em; discriminate|].
    split; [exact (enhance_result_model_size _ _ _ _ _ _ _ Een)|].
    split.
    + intros Hex. destruct (He Hex) as (-> & -> & ->).
      split; [exact Fd|]. split; [exact Fc|]. exists lang. split; reflexivity.
    + intros Hne. rewrite (Ha Hne) in Fd. exists lang. split; [exact Fd|reflexivity].
Qed.

(** One run of [transcribe_audio]: it never raises; the calls of
    [model.transcribe] and of the detection it makes; what a returned
    result says about them. *)
Lemma transcribe_audio_shape (L : Lib) (path : string)
    (language : option string) (model_size : string) (high_accuracy : bool) (w : World) :
  let done := transcribe_audio L path language model_size high_accuracy w in
  let evs := new_events w (snd done) in
  (exists o, fst done = Ret o) /\
  (length (transcribe_calls evs) <= 1)%nat /\
  (explicit_language language -> detect_calls evs = []) /\
  (self_current_model (whisper_stt (snd done)) = None ->
     fst done = Ret None /\ transcribe_calls evs = []) /\
  forall er, fst done = Ret (Some er) ->
    length (transcribe_calls evs) = 1%nat /\
    self_current_model (whisper_stt (snd done)) <> None /\
    result_model_size er = model_size /\
    (explicit_language language ->
       detected_language er = None /\ language_confidence er = 0.0%Q /\
       exists l, language = Some l /\
         transcribe_calls evs = [decode_options L l model_size high_accuracy]) /\
    (~ explicit_language language ->
       exists l, detected_language er = Some l /\
         transcribe_calls evs = [decode_options L l model_size high_accuracy]).
Proof.
  assert (Htail : forall w0 pre0,
             trace w0 = trace w ++ pre0 -> Forall (before_transcribe language) pre0 ->
             let r := transcribe_loaded L path language model_size high_accuracy w0 in
             let done := match r with
                         | (Ret a, s') => (Ret a, s')
                         | (Raise _, s') => (Ret None, s')
                         end in
             let evs := new_events w (snd done) in
             (exists o, fst done = Ret o) /\
             (length (transcribe_calls evs) <= 1)%nat /\
             (explicit_language language -> detect_calls evs = []) /\
             (self_current_model (whisper_stt (snd done)) = None ->
                fst done = Ret None /\ transcribe_calls evs = []) /\
             forall er, fst done = Ret (Some er) ->
               length (transcribe_calls evs) = 1%nat /\
               self_current_model (whisper_stt (snd done)) <> None /\
               result_model_size er = model_size /\
               (explicit_language language ->
                  detected_language er = None /\ language_confidence er = 0.0%Q /\
                  exists l, language = Some l /\
                    transcribe_calls evs = [decode_options L l model_size high_accuracy]) /\
               (~ explicit_language language ->
                  exists l, detected_language er = Some l /\
                    transcribe_calls evs = [decode_options L l model_size high_accuracy])).
  { intros w0 pre0 T0 B0.
    pose proof (transcribe_audio_tail L path language model_size high_accuracy w w0 pre0 T0 B0)
      as H.
    cbv zeta in H |- *.
    destruct (transcribe_loaded L path language model_size high_accuracy w0) as [[[er0|]|e] w1];
      cbn [fst snd] in H |- *; destruct H as (S1 & Hle & Hdet & Hnone & Hres); rewrite S1.
    - split; [eexists; reflexivity|]. split; [exact Hle|]. split; [exact Hdet|].
      split; [intros En; destruct (proj1 (Hnone En) er0 eq_refl)|].
      intros er E. inversion E; subst. apply Hres. reflexivity.
    - split; [eexists; reflexivity|]. split; [exact Hle|]. split; [exact Hdet|].
      split; [intros En; split; [reflexivity|apply (Hnone En)]|].
      intros er E. discriminate.
    - split; [eexists; reflexivity|]. split; [exact Hle|]. split; [exact Hdet|].
      split; [intros En; split; [reflexivity|apply (Hnone En)]|].
      intros er E. discriminate. }
  cbv zeta in Htail |- *. unfold transcribe_audio. eff_run.
  destruct (String.eqb model_size (self_model_size (whisper_stt w))); eff_run.
  - apply (Htail w []); [symmetry; apply app_nil_r|constructor].
  - pose proof (_load_model_only_loads L model_size w) as (pre0 & T0 & F0).
    assert (B0 : Forall (before_transcribe language) pre0).
    { eapply Forall_impl; [exact F0|]. intros ev Hev.
      destruct ev; simpl in Hev; try contradiction; split; reflexivity. }
    destruct (_load_model L model_size w) as [[[|]|e] w0]; cbn [snd] in T0; eff_run.
    + apply (Htail w0 pre0 T0 B0).
    + rewrite (new_events_app _ _ _ T0), (transcribe_calls_before language _ B0).
      split; [eexists; reflexivity|]. split; [cbn; lia|].
      split; [intros Hex; apply (detect_calls_before language _ Hex B0)|].
      split; [intros _; split; reflexivity|]. intros er E. discriminate.
    + rewrite (new_events_app _ _ _ T0), (transcribe_calls_before language _ B0).
      split; [eexists; reflexivity|]. split; [cbn; lia|].
      split; [intros Hex; apply (detect_calls_before language _ Hex B0)|].
      split; [intros _; split; reflexivity|]. intros er E. discriminate.
Qed.

(** X6. One call of [transcribe_audio] never raises and calls
    [model.transcribe] at most once, and not at all when no model is
    selected afterwards: it then returns [None]. A returned result
    comes from exactly one transcription, by a selected model, and
    carries the model size that was asked for. *)
Theorem transcribe_audio_transcribes_once (L : Lib) (path : string)
    (language : option string) (model_size : string) (high_accuracy : bool) (w : World) :
  let done := transcribe_audio L path language model_size high_accuracy w in
  let evs := new_events w (snd done) in
  (exists o, fst done = Ret o) /\
  (length (transcribe_calls evs) <= 1)%nat /\
  (self_current_model (whisper_stt (snd done)) = None ->
     fst done = Ret None /\ transcribe_calls evs = []) /\
  forall er, fst done = Ret (Some er) ->
    length (transcribe_calls evs) = 1%nat /\
    self_current_model (whisper_stt (snd done)) <> None /\
    result_model_size er = model_size.
Proof.
  cbv zeta.
  destruct (transcribe_audio_shape L path language model_size high_accuracy w)
    as (Hret & Hle & _ & Hnone & Hres).
  split; [exact Hret|]. split; [exact Hle|]. split; [exact Hnone|].
  intros er E. destruct (Hres er E) as (H1 & Hm & Hsize & _).
  split; [exact H1|]. split; [exact Hm|exact Hsize].
Qed.

Lemma transcribe_audio_transcribes_once_witness :
  exists er,
    fst (transcribe_audio sample_lib "clip.wav" (Some "en") "base" true (boot sample_lib))
      = Ret (Some er) /\
    result_model_size er = "base".
Proof.
  eexists. split; [vm_compute; reflexivity|].
  apply (transcribe_audio_transcribes_once sample_lib "clip.wav" (Some "en") "base" true
           (boot sample_lib)).
  vm_compute. reflexivity.
Defined.


(** ** [detect_language]: the fallback *)

(** X7. [detect_language] never raises and leaves the server state
    alone. It asks the model at most once. Its answer is either the
    fallback [('en', 0.5)], or the language [max] picks from the
    probabilities the selected model returned, which are then not
    empty, with the probability stored under it. Without a selected
    model the answer is the fallback and the model is not asked. *)
Theorem detect_language_falls_back (L : Lib) (audio : Audio) (w : World) :
  let done := detect_language L audio w in
  let evs := new_events w (snd done) in
  whisper_stt (snd done) = whisper_stt w /\
  (fst done = Ret ("en", 0.5%Q) /\ (length (detect_calls evs) <= 1)%nat \/
   exists m mel probs lang confidence,
     self_current_model (whisper_stt w) = Some m /\
     detect_calls evs = [m] /\
     model_detect_language L (trace w ++ removelast evs) m mel = Ret probs /\
     probs <> [] /\
     max_key probs = Ret lang /\
     dict_get probs lang = Some confidence /\
     fst done = Ret (lang, confidence)) /\
  (self_current_model (whisper_stt w) = None ->
     fst done = Ret ("en", 0.5%Q) /\ detect_calls evs = []).
Proof.
  cbv zeta. destruct w as [[ms cur size] h].
  unfold detect_language. eff_run.
  destruct (whisper_pad_or_trim L audio) as [tensor|e]; eff_run.
  2: { rewrite new_events_mk. split; [reflexivity|]. split; [left; split; [reflexivity|cbn; lia]|].
       intros _; split; reflexivity. }
  destruct (whisper_log_mel_spectrogram L tensor) as [mel0|e]; eff_run.
  2: { norm_trace. rewrite new_events_mk. split; [reflexivity|].
       split; [left; split; [reflexivity|cbn; lia]|].
       intros _; split; reflexivity. }
  destruct cur as [m|]; eff_run.
  2: { norm_trace. rewrite new_events_mk. split; [reflexivity|].
       split; [left; split; [reflexivity|cbn; lia]|].
       intros _; split; reflexivity. }
  destruct (tensor_to L mel0 (model_device m)) as [mel|e]; eff_run.
  2: { norm_trace. rewrite new_events_mk. split; [reflexivity|].
       split; [left; split; [reflexivity|cbn; lia]|].
       discriminate. }
  norm_trace.
  destruct (model_detect_language L (h ++ [EvPadOrTrim; EvLogMel; EvToDevice (model_device m)])
              m mel) as [probs|e] eqn:Ep; eff_run.
  2: { norm_trace. rewrite new_events_mk. split; [reflexivity|].
       split; [left; split; [reflexivity|cbn; lia]|].
       discriminate. }
  norm_trace.
  destruct (max_key probs) as [lang|e] eqn:Emax; eff_run.
  2: { rewrite new_events_mk. split; [reflexivity|].
       split; [left; split; [reflexivity|cbn; lia]|].
       discriminate. }
  unfold dict_item.
  destruct (dict_get probs lang) as [confidence|] eqn:Eget; eff_run.
  2: { rewrite new_events_mk. split; [reflexivity|].
       split; [left; split; [reflexivity|cbn; lia]|].
       discriminate. }
  rewrite new_events_mk. split; [reflexivity|].
  split; [|discriminate].
  right. exists m, mel, probs, lang, confidence.
  split; [reflexivity|]. split; [reflexivity|]. split; [exact Ep|].
  split; [intros ->; discriminate|].
  split; [exact Emax|]. split; [exact Eget|reflexivity].
Qed.

(** ** [max(probs, key=probs.get)]: the first of the greatest *)

Lemma le_gt_false (x y : Q) : (x <= y)%Q -> Py.gt x y = false.
Proof.
  intros H. unfold Py.gt. apply negb_false_iff. apply Qle_bool_iff. exact H.
Qed.

Lemma lt_gt_true (x y : Q) : (y < x)%Q -> Py.gt x y = true.
Proof.
  intros H. destruct (Py.gt x y) eqn:E; [reflexivity|].
  apply gt_false_le in E. exfalso. apply (Qlt_not_le _ _ H E).
Qed.

(** A best key that no later key beats is kept. *)
Lemma max_from_keeps (f : string -> option Q) (keys : list string) (best : string) (vb : Q) :
  f best = Some vb ->
  Forall (fun k => exists v, f k = Some v /\ (v <= vb)%Q) keys ->
  max_from f best keys = Ret best.
Proof.
  intros Hb. induction 1 as [|k keys (v & Hk & Hle) _ IH]; [reflexivity|].
  simpl. rewrite Hk, Hb. simpl. rewrite (le_gt_false _ _ Hle). exact IH.
Qed.

(** The first key with the greatest value wins over the keys before it. *)
Lemma max_from_first (f : string -> option Q) (before after : list string)
    (r : string) (c : Q) :
  f r = Some c ->
  Forall (fun k => exists v, f k = Some v /\ (v <= c)%Q) after ->
  Forall (fun k => exists v, f k = Some v /\ (v < c)%Q) before ->
  forall best vb, f best = Some vb -> (vb < c)%Q ->
  max_from f best (before ++ r :: after) = Ret r.
Proof.
  intros Hr Hafter. induction 1 as [|k before (v & Hk & Hlt) _ IH]; intros best vb Hb Hvb.
  - simpl. rewrite Hr, Hb. simpl. rewrite (lt_gt_true _ _ Hvb).
    apply (max_from_keeps f after r c Hr Hafter).
  - simpl. rewrite Hk, Hb. simpl.
    destruct (Py.gt v vb); [apply (IH k v Hk Hlt)|apply (IH best vb Hb Hvb)].
Qed.

(** [max] returns the first of the keys with the greatest value. *)
Lemma max_key_split (before after : list (string * Q))
    (lang : string) (confidence : Q) :
  NoDup (map fst (before ++ (lang, confidence) :: after)) ->
  Forall (fun item => (snd item < confidence)%Q) before ->
  Forall (fun item => (snd item <= confidence)%Q) after ->
  max_key (before ++ (lang, confidence) :: after) = Ret lang.
Proof.
  intros Hnd Hbefore Hafter.
  set (probs := before ++ (lang, confidence) :: after) in *.
  assert (Hget : forall k v, (k, v) ∈ probs -> dict_get probs k = Some v)
    by (intros k v; apply elem_of_dict_get; exact Hnd).
  assert (Hr : dict_get probs lang = Some confidence).
  { apply Hget. subst probs. apply elem_of_app. right. left. }
  assert (Ha : Forall (fun k => exists v, dict_get probs k = Some v /\ (v <= confidence)%Q)
                 (map fst after)).
  { apply Forall_fmap. apply Forall_forall. intros [k v] Hin. exists v. split.
    - apply Hget. subst probs. apply elem_of_app. right. right. exact Hin.
    - apply (proj1 (Forall_forall _ _) Hafter (k, v) Hin). }
  assert (Hb : Forall (fun k => exists v, dict_get probs k = Some v /\ (v < confidence)%Q)
                 (map fst before)).
  { apply Forall_fmap. apply Forall_forall. intros [k v] Hin. exists v. split.
    - apply Hget. subst probs. apply elem_of_app. left. exact Hin.
    - apply (proj1 (Forall_forall _ _) Hbefore (k, v) Hin). }
  unfold max_key. subst probs. rewrite map_app. cbn [map fst].
  destruct before as [|[k0 v0] before]; cbn [map fst app].
  - apply (max_from_keeps _ _ _ confidence Hr Ha).
  - cbn [map fst] in Hb. inversion Hb as [|? ? (v & Hk0 & Hv) Hb']; subst.
    apply (max_from_first _ _ _ _ confidence Hr Ha Hb' k0 v Hk0 Hv).
Qed.

(** ** The state of the server stays sound *)

Lemma keeps_sound_refl (w : World) : keeps_sound w w.
Proof.
  exists []. split; [symmetry; apply app_nil_r|].
  intros H. split; [exact H|constructor].
Qed.

Lemma keeps_sound_trans (w1 w2 w3 : World) :
  keeps_sound w1 w2 -> keeps_sound w2 w3 -> keeps_sound w1 w3.
Proof.
  intros (e1 & T1 & H1) (e2 & T2 & H2). exists (e1 ++ e2).
  split; [rewrite T2, T1, app_assoc; reflexivity|].
  intros Hs. destruct (H1 Hs) as [Hs2 K1]. destruct (H2 Hs2) as [Hs3 K2].
  split; [exact Hs3|]. unfold known_loads. rewrite load_calls_app.
  apply Forall_app. split; assumption.
Qed.

Lemma load_calls_no_load (evs : list Event) : Forall no_load evs -> load_calls evs = [].
Proof.
  induction 1 as [|ev evs Hev _ IH]; [reflexivity|].
  change (ev :: evs) with ([ev] ++ evs). rewrite load_calls_app, Hev, IH. reflexivity.
Qed.

(** Calls that load no model and leave [whisper_stt] alone keep the
    state sound. *)
Lemma no_load_keeps_sound (w w' : World) :
  extends no_load w w' -> same_stt w w' -> keeps_sound w w'.
Proof.
  intros (evs & T & F) Hs. exists evs. split; [exact T|].
  unfold same_stt in Hs. rewrite Hs. intros H. split; [exact H|].
  unfold known_loads. rewrite (load_calls_no_load evs F). constructor.
Qed.

Lemma own_call_no_load (ev : Event) : own_call ev -> no_load ev.
Proof. destruct ev; simpl; intros H; try contradiction; reflexivity. Qed.

Lemma own_calls_keep_sound (w : World) (evs : list Event) :
  Forall own_call evs -> keeps_sound w (MkWorld (whisper_stt w) (trace w ++ evs)).
Proof.
  intros F. apply no_load_keeps_sound; [|reflexivity].
  exists evs. split; [reflexivity|]. eapply Forall_impl; [exact F|]. apply own_call_no_load.
Qed.

Lemma transcribe_loaded_no_load (L : Lib) (path : string) (language : option string)
    (model_size : string) (high_accuracy : bool) :
  steps (extends no_load) (transcribe_loaded L path language model_size high_accuracy).
Proof.
  pose proof (extends_refl no_load) as Hr.
  pose proof (extends_trans no_load) as Ht.
  unfold transcribe_loaded, preprocess_audio, detect_language, the_current_model, get_stt.
  steps_all Hr Ht ltac:(apply call_extends; reflexivity).
Qed.

(** [_load_model] on a sound state: the state stays sound, and the
    models it asks for are known ones. *)
Lemma _load_model_sound (L : Lib) (name : string) (w : World) :
  sound (whisper_stt w) ->
  sound (whisper_stt (snd (_load_model L name w))) /\
  known_loads (new_events w (snd (_load_model L name w))).
Proof.
  intros [Hk Hc]. split; [split; [apply _load_model_keys; exact Hk|]|].
  - destruct w as [[ms cur size] h]. unfold coherent in *.
    cbn [whisper_stt self_models self_model_size self_current_model] in Hc.
    set (key := if negb (in_dict name ms) then "base" else name).
    load_model_cases L ms h key Em.
    all: cbn [fst snd whisper_stt self_models self_model_size self_current_model].
    all: rewrite ?lookup_insert_eq; first [reflexivity | assumption].
  - destruct w as [[ms cur size] h]. unfold keys_ok in Hk. cbn [whisper_stt self_models] in Hk.
    set (key := if negb (in_dict name ms) then "base" else name).
    assert (Hkey : in_list key model_names = true).
    { subst key. destruct (in_dict name ms) eqn:E; cbn [negb];
        [rewrite <- (Hk name); exact E|reflexivity]. }
    unfold known_loads.
    load_model_cases L ms h key Em.
    all: cbn [fst snd]; norm_trace; rewrite ?new_events_mk, ?new_events_same.
    all: cbn [load_calls flat_map app].
    all: repeat first [apply List.Forall_nil | apply List.Forall_cons];
      first [exact Hkey | reflexivity].
Qed.

Lemma _load_model_keeps_sound (L : Lib) (name : string) :
  steps keeps_sound (_load_model L name).
Proof.
  intros w. destruct (_load_model_only_loads L name w) as (evs & T & _).
  exists evs. split; [exact T|]. intros Hs.
  destruct (_load_model_sound L name w Hs) as [Hs' K].
  rewrite (new_events_app _ _ _ T) in K. split; assumption.
Qed.

Lemma transcribe_audio_keeps_sound (L : Lib) (path : string) (language : option string)
    (model_size : string) (high_accuracy : bool) :
  steps keeps_sound (transcribe_audio L path language model_size high_accuracy).
Proof.
  unfold transcribe_audio.
  apply (steps_try_except _ keeps_sound_trans);
    [|intros e; apply (steps_ret _ keeps_sound_refl)].
  apply (steps_bind _ keeps_sound_trans); [apply (steps_gets _ keeps_sound_refl)|intros st _].
  apply (steps_bind _ keeps_sound_trans).
  { destruct (negb _); [apply _load_model_keeps_sound|apply (steps_ret _ keeps_sound_refl)]. }
  intros loaded _. destruct loaded; simpl; [|apply (steps_ret _ keeps_sound_refl)].
  intros w. apply no_load_keeps_sound.
  - apply transcribe_loaded_no_load.
  - apply transcribe_loaded_same_stt.
Qed.

Lemma transcribe_endpoint_keeps_sound (L : Lib) (req : TranscribeRequest) (w : World) :
  keeps_sound w (snd (transcribe_endpoint L req w)).
Proof.
  apply (transcribe_endpoint_on_world L keeps_sound keeps_sound_refl keeps_sound_trans
           own_calls_keep_sound).
  intros path. apply transcribe_audio_keeps_sound.
Qed.

(** ** [/batch-transcribe], step by step *)

Section BatchSteps.

Context (L : Lib) (R : World -> World -> Prop)
        (R_refl : forall w, R w w)
        (R_trans : forall w1 w2 w3, R w1 w2 -> R w2 w3 -> R w1 w3).
Context (R_own : forall w evs,
            Forall own_call evs -> R w (MkWorld (whisper_stt w) (trace w ++ evs))).
Context (R_transcribe : forall path language model_size high_accuracy,
            steps R (transcribe_audio L path language model_size high_accuracy)).

Lemma on_batch_refl (f : BatchFrame) : on_batch R f f.
Proof. apply R_refl. Qed.

Lemma on_batch_trans (f1 f2 f3 : BatchFrame) :
  on_batch R f1 f2 -> on_batch R f2 f3 -> on_batch R f1 f3.
Proof. apply R_trans. Qed.

Lemma in_batch_on_batch {A} (m : Eff.t World A) :
  steps R m -> steps (on_batch R) (in_batch m).
Proof.
  intros Hm [w res paths]. unfold on_batch, in_batch, Eff.zoom. cbn [batch_world].
  specialize (Hm w). destruct (m w) as [o w']. exact Hm.
Qed.

Lemma safe_delete_file_steps (file_path : string) : steps R (safe_delete_file L file_path).
Proof.
  intros w. destruct (safe_delete_file_spec L file_path w) as (b & evs & E & F).
  rewrite E. cbn [snd]. apply R_own. constructor; [exact I|].
  eapply Forall_impl; [exact F|]. apply delete_call_own.
Qed.

Lemma batch_file_steps (language model_size : string) (i : Z) (audio_file : UploadFile) :
  steps (on_batch R) (batch_file L language model_size i audio_file).
Proof.
  assert (Hcall : forall A ev (f : list Event -> Outcome A),
             own_call ev -> steps (on_batch R) (in_batch (call ev f))).
  { intros A ev f Hev. apply in_batch_on_batch. intros w. apply (R_own w [ev]).
    constructor; [exact Hev|constructor]. }
  unfold batch_file, results_append.
  steps_all on_batch_refl on_batch_trans
    ltac:(first [ apply Hcall; exact I
                | apply in_batch_on_batch; intros ?; unfold mkstemp; apply (R_own _ [_]);
                  constructor; [exact I|constructor]
                | apply in_batch_on_batch; apply R_transcribe
                | apply in_batch_on_batch; apply safe_delete_file_steps
                | intros ?; apply R_refl ]).
Qed.

Lemma batch_transcribe_steps (audio_files : list UploadFile) (language model_size : string)
    (w : World) :
  R w (snd (batch_transcribe L audio_files language model_size w)).
Proof.
  unfold batch_transcribe.
  destruct (10 <? Z.of_nat (length audio_files)); [apply R_refl|].
  unfold Eff.bind at 1.
  pose proof (steps_for_each (on_batch R) on_batch_refl on_batch_trans
                (enumerate_from 0 audio_files)
                (fun item => batch_file L language model_size (fst item) (snd item))
                (fun item => batch_file_steps language model_size (fst item) (snd item))
                (MkBatchFrame w [] [])) as H.
  destruct (Eff.for_each (enumerate_from 0 audio_files)
              (fun item => batch_file L language model_size (fst item) (snd item))
              (MkBatchFrame w [] [])) as [[[]|e] f]; exact H.
Qed.

End BatchSteps.

Lemma batch_transcribe_keeps_sound (L : Lib) (audio_files : list UploadFile)
    (language model_size : string) (w : World) :
  keeps_sound w (snd (batch_transcribe L audio_files language model_size w)).
Proof.
  apply (batch_transcribe_steps L keeps_sound keeps_sound_refl keeps_sound_trans
           own_calls_keep_sound).
  intros path lang size high_accuracy. apply transcribe_audio_keeps_sound.
Qed.

Lemma serve_keeps_sound (L : Lib) (r : Request) (w : World) : keeps_sound w (serve L r w).
Proof.
  destruct r as [req|audio_files language model_size|T]; cbn [serve].
  - apply transcribe_endpoint_keeps_sound.
  - apply batch_transcribe_keeps_sound.
  - apply keeps_sound_refl.
Qed.

Lemma coherent_fresh : coherent fresh_stt.
Proof. vm_compute. reflexivity. Qed.

Lemma boot_sound (L : Lib) :
  sound (whisper_stt (boot L)) /\ known_loads (trace (boot L)).
Proof.
  unfold boot, init_stt. eff_run.
  destruct (_load_model_sound L "base" (MkWorld fresh_stt []))
    as [Hs K]; [split; [exact keys_ok_fresh|exact coherent_fresh]|].
  split; [exact Hs|]. unfold new_events in K. cbn [trace length drop] in K. exact K.
Qed.

Lemma served_sound (L : Lib) (rs : list Request) :
  sound (whisper_stt (served L rs)) /\ known_loads (trace (served L rs)).
Proof.
  unfold served. generalize (boot_sound L). generalize (boot L).
  induction rs as [|r rs IH]; intros w [Hs K]; [split; assumption|].
  cbn [fold_left]. apply IH.
  destruct (serve_keeps_sound L r w) as (evs & T & H). destruct (H Hs) as [Hs' K'].
  split; [exact Hs'|]. rewrite T. unfold known_loads. rewrite load_calls_app.
  apply Forall_app. split; assumption.
Qed.

(** X8. Whatever requests the server has handled since it started, one
    after the other: the keys of [self.models] are the twelve model
    names, the selected model is the one [self.models] holds under the
    selected size, and every name that was passed to
    [whisper.load_model] is one of the twelve. *)
Theorem server_stays_sound (L : Lib) (rs : list Request) :
  let st := whisper_stt (served L rs) in
  (forall name, in_dict name (self_models st) = in_list name model_names) /\
  self_models st !! self_model_size st = Some (self_current_model st) /\
  Forall (fun name => in_list name model_names = true) (load_calls (trace (served L rs))).
Proof.
  cbv zeta. destruct (served_sound L rs) as [[Hk Hc] K].
  split; [exact Hk|]. split; [exact Hc|exact K].
Qed.

(** ** [/health] *)

Lemma elem_of_loaded_keys (d : gmap string (option Model)) (k : string) :
  k ∈ loaded_keys d <-> exists m, d !! k = Some (Some m).
Proof.
  unfold loaded_keys. rewrite list_elem_of_fmap. split.
  - intros ([k' v] & -> & Hin). apply list_elem_of_In in Hin. apply filter_In in Hin.
    destruct Hin as [Hin Hv]. apply list_elem_of_In in Hin.
    apply elem_of_map_to_list in Hin. cbn [fst snd] in *.
    destruct v as [m|]; [|discriminate]. exists m. exact Hin.
  - intros [m Hm]. exists (k, Some m). split; [reflexivity|].
    apply list_elem_of_In. apply filter_In. split; [|reflexivity].
    apply list_elem_of_In. apply elem_of_map_to_list. exact Hm.
Qed.

Lemma NoDup_filter_fst {A B} (f : A * B -> bool) (l : list (A * B)) :
  NoDup (map fst l) -> NoDup (map fst (List.filter f l)).
Proof.
  induction l as [|x l IH]; intros Hnd; [constructor|].
  cbn [map] in Hnd. apply NoDup_cons in Hnd as [Hx Hnd].
  cbn [List.filter]. destruct (f x); [|apply IH; exact Hnd].
  cbn [map]. apply NoDup_cons. split; [|apply IH; exact Hnd].
  intros Hin. apply Hx. apply list_elem_of_fmap in Hin as (y & E & Hy).
  apply list_elem_of_fmap. exists y. split; [exact E|].
  apply list_elem_of_In in Hy. apply filter_In in Hy. apply list_elem_of_In. apply Hy.
Qed.

(** X9. [/health] changes nothing.  On a server that has handled any
    requests since it started, the [current_model] it reports is one
    of the twelve model names, [loaded_models] lists each loaded model
    once and only names among the twelve, and [current_model] is in
    [loaded_models] exactly when a model is selected: after loads that
    all failed, [/health] reports a current model that is not loaded. *)
Theorem health_check_reports (L : Lib) (T : TorchCuda) (rs : list Request) :
  let w := served L rs in
  exists h,
    health_check L T w = (Ret h, w) /\
    in_list (health_current_model h) model_names = true /\
    Forall (fun name => in_list name model_names = true) (health_loaded_models h) /\
    NoDup (health_loaded_models h) /\
    (health_current_model h ∈ health_loaded_models h <->
     self_current_model (whisper_stt w) <> None).
Proof.
  cbv zeta. destruct (served_sound L rs) as [[Hk Hc] _].
  generalize dependent (served L rs). intros w Hk Hc.
  eexists. split; [reflexivity|]. cbn [health_current_model health_loaded_models].
  unfold coherent in Hc. unfold keys_ok in Hk.
  split; [|split; [|split]].
  - rewrite <- Hk. unfold in_dict. rewrite Hc. reflexivity.
  - apply Forall_forall. intros name Hin. apply elem_of_loaded_keys in Hin as [m Hm].
    rewrite <- Hk. unfold in_dict. rewrite Hm. reflexivity.
  - unfold loaded_keys. apply NoDup_filter_fst. apply NoDup_fst_map_to_list.
  - rewrite elem_of_loaded_keys, Hc. split.
    + intros [m Hm]. inversion Hm as [E]. rewrite E. discriminate.
    + intros Hne. destruct (self_current_model (whisper_stt w)) as [m|]; [|congruence].
      exists m. reflexivity.
Qed.

(** ** [/batch-transcribe]: one entry for each file *)

Lemma transcribe_audio_total (L : Lib) (path : string) (language : option string)
    (model_size : string) (high_accuracy : bool) (w : World) :
  exists o, fst (transcribe_audio L path language model_size high_accuracy w) = Ret o.
Proof.
  unfold transcribe_audio, Eff.try_except.
  match goal with |- context [match ?m w with _ => _ end] => destruct (m w) as [[r|e] w'] end;
    eexists; reflexivity.
Qed.

Ltac batch_run :=
  cbv beta iota zeta delta
    [Eff.try_except Eff.bind Eff.ret Eff.raise Eff.gets Eff.modify Eff.lift Eff.zoom
     in_batch results_append call mkstemp];
  cbn [batch_world results batch_temp_files whisper_stt trace fst snd].

(** The body of the loop never raises and appends exactly one entry,
    about its file. *)
Lemma batch_file_appends (L : Lib) (language model_size : string) (i : Z)
    (audio_file : UploadFile) (f : BatchFrame) :
  exists entry w' paths,
    batch_file L language model_size i audio_file f =
      (Ret tt, MkBatchFrame w' (results f ++ [entry]) paths) /\
    entry_of i audio_file entry.
Proof.
  assert (Hfail : forall msg, entry_of i audio_file
                    (MkBatchEntry false None (Some (filename audio_file)) (Some msg))).
  { intros msg. right. repeat split. discriminate. }
  destruct f as [[st h] res paths0]. unfold batch_file. batch_run.
  destruct (upload_read L h audio_file) as [content|e]; batch_run;
    [|eexists _, _, _; split; [reflexivity|apply Hfail]].
  match goal with
  | |- context [tempfile_mkstemp L ?h' ?sfx ?pfx] =>
      destruct (tempfile_mkstemp L h' sfx pfx) as [[temp_fd temp_file_path]|e]
  end; batch_run; [|eexists _, _, _; split; [reflexivity|apply Hfail]].
  match goal with
  | |- context [os_fdopen_write L ?h' ?fd ?c] => destruct (os_fdopen_write L h' fd c) as [[]|e]
  end; batch_run; [|eexists _, _, _; split; [reflexivity|apply Hfail]].
  match goal with
  | |- context [transcribe_audio L ?p ?l ?ms ?ha ?w] =>
      destruct (transcribe_audio_total L p l ms ha w) as [o Ho];
      destruct (transcribe_audio L p l ms ha w) as [o' w1]; cbn [fst] in Ho; subst o'
  end.
  destruct o as [er|]; batch_run; cbn [Eff.for_each app]; batch_run.
  - destruct (safe_delete_file_spec L temp_file_path w1) as (b & evs & E & _).
    rewrite E. batch_run.
    eexists _, _, _. split; [reflexivity|]. left. repeat split. eexists. reflexivity.
  - destruct (safe_delete_file_spec L temp_file_path w1) as (b & evs & E & _).
    rewrite E. batch_run.
    eexists _, _, _. split; [reflexivity|apply Hfail].
Qed.

Lemma batch_loop_appends (L : Lib) (language model_size : string)
    (audio_files : list UploadFile) (i : Z) (f : BatchFrame) :
  exists entries w' paths,
    Eff.for_each (enumerate_from i audio_files)
      (fun item => batch_file L language model_size (fst item) (snd item)) f =
      (Ret tt, MkBatchFrame w' (results f ++ entries) paths) /\
    Forall2 (fun item entry => entry_of (fst item) (snd item) entry)
            (enumerate_from i audio_files) entries.
Proof.
  revert i f. induction audio_files as [|audio_file rest IH]; intros i f.
  - exists [], (batch_world f), (batch_temp_files f). destruct f as [w res paths].
    cbn [enumerate_from Eff.for_each]. unfold Eff.ret. cbn [results batch_world batch_temp_files].
    rewrite app_nil_r. split; [reflexivity|constructor].
  - cbn [enumerate_from Eff.for_each]. unfold Eff.bind at 1. cbn [fst snd].
    destruct (batch_file_appends L language model_size i audio_file f)
      as (entry & w1 & paths1 & E & He).
    rewrite E.
    destruct (IH (i + 1) (MkBatchFrame w1 (results f ++ [entry]) paths1))
      as (entries & w2 & paths2 & E2 & H2).
    rewrite E2. cbn [results]. exists (entry :: entries), w2, paths2.
    rewrite <- app_assoc. split; [reflexivity|]. constructor; [exact He|exact H2].
Qed.

Lemma count_successful_bounds (entries : list BatchEntry) :
  0 <= count_successful entries <= Z.of_nat (length entries).
Proof.
  unfold count_successful. split; [lia|].
  apply inj_le. induction entries as [|entry entries IH]; [reflexivity|].
  cbn [List.filter]. destruct (entry_success entry); cbn [length]; lia.
Qed.

(** X10. [/batch-transcribe] always answers.  Over ten files it
    answers 400 'Too many files' and does nothing.  Otherwise it
    answers 200 with [success] true, whatever happened to the files:
    [results] has one entry for each file, in order, a success with the
    file's index and name or a failure with its name and an error, and
    the summary counts the successes, with
    [successful + failed = total]. *)
Theorem batch_transcribe_reports (L : Lib) (audio_files : list UploadFile)
    (language model_size : string) (w : World) :
  let done := batch_transcribe L audio_files language model_size w in
  let total := Z.of_nat (length audio_files) in
  exists response,
    fst done = Ret response /\
    (10 < total ->
       response = MkBatchResponse 400 false (Some "Too many files")
                    "Maximum 10 files per batch" [] None /\
       snd done = w) /\
    (total <= 10 ->
       batch_status_code response = 200 /\ batch_success response = true /\
       batch_error response = None /\
       Forall2 (fun item entry => entry_of (fst item) (snd item) entry)
               (enumerate_from 0 audio_files) (batch_results response) /\
       exists successful failed,
         batch_summary response = Some (MkBatchSummary total successful failed) /\
         successful = count_successful (batch_results response) /\
         successful + failed = total /\ 0 <= successful /\ 0 <= failed).
Proof.
  cbv zeta. unfold batch_transcribe.
  destruct (10 <? Z.of_nat (length audio_files)) eqn:Elen.
  - apply Z.ltb_lt in Elen. eexists. split; [reflexivity|].
    split; [intros _; split; reflexivity|intros Hle; lia].
  - apply Z.ltb_ge in Elen. unfold Eff.bind at 1.
    destruct (batch_loop_appends L language model_size audio_files 0 (MkBatchFrame w [] []))
      as (entries & w' & paths & E & H).
    rewrite E. cbn [results app]. unfold Eff.bind, Eff.gets, Eff.ret. cbn [results fst snd].
    eexists. split; [reflexivity|]. split; [intros Hgt; lia|]. intros _.
    cbn [batch_status_code batch_success batch_error batch_results batch_summary].
    repeat (split; [reflexivity|]). split; [exact H|].
    eexists _, _. split; [reflexivity|]. split; [reflexivity|].
    pose proof (count_successful_bounds entries) as Hb.
    assert (Hlen : length entries = length audio_files).
    { apply Forall2_length in H. rewrite <- H. clear.
      generalize 0. induction audio_files as [|a l IH]; intros i; [reflexivity|].
      cbn [enumerate_from length]. rewrite (IH (i + 1)). reflexivity. }
    rewrite Hlen in Hb. lia.
Qed.

(** X11. When the upload is read and its temporary file created, but
    writing it fails, the body of the loop of [/batch-transcribe] records
    the failure with the message of the exception and goes on: the
    temporary file is left behind, [safe_delete_file] is not called. *)
Theorem batch_file_leaves_file_behind (L : Lib) (language model_size : string) (i : Z)
    (audio_file : UploadFile) (f : BatchFrame)
    (content : list Byte.byte) (temp_fd : Z) (temp_file_path : string) (e : PyExn) :
  let h := trace (batch_world f) in
  let extension := Py.lower (snd (os_path_splitext L (filename audio_file))) in
  let suffix := if negb (Py.truthy extension) then ".wav" else extension in
  let now := time_time L (h ++ [EvRead (filename audio_file)]) in
  let prefix := "batch_" +:+ pretty i +:+ "_" +:+ pretty (int_of_float now) +:+ "_" in
  let created := EvMkstemp suffix prefix (Some temp_file_path) in
  let written := EvWrite temp_fd (Z.of_nat (length content)) in
  upload_read L h audio_file = Ret content ->
  tempfile_mkstemp L (h ++ [EvRead (filename audio_file); EvTime]) suffix prefix =
    Ret (temp_fd, temp_file_path) ->
  os_fdopen_write L (h ++ [EvRead (filename audio_file); EvTime; created]) temp_fd content =
    Raise e ->
  let evs := [EvRead (filename audio_file); EvTime; created; written] in
  batch_file L language model_size i audio_file f =
    (Ret tt,
     MkBatchFrame (MkWorld (whisper_stt (batch_world f)) (h ++ evs))
       (results f ++
        [MkBatchEntry false None (Some (filename audio_file)) (Some (exn_msg e))])
       [temp_file_path]) /\
  created_files evs = [temp_file_path] /\ safe_deleted evs = [].
Proof.
  cbv zeta. destruct f as [[st h] res paths0]. cbn [batch_world trace whisper_stt results].
  intros Hread Hmk Hwrite. split; [|split; reflexivity].
  unfold batch_file. batch_run. rewrite Hread. batch_run.
  norm_trace. rewrite Hmk. batch_run. norm_trace. rewrite Hwrite. batch_run.
  norm_trace. reflexivity.
Qed.

Lemma batch_file_leaves_file_behind_witness :
  exists w',
    batch_file full_disk_lib "en" "base" 0 sample_upload (MkBatchFrame (boot full_disk_lib) [] [])
    = (Ret tt,
       MkBatchFrame w'
         [MkBatchEntry false None (Some "clip.mp3") (Some "no space left on device")]
         ["/tmp/batch_0_1700000002_3.mp3"]) /\
    created_files (new_events (boot full_disk_lib) w') = ["/tmp/batch_0_1700000002_3.mp3"] /\
    safe_deleted (new_events (boot full_disk_lib) w') = [].
Proof.
  eexists. split.
  - apply (batch_file_leaves_file_behind full_disk_lib "en" "base" 0 sample_upload
             (MkBatchFrame (boot full_disk_lib) [] [])
             [Byte.x52; Byte.x49; Byte.x46; Byte.x46] 3 "/tmp/batch_0_1700000002_3.mp3"
             (MkExn "OSError" "no space left on device"));
      vm_compute; reflexivity.
  - split; vm_compute; reflexivity.
Defined.

(** ** The language of a request *)

Lemma no_detect_calls (evs : list Event) : detect_calls evs = [] -> Forall no_detect evs.
Proof.
  induction evs as [|ev evs IH]; intros H; [constructor|].
  change (ev :: evs) with ([ev] ++ evs) in H. rewrite detect_calls_app in H.
  apply app_eq_nil in H as [H1 H2]. constructor; [exact H1|apply IH; exact H2].
Qed.

Lemma detect_calls_no_detect (evs : list Event) : Forall no_detect evs -> detect_calls evs = [].
Proof.
  induction 1 as [|ev evs Hev _ IH]; [reflexivity|].
  change (ev :: evs) with ([ev] ++ evs). rewrite detect_calls_app, Hev, IH. reflexivity.
Qed.

Lemma transcribe_audio_no_detect (L : Lib) (path : string) (language : option string)
    (model_size : string) (high_accuracy : bool) :
  explicit_language language ->
  steps (extends no_detect) (transcribe_audio L path language model_size high_accuracy).
Proof.
  intros Hex w.
  destruct (transcribe_audio_extends L path language model_size high_accuracy w)
    as (evs & T & _).
  destruct (transcribe_audio_shape L path language model_size high_accuracy w)
    as (_ & _ & Hdet & _).
  exists evs. split; [exact T|]. apply no_detect_calls.
  rewrite <- (new_events_app _ _ _ T). apply Hdet. exact Hex.
Qed.

Lemma own_call_no_detect (ev : Event) : own_call ev -> no_detect ev.
Proof. destruct ev; simpl; intros H; try contradiction; reflexivity. Qed.



(** ** [detect_language_advanced] *)

Lemma insert_desc_perm (x : string * Q) (sorted : list (string * Q)) :
  insert_desc x sorted ≡ₚ x :: sorted.
Proof.
  induction sorted as [|y rest IH]; [reflexivity|].
  cbn [insert_desc]. destruct (Py.gt (snd y) (snd x)); [|reflexivity].
  rewrite IH. apply Permutation_swap.
Qed.

Lemma sorted_desc_perm (items : list (string * Q)) : sorted_desc items ≡ₚ items.
Proof.
  induction items as [|x rest IH]; [reflexivity|].
  unfold sorted_desc in *. cbn [fold_right]. rewrite insert_desc_perm, IH. reflexivity.
Qed.

Lemma insert_desc_sorted (x : string * Q) (sorted : list (string * Q)) :
  StronglySorted desc sorted -> StronglySorted desc (insert_desc x sorted).
Proof.
  induction 1 as [|y rest Hs IH Hy]; cbn [insert_desc].
  - constructor; constructor.
  - destruct (Py.gt (snd y) (snd x)) eqn:E.
    + constructor; [exact IH|]. rewrite insert_desc_perm.
      constructor; [|exact Hy]. unfold desc. apply Qlt_le_weak. apply gt_true_lt. exact E.
    + apply gt_false_le in E. constructor; [constructor; assumption|].
      constructor; [exact E|]. eapply Forall_impl; [exact Hy|].
      intros z Hz. unfold desc in *. apply (Qle_trans _ _ _ Hz E).
Qed.

Lemma sorted_desc_sorted (items : list (string * Q)) : StronglySorted desc (sorted_desc items).
Proof.
  induction items as [|x rest IH]; [constructor|].
  unfold sorted_desc in *. cbn [fold_right]. apply insert_desc_sorted. exact IH.
Qed.

Lemma candidates_of_eq (items : list (string * Q)) :
  exists cs, candidates_of items = Ret cs /\ map pair_of cs = items /\ Forall levelled cs.
Proof.
  induction items as [|[lang conf] rest (cs & E & Hp & Hl)].
  - exists []. repeat split. constructor.
  - cbn [candidates_of]. unfold candidate_of. cbn [fst snd].
    rewrite _get_confidence_level_eq. cbn [Py.and_then]. rewrite E. cbn [Py.and_then].
    eexists. split; [reflexivity|]. split.
    + cbn [map]. rewrite Hp. reflexivity.
    + constructor; [|exact Hl]. unfold levelled. cbn [candidate_confidence confidence_level].
      apply _get_confidence_level_eq.
Qed.

Lemma slice_from_one {A} (first : A) (rest : list A) (top_k : Z) :
  1 <= top_k ->
  first :: slice (first :: rest) 1 top_k = take (Z.to_nat top_k) (first :: rest).
Proof.
  intros Hk. unfold slice, clamp_index. cbn [length].
  destruct (1 <? 0) eqn:E1; [apply Z.ltb_lt in E1; lia|].
  destruct (top_k <? 0) eqn:E2; [apply Z.ltb_lt in E2; lia|].
  replace (Z.min 1 (Z.of_nat (S (length rest)))) with 1 by lia.
  change (Z.to_nat 1) with 1%nat. cbn [drop]. rewrite ?drop_0.
  replace (Z.to_nat top_k) with (S (Z.to_nat (top_k - 1))) by lia.
  cbn [take]. f_equal.
  destruct (Z.le_gt_cases top_k (Z.of_nat (S (length rest)))) as [Hle|Hgt].
  - f_equal. lia.
  - rewrite !take_ge by lia. reflexivity.
Qed.

Ltac advanced_fails :=
  split; [eexists; reflexivity|]; split; [reflexivity|]; intros d Hd; discriminate Hd.


(** X14. When the model returns no probability at all,
    [detect_language_advanced] returns [None]: the missing first
    candidate is an error like every other. *)
Theorem detect_language_advanced_without_probabilities (L : Lib) (model : Model)
    (audio_path : string) (top_k : Z) (w : World) (audio tensor : Audio) (mel0 mel : Mel) :
  let before := [EvLibrosaLoad audio_path 16000 true; EvPadOrTrim; EvLogMel;
                 EvToDevice (model_device model)] in
  librosa_load L (trace w) audio_path = Ret audio ->
  whisper_pad_or_trim L audio = Ret tensor ->
  whisper_log_mel_spectrogram L tensor = Ret mel0 ->
  tensor_to L mel0 (model_device model) = Ret mel ->
  model_detect_language L (trace w ++ before) model mel = Ret [] ->
  detect_language_advanced L model audio_path top_k w =
    (Ret None, MkWorld (whisper_stt w) (trace w ++ before ++ [EvDetectLanguage model])).
Proof.
  cbv zeta. destruct w as [st h]. cbn [trace whisper_stt].
  intros Hload Hpad Hmel0 Hmel Hprobs.
  unfold detect_language_advanced. eff_run.
  rewrite Hload. eff_run. rewrite Hpad. eff_run. rewrite Hmel0. eff_run.
  rewrite Hmel. eff_run. norm_trace. rewrite Hprobs. eff_run. reflexivity.
Qed.

Lemma detect_language_advanced_without_probabilities_witness :
  fst (detect_language_advanced mute_lib (MkModel "tiny" "cpu") "clip.wav" 3 (boot mute_lib))
  = Ret None.
Proof.
  rewrite (detect_language_advanced_without_probabilities mute_lib (MkModel "tiny" "cpu")
             "clip.wav" 3 (boot mute_lib) [0.5%Q; 0.25%Q; (-0.5)%Q] [0.5%Q; 0.25%Q; (-0.5)%Q]
             (MkMel [0.5%Q; 0.25%Q; (-0.5)%Q] "cpu") (MkMel [0.5%Q; 0.25%Q; (-0.5)%Q] "cpu"));
    reflexivity.
Defined.

(** The head of the sorted list is the first of the greatest. *)
Lemma sorted_desc_first (before after : list (string * Q)) (lang : string) (confidence : Q) :
  Forall (fun item => (snd item < confidence)%Q) before ->
  Forall (fun item => (snd item <= confidence)%Q) after ->
  exists rest, sorted_desc (before ++ (lang, confidence) :: after) = (lang, confidence) :: rest.
Proof.
  intros Hb Ha. induction Hb as [|b before Hlt _ (rest & IH)].
  - cbn [app]. unfold sorted_desc. cbn [fold_right]. fold (sorted_desc after).
    assert (Hs : Forall (fun item => (snd item <= confidence)%Q) (sorted_desc after))
      by (rewrite sorted_desc_perm; exact Ha).
    destruct (sorted_desc after) as [|y ys]; cbn [insert_desc]; [eexists; reflexivity|].
    apply Forall_cons in Hs as [Hy _]. cbn [snd].
    rewrite (le_gt_false _ _ Hy). eexists. reflexivity.
  - cbn [app]. unfold sorted_desc in *. cbn [fold_right]. rewrite IH.
    cbn [insert_desc snd]. rewrite (lt_gt_true _ _ Hlt). eexists. reflexivity.
Qed.

Lemma first_of_the_greatest (probs : list (string * Q)) :
  probs <> [] ->
  exists before lang confidence after,
    probs = before ++ (lang, confidence) :: after /\
    Forall (fun item => (snd item < confidence)%Q) before /\
    Forall (fun item => (snd item <= confidence)%Q) after.
Proof.
  induction probs as [|[k v] rest IH]; [congruence|]. intros _.
  destruct rest as [|y rest'].
  - exists [], k, v, []. repeat split; constructor.
  - destruct IH as (before & lang & c & after & E & Hb & Ha); [discriminate|].
    destruct (Qlt_le_dec v c) as [Hlt|Hle].
    + exists ((k, v) :: before), lang, c, after. rewrite E. repeat split; [|exact Ha].
      constructor; [exact Hlt|exact Hb].
    + exists [], k, v, (y :: rest'). repeat split; [constructor|].
      rewrite E. apply Forall_app. split; [|constructor].
      * eapply Forall_impl; [exact Hb|]. intros item Hi. cbn beta in Hi.
        apply Qlt_le_weak. apply (Qlt_le_trans _ _ _ Hi Hle).
      * exact Hle.
      * eapply Forall_impl; [exact Ha|]. intros item Hi. cbn beta in Hi.
        apply (Qle_trans _ _ _ Hi Hle).
Qed.

(** X15. Among the languages with the greatest probability, the first
    in the dictionary wins, in both detectors: it is what
    [max(probs, key=probs.get)] returns, and it comes first in
    [sorted(probs.items(), key=lambda x: x[1], reverse=True)]. *)
Theorem max_key_first_of_the_greatest (before after : list (string * Q))
    (lang : string) (confidence : Q) :
  NoDup (map fst (before ++ (lang, confidence) :: after)) ->
  Forall (fun item => (snd item < confidence)%Q) before ->
  Forall (fun item => (snd item <= confidence)%Q) after ->
  max_key (before ++ (lang, confidence) :: after) = Ret lang /\
  exists rest, sorted_desc (before ++ (lang, confidence) :: after) = (lang, confidence) :: rest.
Proof.
  intros Hnd Hbefore Hafter. split.
  - apply (max_key_split before after lang confidence Hnd Hbefore Hafter).
  - apply (sorted_desc_first before after lang confidence Hbefore Hafter).
Qed.

Lemma max_key_first_of_the_greatest_witness :
  max_key ([("fr", 0.1%Q)] ++ ("ar", 0.4%Q) :: [("en", 0.4%Q); ("de", 0.2%Q)]) = Ret "ar" /\
  exists rest,
    sorted_desc ([("fr", 0.1%Q)] ++ ("ar", 0.4%Q) :: [("en", 0.4%Q); ("de", 0.2%Q)])
    = ("ar", 0.4%Q) :: rest.
Proof.
  apply (max_key_first_of_the_greatest [("fr", 0.1%Q)] [("en", 0.4%Q); ("de", 0.2%Q)]
           "ar" 0.4%Q).
  - apply (bool_decide_unpack _). vm_compute. reflexivity.
  - repeat first [apply List.Forall_cons | apply List.Forall_nil]; cbn; unfold Qlt; cbn; lia.
  - repeat first [apply List.Forall_cons | apply List.Forall_nil]; cbn; unfold Qle; cbn; lia.
Defined.

(** X16. The two detectors agree on distinct languages: the language
    [detect_language] picks with [max(probs, key=probs.get)] is the
    first of [sorted(probs.items(), key=..., reverse=True)], which
    [detect_language_advanced] reports as primary, with the same
    confidence. *)
Theorem max_key_is_first_sorted (probs : list (string * Q)) :
  NoDup (map fst probs) -> probs <> [] ->
  exists lang confidence rest,
    max_key probs = Ret lang /\
    dict_get probs lang = Some confidence /\
    sorted_desc probs = (lang, confidence) :: rest.
Proof.
  intros Hnd Hne.
  destruct (first_of_the_greatest probs Hne) as (before & lang & c & after & E & Hb & Ha).
  destruct (sorted_desc_first before after lang c Hb Ha) as [rest Hs].
  exists lang, c, rest. subst probs. split; [|split; [|exact Hs]].
  - apply (max_key_split before after lang c Hnd Hb Ha).
  - apply elem_of_dict_get; [exact Hnd|]. apply elem_of_app. right. left.
Qed.

Lemma max_key_is_first_sorted_witness :
  exists lang confidence rest,
    max_key sample_probs = Ret lang /\
    dict_get sample_probs lang = Some confidence /\
    sorted_desc sample_probs = (lang, confidence) :: rest.
Proof.
  apply (max_key_is_first_sorted sample_probs).
  - apply (bool_decide_unpack _). vm_compute. reflexivity.
  - discriminate.
Defined.

(** ** [/transcribe]: what goes wrong, and the answer *)

Ltac handler_run :=
  cbv beta iota zeta delta
    [Eff.try_except Eff.bind Eff.ret Eff.raise Eff.gets Eff.modify Eff.lift Eff.attempt
     Eff.zoom Eff.try_finally call get_stt set_stt in_world temp_files_append stamped mkstemp
     cleanup];
  cbn [whisper_stt trace frame_world temp_files fst snd negb Eff.for_each app].

(** X17. When reading the upload raises, [/transcribe] answers 500
    'Internal server error' with the message of the exception as
    [error]; it has created no file and done nothing else. *)
Theorem transcribe_endpoint_read_failure (L : Lib) (req : TranscribeRequest) (w : World)
    (e : PyExn) :
  upload_read L (trace w) (req_audio_file req) = Raise e ->
  transcribe_endpoint L req w =
    (Ret (MkResponse 500 false (Some (exn_msg e)) "Internal server error" None),
     MkWorld (whisper_stt w) (trace w ++ [EvRead (filename (req_audio_file req))])).
Proof.
  intros Hread. destruct w as [st h]. cbn [trace whisper_stt] in *.
  unfold transcribe_endpoint, handle_upload, handle_validated. handler_run.
  rewrite Hread. handler_run. reflexivity.
Qed.

Lemma transcribe_endpoint_read_failure_witness :
  transcribe_endpoint broken_upload_lib (MkTranscribeRequest sample_upload "en" "base" true)
    (boot broken_upload_lib) =
    (Ret (MkResponse 500 false (Some "connection lost") "Internal server error" None),
     MkWorld (whisper_stt (boot broken_upload_lib))
             (trace (boot broken_upload_lib) ++ [EvRead "clip.mp3"])).
Proof.
  apply (transcribe_endpoint_read_failure broken_upload_lib
           (MkTranscribeRequest sample_upload "en" "base" true) (boot broken_upload_lib)
           (MkExn "RuntimeError" "connection lost")).
  reflexivity.
Defined.

(** X18. When the upload is read, is within the limit and its
    temporary file is created, but writing it raises, [/transcribe]
    answers 500 'Processing failed' with the message of the exception;
    nothing is converted, loaded or transcribed, and the temporary file
    is passed to [safe_delete_file] before the answer leaves. *)
Theorem transcribe_endpoint_write_failure (L : Lib) (req : TranscribeRequest) (w : World)
    (content : list Byte.byte) (temp_fd : Z) (temp_file_path : string) (e : PyExn) :
  let h := trace w in
  let name := filename (req_audio_file req) in
  let extension := Py.lower (snd (os_path_splitext L name)) in
  let suffix := if negb (Py.truthy extension) then ".wav" else extension in
  let now := time_time L (h ++ [EvRead name]) in
  let prefix := "whisper_" +:+ pretty (int_of_float now) +:+ "_" in
  let written :=
    [EvRead name; EvTime; EvMkstemp suffix prefix (Some temp_file_path);
     EvWrite temp_fd (Z.of_nat (length content))] in
  upload_read L h (req_audio_file req) = Ret content ->
  Z.of_nat (length content) <= 25 * 1024 * 1024 ->
  tempfile_mkstemp L (h ++ [EvRead name; EvTime]) suffix prefix = Ret (temp_fd, temp_file_path) ->
  os_fdopen_write L (h ++ [EvRead name; EvTime; EvMkstemp suffix prefix (Some temp_file_path)])
                  temp_fd content = Raise e ->
  exists deleting,
    transcribe_endpoint L req w =
      (Ret (MkResponse 500 false (Some "Processing failed")
              ("Audio processing error: " +:+ exn_msg e) None),
       MkWorld (whisper_stt w)
               (h ++ written ++ EvSafeDelete temp_file_path :: deleting)) /\
    Forall delete_call deleting.
Proof.
  cbv zeta. destruct w as [st h]. cbn [trace whisper_stt].
  intros Hread Hsize Hmk Hwrite.
  assert (Hlimit : (upload_limit <? Z.of_nat (length content)) = false)
    by (apply Z.ltb_ge; unfold upload_limit; exact Hsize).
  unfold transcribe_endpoint, handle_upload, handle_validated, process_upload. handler_run.
  rewrite Hread. handler_run. rewrite Hlimit. handler_run.
  norm_trace. rewrite Hmk. handler_run. norm_trace. rewrite Hwrite. handler_run. handler_run.
  match goal with
  | |- context [safe_delete_file L temp_file_path ?w0] =>
      destruct (safe_delete_file_spec L temp_file_path w0) as (b & evs & E & F); rewrite E
  end.
  handler_run. norm_trace. exists evs. split; [reflexivity|exact F].
Qed.

Lemma transcribe_endpoint_write_failure_witness :
  exists deleting,
    transcribe_endpoint full_disk_lib (MkTranscribeRequest sample_upload "en" "base" true)
      (boot full_disk_lib) =
      (Ret (MkResponse 500 false (Some "Processing failed")
              "Audio processing error: no space left on device" None),
       MkWorld (whisper_stt (boot full_disk_lib))
               (trace (boot full_disk_lib) ++
                [EvRead "clip.mp3"; EvTime;
                 EvMkstemp ".mp3" "whisper_1700000002_" (Some "/tmp/whisper_1700000002_3.mp3");
                 EvWrite 3 4] ++
                EvSafeDelete "/tmp/whisper_1700000002_3.mp3" :: deleting)) /\
    Forall delete_call deleting.
Proof.
  apply (transcribe_endpoint_write_failure full_disk_lib
           (MkTranscribeRequest sample_upload "en" "base" true) (boot full_disk_lib)
           [Byte.x52; Byte.x49; Byte.x46; Byte.x46] 3 "/tmp/whisper_1700000002_3.mp3"
           (MkExn "OSError" "no space left on device")).
  - reflexivity.
  - vm_compute. discriminate.
  - vm_compute. reflexivity.
  - vm_compute. reflexivity.
Defined.

(** X19. When the upload is written but is neither WAV nor FLAC and
    cannot be decoded, [/transcribe] answers 400 'Audio conversion
    failed' with the message of the exception; no model is loaded and
    nothing is transcribed, and both temporary files, the upload's and
    the one made for the conversion, are passed to [safe_delete_file],
    in that order. *)
Theorem transcribe_endpoint_conversion_failure (L : Lib) (req : TranscribeRequest)
    (w : World) (content : list Byte.byte) (temp_fd wav_fd : Z)
    (temp_file_path wav_path : string) (e : PyExn) :
  let h := trace w in
  let name := filename (req_audio_file req) in
  let extension := Py.lower (snd (os_path_splitext L name)) in
  let suffix := if negb (Py.truthy extension) then ".wav" else extension in
  let prefix := "whisper_" +:+ pretty (int_of_float (time_time L (h ++ [EvRead name]))) +:+ "_" in
  let written :=
    [EvRead name; EvTime; EvMkstemp suffix prefix (Some temp_file_path);
     EvWrite temp_fd (Z.of_nat (length content))] in
  let wav_prefix :=
    "whisper_converted_" +:+ pretty (int_of_float (time_time L (h ++ written))) +:+ "_" in
  let converting :=
    [EvTime; EvMkstemp ".wav" wav_prefix (Some wav_path); EvClose wav_fd;
     EvFromFile temp_file_path (drop_first suffix)] in
  upload_read L h (req_audio_file req) = Ret content ->
  Z.of_nat (length content) <= 25 * 1024 * 1024 ->
  tempfile_mkstemp L (h ++ [EvRead name; EvTime]) suffix prefix = Ret (temp_fd, temp_file_path) ->
  os_fdopen_write L (h ++ [EvRead name; EvTime; EvMkstemp suffix prefix (Some temp_file_path)])
                  temp_fd content = Ret tt ->
  in_list suffix [".wav"; ".flac"] = false ->
  tempfile_mkstemp L (h ++ written ++ [EvTime]) ".wav" wav_prefix = Ret (wav_fd, wav_path) ->
  pydub_from_file L (h ++ written ++
                     [EvTime; EvMkstemp ".wav" wav_prefix (Some wav_path); EvClose wav_fd])
                  temp_file_path (drop_first suffix) = Raise e ->
  exists deleting deleting',
    transcribe_endpoint L req w =
      (Ret (MkResponse 400 false (Some "Audio conversion failed")
              ("Could not convert audio format: " +:+ exn_msg e) None),
       MkWorld (whisper_stt w)
               (h ++ written ++ converting ++
                EvSafeDelete temp_file_path :: deleting ++
                EvSafeDelete wav_path :: deleting')) /\
    Forall delete_call deleting /\ Forall delete_call deleting'.
Proof.
  cbv zeta. destruct w as [st h]. cbn [trace whisper_stt].
  intros Hread Hsize Hmk Hwrite Hext Hmk2 Hfrom.
  assert (Hlimit : (upload_limit <? Z.of_nat (length content)) = false)
    by (apply Z.ltb_ge; unfold upload_limit; exact Hsize).
  unfold transcribe_endpoint, handle_upload, handle_validated, process_upload, convert_upload.
  handler_run.
  rewrite Hread. handler_run. rewrite Hlimit. handler_run.
  norm_trace. rewrite Hmk. handler_run. norm_trace. rewrite Hwrite. handler_run.
  rewrite Hext. handler_run. norm_trace. norm_trace.
  cbn [app] in Hmk2. rewrite Hmk2. handler_run. norm_trace.
  cbn [app] in Hfrom. rewrite Hfrom. handler_run. handler_run.
  match goal with
  | |- context [safe_delete_file L temp_file_path ?w0] =>
      destruct (safe_delete_file_spec L temp_file_path w0) as (b & evs & E & F); rewrite E
  end.
  handler_run.
  match goal with
  | |- context [safe_delete_file L wav_path ?w0] =>
      destruct (safe_delete_file_spec L wav_path w0) as (b' & evs' & E' & F'); rewrite E'
  end.
  handler_run. norm_trace. exists evs, evs'. split; [reflexivity|]. split; assumption.
Qed.

Lemma transcribe_endpoint_conversion_failure_witness :
  exists deleting deleting',
    transcribe_endpoint corrupt_audio_lib (MkTranscribeRequest sample_upload "en" "base" true)
      (boot corrupt_audio_lib) =
      (Ret (MkResponse 400 false (Some "Audio conversion failed")
              "Could not convert audio format: decoding failed" None),
       MkWorld (whisper_stt (boot corrupt_audio_lib))
               (trace (boot corrupt_audio_lib) ++
                [EvRead "clip.mp3"; EvTime;
                 EvMkstemp ".mp3" "whisper_1700000002_" (Some "/tmp/whisper_1700000002_3.mp3");
                 EvWrite 3 4] ++
                [EvTime;
                 EvMkstemp ".wav" "whisper_converted_1700000005_"
                           (Some "/tmp/whisper_converted_1700000005_6.wav");
                 EvClose 6; EvFromFile "/tmp/whisper_1700000002_3.mp3" "mp3"] ++
                EvSafeDelete "/tmp/whisper_1700000002_3.mp3" :: deleting ++
                EvSafeDelete "/tmp/whisper_converted_1700000005_6.wav" :: deleting')) /\
    Forall delete_call deleting /\ Forall delete_call deleting'.
Proof.
  apply (transcribe_endpoint_conversion_failure corrupt_audio_lib
           (MkTranscribeRequest sample_upload "en" "base" true) (boot corrupt_audio_lib)
           [Byte.x52; Byte.x49; Byte.x46; Byte.x46] 3 6 "/tmp/whisper_1700000002_3.mp3"
           "/tmp/whisper_converted_1700000005_6.wav"
           (MkExn "CouldntDecodeError" "decoding failed")).
  - reflexivity.
  - vm_compute. discriminate.
  - vm_compute. reflexivity.
  - vm_compute. reflexivity.
  - vm_compute. reflexivity.
  - vm_compute. reflexivity.
  - vm_compute. reflexivity.
Defined.

(** ** [/transcribe]: what a result says about the upload *)

Lemma handle_validated_file_info (L : Lib) (audio_file : UploadFile)
    (language model_size : string) (high_accuracy : bool) :
  returns (fun response =>
             forall er time info,
               resp_result response = Some (er, time, info) ->
               status_code response = 200 /\
               info_filename info = filename audio_file /\
               0 <= info_size_bytes info <= 25 * 1024 * 1024 /\
               info_format info =
                 (let extension := Py.lower (snd (os_path_splitext L (filename audio_file))) in
                  if negb (Py.truthy extension) then ".wav" else extension))
          (handle_validated L audio_file language model_size high_accuracy).
Proof.
  unfold handle_validated.
  apply returns_bind; intros content _.
  destruct (upload_limit <? Z.of_nat (length content)) eqn:Elimit;
    [apply returns_ret; intros er time info E; discriminate|].
  apply Z.ltb_ge in Elimit. unfold upload_limit in Elimit.
  apply returns_bind; intros prefix _.
  apply returns_bind; intros [fd path] _.
  apply returns_bind; intros _ _.
  unfold process_upload.
  apply returns_try_except;
    [|intros e; apply returns_ret; intros er time info E; discriminate].
  apply returns_bind; intros _ _.
  apply returns_bind; intros converted Hc.
  destruct converted as [final_audio_path|response].
  - apply returns_bind; intros start_time _.
    apply returns_bind; intros result _.
    apply returns_bind; intros end_time _.
    destruct result as [er0|]; apply returns_ret; intros er time info E;
      [|discriminate].
    cbn [resp_result] in E. inversion E; subst.
    cbn [status_code info_filename info_size_bytes info_format].
    repeat split; try reflexivity; lia.
  - apply returns_ret. destruct Hc as (f & f' & Hc).
    destruct (convert_upload_returns L _ _ _ _ _ Hc response eq_refl) as [message ->].
    intros er time info E. discriminate.
Qed.



(** ** [/models] *)

(** X21. Every model that [/models] lists can be asked of
    [/transcribe]: on a server that has handled any requests since it
    started, the validation keeps its name. The other way round fails:
    ['large'] is kept too, and [/models] does not list it. *)
Theorem listed_models_are_served (L : Lib) (rs : list Request) (name : string) :
  name ∈ map fst get_available_models ->
  let st := whisper_stt (served L rs) in
  validated_model_size st name = name /\
  validated_model_size st "large" = "large" /\
  "large" ∉ map fst get_available_models.
Proof.
  intros Hin. cbv zeta. destruct (served_sound L rs) as [[Hk _] _].
  unfold validated_model_size. rewrite !in_list_keys, !(Hk _). split; [|split].
  - cbn [map fst get_available_models] in Hin.
    repeat (apply elem_of_cons in Hin as [->|Hin]; [reflexivity|]).
    apply elem_of_nil in Hin. destruct Hin.
  - reflexivity.
  - cbn [map fst get_available_models]. intros Hin'.
    repeat (apply elem_of_cons in Hin' as [E|Hin']; [discriminate E|]).
    apply elem_of_nil in Hin'. exact Hin'.
Qed.

Lemma listed_models_are_served_witness :
  validated_model_size (whisper_stt (served sample_lib [])) "large-v3" = "large-v3" /\
  validated_model_size (whisper_stt (served sample_lib [])) "large" = "large" /\
  "large" ∉ map fst get_available_models.
Proof.
  apply (listed_models_are_served sample_lib [] "large-v3").
  cbn [map fst get_available_models]. do 4 apply list_elem_of_further. apply list_elem_of_here.
Defined.

(** ** More sample runs *)

(** The sample probabilities, ranked: Arabic first, then the two others. *)
Example advanced_sample :
  exists d,
    fst (detect_language_advanced sample_lib (MkModel "tiny" "cpu") "clip.wav" 3
           (boot sample_lib)) = Ret (Some d) /\
    map pair_of (primary d :: alternatives d) = [("ar", 0.7%Q); ("en", 0.2%Q); ("id", 0.1%Q)] /\
    map confidence_level (primary d :: alternatives d) = ["medium"; "very_low"; "very_low"].
Proof. eexists. split; [vm_compute; reflexivity|]. split; reflexivity. Qed.

(** With [top_k = 0] the primary candidate is still there, alone. *)
Example advanced_sample_top_0 :
  exists d,
    fst (detect_language_advanced sample_lib (MkModel "tiny" "cpu") "clip.wav" 0
           (boot sample_lib)) = Ret (Some d) /\
    candidate_language (primary d) = "ar" /\ alternatives d = [].
Proof. eexists. split; [vm_compute; reflexivity|]. split; reflexivity. Qed.

(** After a start on which no model could be loaded, [/health] reports
    ['base'] as current model and no loaded model. *)
Example health_sample_without_model :
  exists h,
    fst (health_check deaf_lib sample_cuda (served deaf_lib [])) = Ret h /\
    health_current_model h = "base" /\ health_loaded_models h = [].
Proof. eexists. split; [vm_compute; reflexivity|]. split; reflexivity. Qed.

(** A batch of two uploads on the sample library: two successes. *)
Example batch_sample :
  exists response,
    fst (batch_transcribe sample_lib [sample_upload; wav_upload] "en" "base" (boot sample_lib))
      = Ret response /\
    map entry_success (batch_results response) = [true; true] /\
    batch_summary response = Some (MkBatchSummary 2 2 0).
Proof. eexists. split; [vm_compute; reflexivity|]. split; reflexivity. Qed.
